(** * SSG-AI: the live voice session of [LiveVoiceOverlay.tsx]

    A shallow embedding of the React component [LiveVoiceOverlay]
    (src/components/LiveVoiceOverlay.tsx) and of the command handler the
    application passes to it ([handleVoiceCommand], src/App.tsx).

    The component is a bundle of callbacks that share mutable state: React
    state ([status], the two transcripts, [isMuted]), refs (the two audio
    contexts, [nextStartTimeRef], [sourcesRef]) and the variables of the
    effect closure ([isActive], [stream], [sessionPromise]).  The embedding
    is a state record, one function per callback, and a [step] function that
    delivers one event of the browser or of the transport to its callback.
    Calls on objects owned by the environment ([session.close],
    [session.sendRealtimeInput], [session.sendToolResponse], [source.start],
    [source.stop], [onCommand], [onClose]) are recorded in logs, oldest
    first. *)

From Stdlib Require Import ZArith List String Ascii Bool Lia DecimalString.
Import ListNotations.
Open Scope string_scope.
Open Scope list_scope.

Set Implicit Arguments.

(* ================================================================== *)
(** ** JavaScript values that reach the code as [any] *)

(** [fc.args] is typed [any]; the handler of App.tsx reads a property of it
    and coerces the result with [!!]. *)
#[warnings="-register-all"]
Inductive JsValue : Type :=
| JsUndefined
| JsNull
| JsBoolean (b : bool)
| JsNumber (z : Z)
| JsString (s : string)
| JsObject (props : list (string * JsValue)).

Fixpoint assoc (k : string) (props : list (string * JsValue)) : option JsValue :=
  match props with
  | [] => None
  | (k', v) :: rest => if String.eqb k k' then Some v else assoc k rest
  end.

(** [v.k] for a key [k] that no prototype defines: a [TypeError] ([None])
    on [undefined] and [null], the own property of an object, [undefined]
    on an object without it and on a primitive. *)
Definition js_get (v : JsValue) (k : string) : option JsValue :=
  match v with
  | JsUndefined | JsNull => None
  | JsObject props =>
      match assoc k props with
      | Some x => Some x
      | None => Some JsUndefined
      end
  | _ => Some JsUndefined
  end.

(** [!!v] *)
Definition js_truthy (v : JsValue) : bool :=
  match v with
  | JsUndefined | JsNull => false
  | JsBoolean b => b
  | JsNumber z => negb (Z.eqb z 0)
  | JsString s => negb (String.eqb s "")
  | JsObject _ => true
  end.

(** [n.toString()] of an integral number. *)
Definition Number_toString (z : Z) : string :=
  NilZero.string_of_int (Z.to_int z).

(* ================================================================== *)
(** ** The time base of the output device

    [AudioContext.currentTime], [AudioBuffer.duration] and
    [nextStartTimeRef.current] are JavaScript numbers.  The scheduling code
    only compares them ([Math.max]) and adds a duration to a start time, so
    the embedding is written over any time base with an order and an
    addition that does not go backwards on a non-negative duration; the
    integers are one. *)
Class TimeBase : Type := {
  time : Type;
  t0 : time;
  tleb : time -> time -> bool;
  tadd : time -> time -> time;
  tleb_refl : forall a, tleb a a = true;
  tleb_trans : forall a b c, tleb a b = true -> tleb b c = true -> tleb a c = true;
  tleb_antisym : forall a b, tleb a b = true -> tleb b a = true -> a = b;
  tadd_nonneg : forall a d, tleb t0 d = true -> tleb a (tadd a d) = true
}.

(** [Math.max(a, b)] *)
Definition Math_max {TB : TimeBase} (a b : time) : time :=
  if tleb a b then b else a.

#[export, refine] Instance ZTime : TimeBase := {
  time := Z; t0 := 0%Z; tleb := Z.leb; tadd := Z.add
}.
Proof.
  - intros a; apply Z.leb_refl.
  - intros a b c H1 H2; apply Z.leb_le in H1, H2; apply Z.leb_le; lia.
  - intros a b H1 H2; apply Z.leb_le in H1, H2; lia.
  - intros a d H; apply Z.leb_le in H; apply Z.leb_le; lia.
Defined.

(* ================================================================== *)
(** ** Inbound messages ([LiveServerMessage])

    Only the fields the component reads.  A field reached through [?.] is
    optional; a field dereferenced without it is present. *)

Record Transcription := { text : string }.

Record InlineData := { data : string }.

Record Part := { inlineData : option InlineData }.

Record Content := { parts : list Part }.

Record ServerContent := {
  inputTranscription : option Transcription;
  outputTranscription : option Transcription;
  modelTurn : option Content;
  interrupted : bool;
  turnComplete : bool
}.

Record FunctionCall := {
  fc_id : string;
  fc_name : string;
  fc_args : JsValue
}.

Record ToolCall := { functionCalls : list FunctionCall }.

Record LiveServerMessage := {
  serverContent : option ServerContent;
  toolCall : option ToolCall
}.

(** [message.serverContent?.modelTurn?.parts[0]?.inlineData?.data] *)
Definition audioData_of (message : LiveServerMessage) : option string :=
  match serverContent message with
  | None => None
  | Some sc =>
      match modelTurn sc with
      | None => None
      | Some c =>
          match parts c with
          | [] => None
          | p :: _ =>
              match inlineData p with
              | None => None
              | Some i => Some (data i)
              end
          end
      end
  end.

(** Messages with one part, as the transport sends them. *)
Definition toolCallMessage (fcs : list FunctionCall) : LiveServerMessage :=
  {| serverContent := None; toolCall := Some {| functionCalls := fcs |} |}.

Definition content (sc : ServerContent) : LiveServerMessage :=
  {| serverContent := Some sc; toolCall := None |}.

Definition outputFragment (t : string) : LiveServerMessage :=
  content {| inputTranscription := None;
             outputTranscription := Some {| text := t |};
             modelTurn := None; interrupted := false; turnComplete := false |}.

Definition inputFragment (t : string) : LiveServerMessage :=
  content {| inputTranscription := Some {| text := t |};
             outputTranscription := None;
             modelTurn := None; interrupted := false; turnComplete := false |}.

Definition turnCompleteMessage : LiveServerMessage :=
  content {| inputTranscription := None; outputTranscription := None;
             modelTurn := None; interrupted := false; turnComplete := true |}.

Definition interruptedMessage : LiveServerMessage :=
  content {| inputTranscription := None; outputTranscription := None;
             modelTurn := None; interrupted := true; turnComplete := false |}.

Definition audioChunk (d : string) : LiveServerMessage :=
  content {| inputTranscription := None; outputTranscription := None;
             modelTurn := Some {| parts := [ {| inlineData := Some {| data := d |} |} ] |};
             interrupted := false; turnComplete := false |}.

(** The outbound half: what the component sends with
    [session.sendToolResponse] and the calls it makes on the session. *)
Record FunctionResponse := {
  fr_id : string;
  fr_name : string;
  fr_result : string
}.

(** The payload of every acknowledgment, [{ result: "ok" }]. *)
Definition ok : string := "ok".

(* ================================================================== *)
(** ** The component *)

Inductive Status : Type := connecting | listening | speaking | error.

(** An [AudioContext] is created running and is closed by [close()]. *)
Inductive ContextState : Type := running | closed.

(** [navigator.mediaDevices.getUserMedia]: pending, resolved with a live
    stream, or rejected.  Nothing in the component stops the tracks of the
    stream, so a live stream stays live. *)
Inductive UserMedia : Type := um_pending | um_live | um_denied.

Record AudioBuffer {TB : TimeBase} := { duration : time }.

(** A node made by [createBufferSource]; [node] is its identity in
    [sourcesRef], a [Set] of objects. *)
Record AudioBufferSourceNode {TB : TimeBase} := {
  node : nat;
  buffer : AudioBuffer
}.

Section Overlay.

Context {TB : TimeBase}.

(** [services/audioUtils] is imported by the component; its three
    functions are parameters here.  [decode] returns [None] when it throws,
    [decodeAudioData] when the promise it returns rejects. *)
Variables Float32Array Blob Bytes : Type.
Variable createBlob : Float32Array -> Blob.
Variable decode : string -> option Bytes.
Variable decodeAudioData : Bytes -> option AudioBuffer.

(** The props.  [onCommand] runs in the host and returns [None] when it
    throws. *)
Variable Host : Type.
Variable onClose : Host -> Host.
Variable onCommand : string -> JsValue -> Host -> option Host.

(** Calls made on the resolved session. *)
Inductive SessionCall : Type :=
| close
| sendRealtimeInput (media : Blob)
| sendToolResponse (functionResponses : FunctionResponse).

(** The three callbacks the component passes to [sessionPromise.then]. *)
Inductive Reaction : Type :=
| closeIfInactive                               (* lines 140-142 *)
| thenSendRealtimeInput (pcmBlob : Blob)        (* lines 49-51 *)
| thenSendToolResponse (r : FunctionResponse).  (* lines 96-100 *)

(** [sessionPromise]: not yet created (before [ai.live.connect] is
    called), pending with the callbacks registered so far, or settled. *)
Inductive Promise : Type :=
| not_created
| pending (reactions : list Reaction)
| fulfilled
| rejected.

Record State : Type := {
  (* React state *)
  status : Status;
  userTranscript : string;
  aiTranscript : string;
  isMuted : bool;
  (* refs *)
  audioContextRef : option ContextState;
  outputAudioContextRef : option ContextState;
  nextStartTimeRef : time;
  sourcesRef : list AudioBufferSourceNode;
  (* variables of the effect closure; the effect has an empty dependency
     list, so its body runs once and every callback made inside it sees
     the [isMuted] of the render it ran in *)
  isActive : bool;
  isMuted_closure : bool;
  stream : UserMedia;
  scriptProcessor : bool;  (* [onaudioprocess] installed, node connected *)
  sessionPromise : Promise;
  (* invocations of [onmessage] suspended at [await decodeAudioData(...)],
     each with the result its promise settles with *)
  awaiting : list (LiveServerMessage * option AudioBuffer);
  (* calls on the environment, oldest first *)
  sessionCalls : list SessionCall;
  startCalls : list (AudioBufferSourceNode * time);
  stopCalls : list nat;
  commandCalls : list (string * JsValue);
  host : Host;
  nodeCount : nat
}.

Definition set_status (v : Status) (st : State) : State :=
  Build_State
    v (userTranscript st) (aiTranscript st) (isMuted st) (audioContextRef st)
    (outputAudioContextRef st) (nextStartTimeRef st) (sourcesRef st)
    (isActive st) (isMuted_closure st) (stream st) (scriptProcessor st)
    (sessionPromise st) (awaiting st) (sessionCalls st) (startCalls st)
    (stopCalls st) (commandCalls st) (host st) (nodeCount st).

Definition set_userTranscript (v : string) (st : State) : State :=
  Build_State
    (status st) v (aiTranscript st) (isMuted st) (audioContextRef st)
    (outputAudioContextRef st) (nextStartTimeRef st) (sourcesRef st)
    (isActive st) (isMuted_closure st) (stream st) (scriptProcessor st)
    (sessionPromise st) (awaiting st) (sessionCalls st) (startCalls st)
    (stopCalls st) (commandCalls st) (host st) (nodeCount st).

Definition set_aiTranscript (v : string) (st : State) : State :=
  Build_State
    (status st) (userTranscript st) v (isMuted st) (audioContextRef st)
    (outputAudioContextRef st) (nextStartTimeRef st) (sourcesRef st)
    (isActive st) (isMuted_closure st) (stream st) (scriptProcessor st)
    (sessionPromise st) (awaiting st) (sessionCalls st) (startCalls st)
    (stopCalls st) (commandCalls st) (host st) (nodeCount st).

Definition set_isMuted (v : bool) (st : State) : State :=
  Build_State
    (status st) (userTranscript st) (aiTranscript st) v (audioContextRef st)
    (outputAudioContextRef st) (nextStartTimeRef st) (sourcesRef st)
    (isActive st) (isMuted_closure st) (stream st) (scriptProcessor st)
    (sessionPromise st) (awaiting st) (sessionCalls st) (startCalls st)
    (stopCalls st) (commandCalls st) (host st) (nodeCount st).

Definition set_audioContextRef (v : option ContextState) (st : State) : State :=
  Build_State
    (status st) (userTranscript st) (aiTranscript st) (isMuted st) v
    (outputAudioContextRef st) (nextStartTimeRef st) (sourcesRef st)
    (isActive st) (isMuted_closure st) (stream st) (scriptProcessor st)
    (sessionPromise st) (awaiting st) (sessionCalls st) (startCalls st)
    (stopCalls st) (commandCalls st) (host st) (nodeCount st).

Definition set_outputAudioContextRef (v : option ContextState) (st : State) : State :=
  Build_State
    (status st) (userTranscript st) (aiTranscript st) (isMuted st)
    (audioContextRef st) v (nextStartTimeRef st) (sourcesRef st)
    (isActive st) (isMuted_closure st) (stream st) (scriptProcessor st)
    (sessionPromise st) (awaiting st) (sessionCalls st) (startCalls st)
    (stopCalls st) (commandCalls st) (host st) (nodeCount st).

Definition set_nextStartTimeRef (v : time) (st : State) : State :=
  Build_State
    (status st) (userTranscript st) (aiTranscript st) (isMuted st)
    (audioContextRef st) (outputAudioContextRef st) v (sourcesRef st)
    (isActive st) (isMuted_closure st) (stream st) (scriptProcessor st)
    (sessionPromise st) (awaiting st) (sessionCalls st) (startCalls st)
    (stopCalls st) (commandCalls st) (host st) (nodeCount st).

Definition set_sourcesRef (v : list AudioBufferSourceNode) (st : State) : State :=
  Build_State
    (status st) (userTranscript st) (aiTranscript st) (isMuted st)
    (audioContextRef st) (outputAudioContextRef st) (nextStartTimeRef st) v
    (isActive st) (isMuted_closure st) (stream st) (scriptProcessor st)
    (sessionPromise st) (awaiting st) (sessionCalls st) (startCalls st)
    (stopCalls st) (commandCalls st) (host st) (nodeCount st).

Definition set_isActive (v : bool) (st : State) : State :=
  Build_State
    (status st) (userTranscript st) (aiTranscript st) (isMuted st)
    (audioContextRef st) (outputAudioContextRef st) (nextStartTimeRef st)
    (sourcesRef st) v (isMuted_closure st) (stream st) (scriptProcessor st)
    (sessionPromise st) (awaiting st) (sessionCalls st) (startCalls st)
    (stopCalls st) (commandCalls st) (host st) (nodeCount st).

Definition set_stream (v : UserMedia) (st : State) : State :=
  Build_State
    (status st) (userTranscript st) (aiTranscript st) (isMuted st)
    (audioContextRef st) (outputAudioContextRef st) (nextStartTimeRef st)
    (sourcesRef st) (isActive st) (isMuted_closure st) v (scriptProcessor st)
    (sessionPromise st) (awaiting st) (sessionCalls st) (startCalls st)
    (stopCalls st) (commandCalls st) (host st) (nodeCount st).

Definition set_scriptProcessor (v : bool) (st : State) : State :=
  Build_State
    (status st) (userTranscript st) (aiTranscript st) (isMuted st)
    (audioContextRef st) (outputAudioContextRef st) (nextStartTimeRef st)
    (sourcesRef st) (isActive st) (isMuted_closure st) (stream st) v
    (sessionPromise st) (awaiting st) (sessionCalls st) (startCalls st)
    (stopCalls st) (commandCalls st) (host st) (nodeCount st).

Definition set_sessionPromise (v : Promise) (st : State) : State :=
  Build_State
    (status st) (userTranscript st) (aiTranscript st) (isMuted st)
    (audioContextRef st) (outputAudioContextRef st) (nextStartTimeRef st)
    (sourcesRef st) (isActive st) (isMuted_closure st) (stream st)
    (scriptProcessor st) v (awaiting st) (sessionCalls st) (startCalls st)
    (stopCalls st) (commandCalls st) (host st) (nodeCount st).

Definition set_awaiting (v : list (LiveServerMessage * option AudioBuffer)) (st : State) : State :=
  Build_State
    (status st) (userTranscript st) (aiTranscript st) (isMuted st)
    (audioContextRef st) (outputAudioContextRef st) (nextStartTimeRef st)
    (sourcesRef st) (isActive st) (isMuted_closure st) (stream st)
    (scriptProcessor st) (sessionPromise st) v (sessionCalls st)
    (startCalls st) (stopCalls st) (commandCalls st) (host st) (nodeCount st).

Definition set_sessionCalls (v : list SessionCall) (st : State) : State :=
  Build_State
    (status st) (userTranscript st) (aiTranscript st) (isMuted st)
    (audioContextRef st) (outputAudioContextRef st) (nextStartTimeRef st)
    (sourcesRef st) (isActive st) (isMuted_closure st) (stream st)
    (scriptProcessor st) (sessionPromise st) (awaiting st) v (startCalls st)
    (stopCalls st) (commandCalls st) (host st) (nodeCount st).

Definition set_startCalls (v : list (AudioBufferSourceNode * time)) (st : State) : State :=
  Build_State
    (status st) (userTranscript st) (aiTranscript st) (isMuted st)
    (audioContextRef st) (outputAudioContextRef st) (nextStartTimeRef st)
    (sourcesRef st) (isActive st) (isMuted_closure st) (stream st)
    (scriptProcessor st) (sessionPromise st) (awaiting st) (sessionCalls st)
    v (stopCalls st) (commandCalls st) (host st) (nodeCount st).

Definition set_stopCalls (v : list nat) (st : State) : State :=
  Build_State
    (status st) (userTranscript st) (aiTranscript st) (isMuted st)
    (audioContextRef st) (outputAudioContextRef st) (nextStartTimeRef st)
    (sourcesRef st) (isActive st) (isMuted_closure st) (stream st)
    (scriptProcessor st) (sessionPromise st) (awaiting st) (sessionCalls st)
    (startCalls st) v (commandCalls st) (host st) (nodeCount st).

Definition set_commandCalls (v : list (string * JsValue)) (st : State) : State :=
  Build_State
    (status st) (userTranscript st) (aiTranscript st) (isMuted st)
    (audioContextRef st) (outputAudioContextRef st) (nextStartTimeRef st)
    (sourcesRef st) (isActive st) (isMuted_closure st) (stream st)
    (scriptProcessor st) (sessionPromise st) (awaiting st) (sessionCalls st)
    (startCalls st) (stopCalls st) v (host st) (nodeCount st).

Definition set_host (v : Host) (st : State) : State :=
  Build_State
    (status st) (userTranscript st) (aiTranscript st) (isMuted st)
    (audioContextRef st) (outputAudioContextRef st) (nextStartTimeRef st)
    (sourcesRef st) (isActive st) (isMuted_closure st) (stream st)
    (scriptProcessor st) (sessionPromise st) (awaiting st) (sessionCalls st)
    (startCalls st) (stopCalls st) (commandCalls st) v (nodeCount st).

Definition set_nodeCount (v : nat) (st : State) : State :=
  Build_State
    (status st) (userTranscript st) (aiTranscript st) (isMuted st)
    (audioContextRef st) (outputAudioContextRef st) (nextStartTimeRef st)
    (sourcesRef st) (isActive st) (isMuted_closure st) (stream st)
    (scriptProcessor st) (sessionPromise st) (awaiting st) (sessionCalls st)
    (startCalls st) (stopCalls st) (commandCalls st) (host st) v.

(** *** The session promise *)

Definition call (c : SessionCall) (st : State) : State :=
  set_sessionCalls (sessionCalls st ++ [c]) st.

(** Running one [then] callback once the session is there. *)
Definition react (r : Reaction) (st : State) : State :=
  match r with
  | closeIfInactive => if isActive st then st else call close st
  | thenSendRealtimeInput pcmBlob => call (sendRealtimeInput pcmBlob) st
  | thenSendToolResponse r => call (sendToolResponse r) st
  end.

(** [sessionPromise.then(cb)]: queued while the promise is pending, run
    when it is already fulfilled, dropped when it is rejected.  Callbacks of
    one promise run in the order of their registration, so the order of the
    calls on the session is the order of the [then]s. *)
Definition then_ (r : Reaction) (st : State) : State :=
  match sessionPromise st with
  | pending rs => set_sessionPromise (pending (rs ++ [r])) st
  | fulfilled => react r st
  | not_created | rejected => st
  end.

(** The promise is fulfilled: the queued callbacks run, oldest first. *)
Definition resolve (st : State) : State :=
  match sessionPromise st with
  | pending rs =>
      fold_left (fun s r => react r s) rs (set_sessionPromise fulfilled st)
  | _ => st
  end.

Definition reject (st : State) : State :=
  match sessionPromise st with
  | pending _ => set_sessionPromise rejected st
  | _ => st
  end.

(** *** Mount: the first render and the effect up to its first [await]

    Lines 12-32 with the constructors of line 27 to 30 returning: the two
    audio contexts exist and run, [isActive] is [true], the effect has
    captured the [isMuted] of this render, and [getUserMedia] is pending. *)

Definition mount (h : Host) : State :=
  {| status := connecting;
     userTranscript := "";
     aiTranscript := "";
     isMuted := false;
     audioContextRef := Some running;
     outputAudioContextRef := Some running;
     nextStartTimeRef := t0;
     sourcesRef := [];
     isActive := true;
     isMuted_closure := false;
     stream := um_pending;
     scriptProcessor := false;
     sessionPromise := not_created;
     awaiting := [];
     sessionCalls := [];
     startCalls := [];
     stopCalls := [];
     commandCalls := [];
     host := h;
     nodeCount := 0 |}.

(** [getUserMedia] resolves: [ai.live.connect] is called and the deferred
    close is chained on the promise it returns (lines 32-142). *)
Definition startSession_continue (st : State) : State :=
  set_sessionPromise (pending [closeIfInactive]) (set_stream um_live st).

(** [getUserMedia] rejects: the [catch] of lines 143-146. *)
Definition startSession_catch (st : State) : State :=
  set_status error (set_stream um_denied st).

(** *** Callbacks of the transport and of the audio graph *)

(** lines 37-56 *)
Definition onopen (st : State) : State :=
  if negb (isActive st) then st
  else set_scriptProcessor true (set_status listening st).

(** lines 44-52 *)
Definition onaudioprocess (inputData : Float32Array) (st : State) : State :=
  if isMuted_closure st then st
  else then_ (thenSendRealtimeInput (createBlob inputData)) st.

(** [prev + ' ' + text] *)
Definition appendTranscript (prev : string) (t : Transcription) : string :=
  prev ++ " " ++ text t.

(** lines 60-65 *)
Definition onmessage_transcripts (message : LiveServerMessage) (st : State) : State :=
  match serverContent message with
  | None => st
  | Some sc =>
      let st1 :=
        match inputTranscription sc with
        | Some t => set_userTranscript (appendTranscript (userTranscript st) t) st
        | None => st
        end in
      match outputTranscription sc with
      | Some t => set_aiTranscript (appendTranscript (aiTranscript st1) t) st1
      | None => st1
      end
  end.

(** lines 85-90 *)
Definition onmessage_interrupted (st : State) : State :=
  let st1 := set_stopCalls (stopCalls st ++ map node (sourcesRef st)) st in
  let st2 := set_sourcesRef [] st1 in
  let st3 := set_nextStartTimeRef t0 st2 in
  set_status listening st3.

Definition interrupted_of (message : LiveServerMessage) : bool :=
  match serverContent message with
  | Some sc => interrupted sc
  | None => false
  end.

Definition turnComplete_of (message : LiveServerMessage) : bool :=
  match serverContent message with
  | Some sc => turnComplete sc
  | None => false
  end.

Definition functionResponse (fc : FunctionCall) : FunctionResponse :=
  {| fr_id := fc_id fc; fr_name := fc_name fc; fr_result := ok |}.

(** How a block of statements ends. *)
Inductive Completion : Type :=
| Normal (st : State)
| Throw (st : State).

(** lines 93-101, the [for ... of] loop.  An exception of [onCommand]
    leaves the loop; no [try] encloses the call. *)
Fixpoint onmessage_functionCalls (fcs : list FunctionCall) (st : State) : Completion :=
  match fcs with
  | [] => Normal st
  | fc :: rest =>
      let st1 :=
        set_commandCalls (commandCalls st ++ [(fc_name fc, fc_args fc)]) st in
      match onCommand (fc_name fc) (fc_args fc) (host st1) with
      | None => Throw st1
      | Some h =>
          onmessage_functionCalls rest
            (then_ (thenSendToolResponse (functionResponse fc)) (set_host h st1))
      end
  end.

(** lines 104-107 *)
Definition onmessage_turnComplete (st : State) : State :=
  set_aiTranscript "" (set_userTranscript "" st).

(** lines 85-107: what [onmessage] does after the audio part. *)
Definition onmessage_rest (message : LiveServerMessage) (st : State) : State :=
  let st1 := if interrupted_of message then onmessage_interrupted st else st in
  let after_toolCall :=
    match toolCall message with
    | Some tc => onmessage_functionCalls (functionCalls tc) st1
    | None => Normal st1
    end in
  match after_toolCall with
  | Normal st2 => if turnComplete_of message then onmessage_turnComplete st2 else st2
  | Throw st2 => st2
  end.

(** lines 73-82, after the [await]: the node is started at the running
    timestamp, which then moves to the end of the buffer. *)
Definition onmessage_schedule (b : AudioBuffer) (st : State) : State :=
  let source := {| node := nodeCount st; buffer := b |} in
  let st1 := set_nodeCount (S (nodeCount st)) st in
  let st2 := set_startCalls (startCalls st1 ++ [(source, nextStartTimeRef st1)]) st1 in
  let st3 := set_nextStartTimeRef (tadd (nextStartTimeRef st2) (duration b)) st2 in
  set_sourcesRef (sourcesRef st3 ++ [source]) st3.

(** lines 57-72: [onmessage] up to its [await].  [currentTime] is the clock
    of the output context when line 71 reads it.  With audio the invocation
    is suspended on the promise of [decodeAudioData]; an exception of
    [decode] ends it. *)
Definition onmessage (message : LiveServerMessage) (currentTime : time)
    (st : State) : State :=
  if negb (isActive st) then st
  else
    let st1 := onmessage_transcripts message st in
    match audioData_of message, outputAudioContextRef st1 with
    | Some audioData, Some _ =>
        if String.eqb audioData "" then onmessage_rest message st1
        else
          let st2 := set_status speaking st1 in
          let st3 :=
            set_nextStartTimeRef (Math_max (nextStartTimeRef st2) currentTime) st2 in
          match decode audioData with
          | None => st3
          | Some bytes =>
              set_awaiting (awaiting st3 ++ [(message, decodeAudioData bytes)]) st3
          end
    | _, _ => onmessage_rest message st1
    end.

(** The [await] of line 72 settles for a suspended invocation, which runs
    to its end; a rejection ends it. *)
Definition onmessage_resume (suspended : LiveServerMessage * option AudioBuffer)
    (st : State) : State :=
  match snd suspended with
  | None => st
  | Some b => onmessage_rest (fst suspended) (onmessage_schedule b st)
  end.

(** lines 79-82 *)
Definition onended (source : nat) (st : State) : State :=
  let st1 :=
    set_sourcesRef
      (filter (fun s => negb (Nat.eqb (node s) source)) (sourcesRef st)) st in
  match sourcesRef st1 with
  | [] => set_status listening st1
  | _ => st1
  end.

(** line 109 *)
Definition onerror (st : State) : State := set_status error st.

(** line 110 *)
Definition onclose (st : State) : State := set_host (onClose (host st)) st.

(** line 205 *)
Definition toggleMute (st : State) : State := set_isMuted (negb (isMuted st)) st.

Definition AudioContext_close (c : option ContextState) : option ContextState :=
  match c with
  | Some _ => Some closed
  | None => None
  end.

(** lines 151-156, the cleanup of the effect. *)
Definition cleanup (st : State) : State :=
  let st1 := set_isActive false st in
  let st2 := set_audioContextRef (AudioContext_close (audioContextRef st1)) st1 in
  set_outputAudioContextRef (AudioContext_close (outputAudioContextRef st2)) st2.

(** *** Events

    What the browser, the transport and the user can deliver to the
    mounted component, one at a time (the callbacks run on one thread). *)
Inductive Event : Type :=
| GetUserMediaResolved
| GetUserMediaRejected
| SessionResolved                       (* [sessionPromise] is fulfilled *)
| SessionRejected
| Onopen
| Onmessage (message : LiveServerMessage) (currentTime : time)
| DecodeSettled (k : nat)               (* the [k]-th suspended [onmessage] resumes *)
| Onerror
| Onclose
| Onaudioprocess (inputData : Float32Array)
| Onended (source : nat)
| ClickMute
| Unmount.

(** The callbacks of the transport exist once [connect] has been called. *)
Definition connectCalled (st : State) : bool :=
  match sessionPromise st with
  | not_created => false
  | _ => true
  end.

Definition capturing (st : State) : bool :=
  scriptProcessor st &&
  match audioContextRef st with
  | Some running => true
  | _ => false
  end.

Fixpoint remove_nth {A : Type} (k : nat) (l : list A) : list A :=
  match k, l with
  | _, [] => []
  | O, _ :: r => r
  | S k', x :: r => x :: remove_nth k' r
  end.

Definition step (st : State) (ev : Event) : State :=
  match ev with
  | GetUserMediaResolved =>
      match stream st with
      | um_pending => startSession_continue st
      | _ => st
      end
  | GetUserMediaRejected =>
      match stream st with
      | um_pending => startSession_catch st
      | _ => st
      end
  | SessionResolved => resolve st
  | SessionRejected => reject st
  | Onopen => if connectCalled st then onopen st else st
  | Onmessage message currentTime =>
      if connectCalled st then onmessage message currentTime st else st
  | DecodeSettled k =>
      match nth_error (awaiting st) k with
      | Some suspended =>
          onmessage_resume suspended (set_awaiting (remove_nth k (awaiting st)) st)
      | None => st
      end
  | Onerror => if connectCalled st then onerror st else st
  | Onclose => if connectCalled st then onclose st else st
  | Onaudioprocess inputData =>
      if capturing st then onaudioprocess inputData st else st
  | Onended source =>
      if Nat.ltb source (nodeCount st) then onended source st else st
  | ClickMute => if isActive st then toggleMute st else st
  | Unmount => cleanup st
  end.

Definition run (st : State) (evs : list Event) : State := fold_left step evs st.

(** The chunk of a message that line 68 lets through: [audioData] is
    truthy and there is an output context. *)
Definition chunkOf (message : LiveServerMessage) (st : State) : option string :=
  match audioData_of message, outputAudioContextRef st with
  | Some audioData, Some _ =>
      if String.eqb audioData "" then None else Some audioData
  | _, _ => None
  end.

(** An invocation of [onmessage] for [message] that gets to line 85.  It
    does so at once when line 68 lets no chunk through, and after the
    [await] of line 72 when the chunk has decoded; [isActive] is read at
    line 58 only, so the component need not be active any more then.
    [st] is the state in which the event is delivered, [at85] the state at
    line 85 and [st'] the state in which the invocation ends. *)
Inductive reachesLine85 (message : LiveServerMessage)
    : State -> State -> State -> Prop :=
| at_once (st : State) (currentTime : time) :
    isActive st = true ->
    connectCalled st = true ->
    chunkOf message st = None ->
    reachesLine85 message st
      (onmessage_transcripts message st)
      (step st (Onmessage message currentTime))
| after_await (st : State) (k : nat) (b : AudioBuffer) :
    nth_error (awaiting st) k = Some (message, Some b) ->
    reachesLine85 message st
      (onmessage_schedule b (set_awaiting (remove_nth k (awaiting st)) st))
      (step st (DecodeSettled k)).

(** *** Observations on the logs *)

(** The acknowledgments among the calls on the session. *)
Fixpoint toolResponses (cs : list SessionCall) : list FunctionResponse :=
  match cs with
  | [] => []
  | sendToolResponse r :: rest => r :: toolResponses rest
  | _ :: rest => toolResponses rest
  end.

(** The audio frames handed to [session.sendRealtimeInput]. *)
Fixpoint realtimeInputs (cs : list SessionCall) : list Blob :=
  match cs with
  | [] => []
  | sendRealtimeInput media :: rest => media :: realtimeInputs rest
  | _ :: rest => realtimeInputs rest
  end.

(** The frames that go out on the transport: those handed to the session
    before [session.close()]. *)
Fixpoint uplink (cs : list SessionCall) : list Blob :=
  match cs with
  | [] => []
  | close :: _ => []
  | sendRealtimeInput media :: rest => media :: uplink rest
  | sendToolResponse _ :: rest => uplink rest
  end.

(** The host after [onCommand] has returned on every call of a batch, in
    order; [None] when it throws on one of them. *)
Fixpoint runCommands (fcs : list FunctionCall) (h : Host) : option Host :=
  match fcs with
  | [] => Some h
  | fc :: rest =>
      match onCommand (fc_name fc) (fc_args fc) h with
      | None => None
      | Some h1 => runCommands rest h1
      end
  end.

(** What [onCommand] is called with for a call. *)
Definition commandOf (fc : FunctionCall) : string * JsValue :=
  (fc_name fc, fc_args fc).

(** The fields a [then] on the session promise and a call of [onCommand]
    cannot change. *)
Definition sameOverlay (st st' : State) : Prop :=
  status st' = status st /\
  userTranscript st' = userTranscript st /\
  aiTranscript st' = aiTranscript st /\
  isMuted st' = isMuted st /\
  audioContextRef st' = audioContextRef st /\
  outputAudioContextRef st' = outputAudioContextRef st /\
  nextStartTimeRef st' = nextStartTimeRef st /\
  sourcesRef st' = sourcesRef st /\
  isActive st' = isActive st /\
  isMuted_closure st' = isMuted_closure st /\
  stream st' = stream st /\
  scriptProcessor st' = scriptProcessor st /\
  awaiting st' = awaiting st /\
  startCalls st' = startCalls st /\
  stopCalls st' = stopCalls st /\
  nodeCount st' = nodeCount st.

(** The call on the session that acknowledges a function call. *)
Definition acknowledge (fc : FunctionCall) : SessionCall :=
  sendToolResponse (functionResponse fc).

(** Two states with the same audio contexts, the same effect closure and
    the same session. *)
Definition sameTransport (st st' : State) : Prop :=
  audioContextRef st' = audioContextRef st /\
  outputAudioContextRef st' = outputAudioContextRef st /\
  isMuted_closure st' = isMuted_closure st /\
  isActive st' = isActive st /\
  stream st' = stream st /\
  scriptProcessor st' = scriptProcessor st /\
  sessionPromise st' = sessionPromise st /\
  sessionCalls st' = sessionCalls st.

(** The calls that queued callbacks make when they run, given [isActive]. *)
Definition callsOf (active : bool) (rs : list Reaction) : list SessionCall :=
  flat_map
    (fun r =>
       match r with
       | closeIfInactive => if active then [] else [close]
       | thenSendRealtimeInput pcmBlob => [sendRealtimeInput pcmBlob]
       | thenSendToolResponse x => [sendToolResponse x]
       end)
    rs.

(** What holds of the component in every state it reaches: both audio
    contexts exist, the effect still sees the [isMuted] of the first render,
    [connect] is not called before the microphone is granted, and until the
    session promise is fulfilled nothing is called on the session, the
    deferred close being the first callback in line. *)
Definition wellFormed (st : State) : Prop :=
  audioContextRef st <> None /\
  outputAudioContextRef st <> None /\
  isMuted_closure st = false /\
  (stream st = um_pending -> sessionPromise st = not_created) /\
  match sessionPromise st with
  | fulfilled => True
  | pending rs => sessionCalls st = [] /\ hd_error rs = Some closeIfInactive
  | not_created | rejected => sessionCalls st = []
  end.

(** What holds once the cleanup has run before the session promise was
    fulfilled: the component stays inactive, and the first call on the
    session, if there is one, is [close]. *)
Definition deferred (st : State) : Prop :=
  isActive st = false /\
  (stream st = um_pending -> sessionPromise st = not_created) /\
  match sessionPromise st with
  | fulfilled => hd_error (sessionCalls st) = Some close
  | pending rs => sessionCalls st = [] /\ hd_error rs = Some closeIfInactive
  | not_created | rejected => sessionCalls st = []
  end.

(** Every response sent, or queued to be sent, carries the payload [ok]. *)
Definition okPayload (st : State) : Prop :=
  (forall r, In r (toolResponses (sessionCalls st)) -> fr_result r = ok) /\
  match sessionPromise st with
  | pending rs => forall r, In (thenSendToolResponse r) rs -> fr_result r = ok
  | _ => True
  end.

(** No capture has been started and no frame has been handed to the
    session or queued for it. *)
Definition frameless (st : State) : Prop :=
  scriptProcessor st = false /\
  realtimeInputs (sessionCalls st) = [] /\
  match sessionPromise st with
  | pending rs => forall b, ~ In (thenSendRealtimeInput b) rs
  | _ => True
  end.

(** Start and end of a scheduled node. *)
Definition startOf (c : AudioBufferSourceNode * time) : time := snd c.

Definition endOf (c : AudioBufferSourceNode * time) : time :=
  tadd (snd c) (duration (buffer (fst c))).

(** An event that runs the interruption of lines 85-90 when it is
    delivered. *)
Definition interrupting (ev : Event) : bool :=
  match ev with
  | Onmessage message _ => interrupted_of message
  | _ => false
  end.

(** A suspended invocation whose message carries no interruption. *)
Definition calm (suspended : LiveServerMessage * option AudioBuffer) : Prop :=
  interrupted_of (fst suspended) = false.

(** Start calls made one after the other: the first not before [lo], each
    not before the end of the one before it, the last ending by [hi]. *)
Fixpoint chain (lo : time) (l : list (AudioBufferSourceNode * time)) (hi : time)
    : Prop :=
  match l with
  | [] => tleb lo hi = true
  | c :: rest => tleb lo (startOf c) = true /\ chain (endOf c) rest hi
  end.

(** An event delivered while a buffer that ends at [e] is still playing and
    nothing else is scheduled: it does not interrupt, it resumes no
    suspended [onmessage], and a message sees the device clock at [e] at
    the latest. *)
Definition whilePlaying (e : time) (ev : Event) : bool :=
  match ev with
  | Onmessage message currentTime =>
      negb (interrupted_of message) && tleb currentTime e
  | DecodeSettled _ => false
  | _ => true
  end.

(** *** More observations, for the properties beyond the claims *)

(** The frames among the callbacks queued on the pending promise. *)
Fixpoint queuedFrames (rs : list Reaction) : list Blob :=
  match rs with
  | [] => []
  | thenSendRealtimeInput pcmBlob :: rest => pcmBlob :: queuedFrames rest
  | _ :: rest => queuedFrames rest
  end.

(** The frames handed to the session so far, followed by those waiting for
    the promise. *)
Definition framesOut (st : State) : list Blob :=
  realtimeInputs (sessionCalls st) ++
  match sessionPromise st with
  | pending rs => queuedFrames rs
  | _ => []
  end.

(** The input buffers of the [onaudioprocess] events that the script
    processor really delivers along [evs]: those that arrive while the
    capture is connected and its context runs. *)
Fixpoint framesTaken (st : State) (evs : list Event) : list Float32Array :=
  match evs with
  | [] => []
  | ev :: rest =>
      match ev with
      | Onaudioprocess inputData => if capturing st then [inputData] else []
      | _ => []
      end ++ framesTaken (step st ev) rest
  end.

(** What the capture path relies on: the effect sees [isMuted] as [false],
    [connect] is called once, the capture is connected only after that, and
    the promise has not rejected. *)
Definition sendable (st : State) : Prop :=
  isMuted_closure st = false /\
  (stream st = um_pending -> sessionPromise st = not_created) /\
  (scriptProcessor st = true -> sessionPromise st <> not_created) /\
  sessionPromise st <> rejected.

(** A transcript fragment as an event: [(true, f, t)] is a fragment of the
    user's speech, [(false, f, t)] one of the model's, delivered at [t]. *)
Definition fragmentEvent (x : bool * string * time) : Event :=
  match x with
  | (true, f, t) => Onmessage (inputFragment f) t
  | (false, f, t) => Onmessage (outputFragment f) t
  end.

(** The fragments of one speaker, in the order of the list. *)
Definition fragmentsOf (user : bool) (xs : list (bool * string * time)) : list string :=
  map (fun x => snd (fst x))
      (filter (fun x => Bool.eqb (fst (fst x)) user) xs).

(** The bookkeeping of the nodes: node identities are handed out in order,
    the nodes of [sourcesRef] are distinct and started, no node is started
    twice, and only started nodes are stopped. *)
Definition nodesSound (st : State) : Prop :=
  NoDup (map node (sourcesRef st)) /\
  (forall s, In s (sourcesRef st) ->
             In s (map fst (startCalls st))) /\
  NoDup (map (fun c => node (fst c)) (startCalls st)) /\
  (forall c, In c (startCalls st) -> node (fst c) < nodeCount st) /\
  (forall n, In n (stopCalls st) -> n < nodeCount st).

(** The component after [getUserMedia] has rejected. *)
Definition denied (st : State) : Prop :=
  stream st = um_denied /\
  sessionPromise st = not_created /\
  status st = error /\
  scriptProcessor st = false /\
  nodeCount st = 0 /\
  awaiting st = [] /\
  sessionCalls st = [] /\
  commandCalls st = [].

(** [prev + ' ' + text] over the fragments of a list, in order. *)
Definition appendFragments (prev : string) (fragments : list string) : string :=
  fold_left (fun acc f => appendTranscript acc {| text := f |}) fragments prev.

End Overlay.

Arguments acknowledge {Blob}.
Arguments wellFormed {TB Blob Host} st.
Arguments deferred {TB Blob Host} st.
Arguments frameless {TB Blob Host} st.
Arguments okPayload {TB Blob Host} st.
Arguments fragmentEvent {TB Float32Array} x.
Arguments sendable {TB Blob Host} st.
Arguments nodesSound {TB Blob Host} st.
Arguments denied {TB Blob Host} st.
Arguments close {Blob}.
Arguments sendToolResponse {Blob}.
Arguments thenSendToolResponse {Blob}.
Arguments closeIfInactive {Blob}.
Arguments not_created {Blob}.
Arguments fulfilled {Blob}.
Arguments rejected {Blob}.
Arguments GetUserMediaResolved {TB Float32Array}.
Arguments GetUserMediaRejected {TB Float32Array}.
Arguments SessionResolved {TB Float32Array}.
Arguments SessionRejected {TB Float32Array}.
Arguments Onopen {TB Float32Array}.
Arguments Onmessage {TB Float32Array}.
Arguments DecodeSettled {TB Float32Array}.
Arguments Onerror {TB Float32Array}.
Arguments Onclose {TB Float32Array}.
Arguments Onended {TB Float32Array}.
Arguments ClickMute {TB Float32Array}.
Arguments Unmount {TB Float32Array}.

(* ================================================================== *)
(** ** The host: [App.tsx] *)

Inductive Role : Type := USER | MODEL | SYSTEM.

Record MessagePart := {
  mp_text : option string;
  mp_inlineData : option (string * string)
}.

Record Message := {
  msg_id : string;
  msg_role : Role;
  msg_parts : list MessagePart;
  msg_timestamp : Z
}.

Record ChatSession := {
  cs_id : string;
  cs_title : string;
  cs_messages : list Message;
  cs_updatedAt : Z
}.

(** The state of [App] that the voice overlay can reach, and the value
    [Date.now()] returns. *)
Record App := {
  sessions : list ChatSession;
  currentSessionId : option string;
  useSearch : bool;
  isVoiceMode : bool;
  Date_now : Z
}.

(** App.tsx lines 56-65.  [args.enabled] throws on [undefined] and [null];
    a command that is neither of the two is ignored. *)
Definition handleVoiceCommand (command : string) (args : JsValue) (app : App)
    : option App :=
  if String.eqb command "createNewChat" then
    let id := Number_toString (Date_now app) in
    let newSession :=
      {| cs_id := id; cs_title := "New Chat"; cs_messages := [];
         cs_updatedAt := Date_now app |} in
    Some {| sessions := newSession :: sessions app;
            currentSessionId := Some id;
            useSearch := useSearch app;
            isVoiceMode := isVoiceMode app;
            Date_now := Date_now app |}
  else if String.eqb command "toggleSearch" then
    match js_get args "enabled" with
    | None => None
    | Some enabled =>
        Some {| sessions := sessions app;
                currentSessionId := currentSessionId app;
                useSearch := js_truthy enabled;
                isVoiceMode := isVoiceMode app;
                Date_now := Date_now app |}
    end
  else Some app.

(** App.tsx line 168: [onClose={() => setIsVoiceMode(false)}] *)
Definition closeVoiceMode (app : App) : App :=
  {| sessions := sessions app;
     currentSessionId := currentSessionId app;
     useSearch := useSearch app;
     isVoiceMode := false;
     Date_now := Date_now app |}.

(** The names declared to the model in [functionDeclarations]
    (LiveVoiceOverlay.tsx lines 119-134). *)
Definition functionDeclarations : list string := ["createNewChat"; "toggleSearch"].

(** *** The overlay as [App] mounts it

    Time in integer ticks; a capture frame, its blob and the bytes of an
    inbound chunk are written as strings, and a chunk decodes to a buffer
    as long as its text.  These choices only serve the worked examples:
    every general statement below is over arbitrary [createBlob], [decode]
    and [decodeAudioData]. *)
Module Example.

Definition createBlob (inputData : string) : string := inputData.

Definition decode (audioData : string) : option string := Some audioData.

Definition decodeAudioData (bytes : string) : option (@AudioBuffer ZTime) :=
  Some {| duration := Z.of_nat (String.length bytes) |}.

Definition St : Type := @State ZTime string App.

Definition Ev : Type := @Event ZTime string.

Definition step : St -> Ev -> St :=
  step createBlob decode decodeAudioData closeVoiceMode handleVoiceCommand.

Definition run : St -> list Ev -> St :=
  run createBlob decode decodeAudioData closeVoiceMode handleVoiceCommand.

Definition app0 : App :=
  {| sessions := []; currentSessionId := None; useSearch := false;
     isVoiceMode := true; Date_now := 1700000000000 |}.

(** The overlay once the microphone is granted, the socket is open and the
    session promise is fulfilled. *)
Definition established : list Ev :=
  [GetUserMediaResolved; Onopen; SessionResolved].

(** A batch of three calls; [toggleSearch] arrives without arguments. *)
Definition call_a : FunctionCall :=
  {| fc_id := "a"; fc_name := "createNewChat"; fc_args := JsObject [] |}.

Definition call_b : FunctionCall :=
  {| fc_id := "b"; fc_name := "toggleSearch"; fc_args := JsUndefined |}.

Definition call_c : FunctionCall :=
  {| fc_id := "c"; fc_name := "createNewChat"; fc_args := JsObject [] |}.

(** A call whose name is not among [functionDeclarations], and a
    [toggleSearch] with its argument. *)
Definition call_undeclared : FunctionCall :=
  {| fc_id := "u"; fc_name := "deleteAllChats";
     fc_args := JsObject [("confirm", JsBoolean true)] |}.

Definition call_search : FunctionCall :=
  {| fc_id := "s"; fc_name := "toggleSearch";
     fc_args := JsObject [("enabled", JsBoolean true)] |}.

(** The overlay with the session established. *)
Definition ready : St := run (mount string app0) established.

(** One chunk decoded and started: a node of duration 4 plays from 5. *)
Definition playing : St :=
  run ready [Onmessage (audioChunk "abcd") 5%Z; DecodeSettled 0].

(** Three chunks, the second sent while the first plays, the third after
    the queue has drained. *)
Definition threeChunks : list Ev :=
  [Onmessage (audioChunk "abcd") 5%Z; DecodeSettled 0;
   Onmessage (audioChunk "ab") 7%Z; DecodeSettled 0;
   Onmessage (audioChunk "xyz") 20%Z; DecodeSettled 0].

End Example.

(** The transition function of the overlay and its iteration, under names
    that [Example] does not shadow. *)
Abbreviation overlayStep := step.
Abbreviation overlayRun := run.

(* ================================================================== *)
(** ** JavaScript strings

    A string is its sequence of UTF-16 code units, one [ascii] per code
    unit; the strings written here have their code units below 256.
    [substring(0, n)] is [String.substring 0 n] and [startsWith] is
    [String.prefix]. *)

(** The white space and line terminators of [trim] below 256: tab, line
    feed, vertical tab, form feed, carriage return, space and no-break
    space. *)
Definition isWhiteSpace (c : ascii) : bool :=
  let n := nat_of_ascii c in
  (Nat.leb 9 n && Nat.leb n 13) || Nat.eqb n 32 || Nat.eqb n 160.

Fixpoint trimStart (s : string) : string :=
  match s with
  | EmptyString => EmptyString
  | String c rest => if isWhiteSpace c then trimStart rest else s
  end.

Fixpoint trimEnd (s : string) : string :=
  match s with
  | EmptyString => EmptyString
  | String c rest =>
      match trimEnd rest with
      | EmptyString => if isWhiteSpace c then EmptyString else String c EmptyString
      | kept => String c kept
      end
  end.

(** [s.trim()] *)
Definition trim (s : string) : string := trimEnd (trimStart s).

(** [toLowerCase] on one code unit below 256: the capital letters of ASCII
    and of Latin-1 move up by 32. *)
Definition lowerUnit (c : ascii) : ascii :=
  let n := nat_of_ascii c in
  if (Nat.leb 65 n && Nat.leb n 90) || (Nat.leb 192 n && Nat.leb n 214)
     || (Nat.leb 216 n && Nat.leb n 222)
  then ascii_of_nat (n + 32)
  else c.

(** [s.toLowerCase()] *)
Fixpoint toLowerCase (s : string) : string :=
  match s with
  | EmptyString => EmptyString
  | String c rest => String (lowerUnit c) (toLowerCase rest)
  end.

(** [s.startsWith(prefix)] *)
Definition startsWith (s prefix : string) : bool := String.prefix prefix s.

Fixpoint dropUnits (n : nat) (s : string) : string :=
  match n, s with
  | O, _ => s
  | S n', String _ rest => dropUnits n' rest
  | S _, EmptyString => EmptyString
  end.

(** [s.includes(t)] *)
Fixpoint includes (s t : string) : bool :=
  String.prefix t s ||
  match s with
  | EmptyString => false
  | String _ rest => includes rest t
  end.

(** [s.replace(pattern, replacement)] with a string pattern and a
    replacement without [$]: the first occurrence is replaced. *)
Fixpoint replace (s pattern replacement : string) : string :=
  if String.prefix pattern s
  then replacement ++ dropUnits (String.length pattern) s
  else
    match s with
    | EmptyString => EmptyString
    | String c rest => String c (replace rest pattern replacement)
    end.

(** [s.split(sep)] for a separator of one code unit. *)
Fixpoint split (sep : ascii) (s : string) : list string :=
  match s with
  | EmptyString => [EmptyString]
  | String c rest =>
      if Ascii.eqb c sep then EmptyString :: split sep rest
      else
        match split sep rest with
        | piece :: pieces => String c piece :: pieces
        | [] => [String c EmptyString]
        end
  end.

(* ================================================================== *)
(** ** The rest of [App.tsx] *)

Definition Role_eqb (a b : Role) : bool :=
  match a, b with
  | USER, USER | MODEL, MODEL | SYSTEM, SYSTEM => true
  | _, _ => false
  end.

(** App.tsx lines 45-48: the title of a session that receives a message.
    [message.parts[0]?.text?.substring(0, 30) || 'New Chat'] *)
Definition titleAfter (session : ChatSession) (message : Message) : string :=
  if (Nat.eqb (List.length (cs_messages session)) 0
      || String.eqb (cs_title session) "New Chat")
     && Role_eqb (msg_role message) USER
  then
    match msg_parts message with
    | part :: _ =>
        match mp_text part with
        | Some t =>
            if String.eqb (String.substring 0 30 t) ""
            then "New Chat"
            else String.substring 0 30 t
        | None => "New Chat"
        end
    | [] => "New Chat"
    end
  else cs_title session.

(** App.tsx lines 42-53, the function given to [setSessions]. *)
Definition addMessageToSession (sessionId : string) (message : Message)
    (now : Z) (prev : list ChatSession) : list ChatSession :=
  map (fun session =>
         if String.eqb (cs_id session) sessionId
         then {| cs_id := cs_id session;
                 cs_title := titleAfter session message;
                 cs_messages := cs_messages session ++ [message];
                 cs_updatedAt := now |}
         else session)
      prev.

Definition setSessions (f : list ChatSession -> list ChatSession) (app : App) : App :=
  {| sessions := f (sessions app);
     currentSessionId := currentSessionId app;
     useSearch := useSearch app;
     isVoiceMode := isVoiceMode app;
     Date_now := Date_now app |}.

Definition setCurrentSessionId (id : option string) (app : App) : App :=
  {| sessions := sessions app;
     currentSessionId := id;
     useSearch := useSearch app;
     isVoiceMode := isVoiceMode app;
     Date_now := Date_now app |}.

(** App.tsx line 180: [onDelete] of the sidebar. *)
Definition onDelete (id : string) (app : App) : App :=
  setSessions (filter (fun s => negb (String.eqb (cs_id s) id))) app.

(** App.tsx line 173: [onSelect] of the sidebar. *)
Definition onSelect (id : string) (app : App) : App :=
  setCurrentSessionId (Some id) app.

(** [sessions.find(s => s.id === id)?.messages || []] *)
Definition messagesOf (id : option string) (ss : list ChatSession) : list Message :=
  match id with
  | None => []
  | Some i =>
      match find (fun s => String.eqb (cs_id s) i) ss with
      | Some s => cs_messages s
      | None => []
      end
  end.

(** App.tsx line 192: the messages given to [ChatContainer]. *)
Definition messagesShown (app : App) : list Message :=
  messagesOf (currentSessionId app) (sessions app).

(** App.tsx lines 76-81: the message of the user. *)
Definition userMessage (text : string) (fileData : option (string * string))
    (now : Z) : Message :=
  {| msg_id := Number_toString now;
     msg_role := USER;
     msg_parts :=
       match fileData with
       | Some f =>
           [ {| mp_text := Some text; mp_inlineData := None |};
             {| mp_text := None; mp_inlineData := Some f |} ]
       | None => [ {| mp_text := Some text; mp_inlineData := None |} ]
       end;
     msg_timestamp := now |}.

(** App.tsx lines 68-82, [handleSendMessage] up to [setIsLoading(true)]:
    the session the message goes to (the current one, or a new one when
    [currentSessionId] is [null] or empty) and the state once the queued
    updates have run.  As in [handleVoiceCommand], every [Date.now()] of
    the call returns [Date_now app]. *)
Definition handleSendMessage_start (text : string)
    (fileData : option (string * string)) (app : App) : string * App :=
  let now := Date_now app in
  let current :=
    match currentSessionId app with
    | Some id => if String.eqb id "" then None else Some id
    | None => None
    end in
  match current with
  | Some sessionId =>
      (sessionId,
       setSessions (addMessageToSession sessionId (userMessage text fileData now) now) app)
  | None =>
      let id := Number_toString now in
      let newSession :=
        {| cs_id := id; cs_title := "New Chat"; cs_messages := [];
           cs_updatedAt := now |} in
      (id,
       setSessions (addMessageToSession id (userMessage text fileData now) now)
         (setCurrentSessionId (Some id)
            (setSessions (fun prev => newSession :: prev) app)))
  end.

(** App.tsx lines 86-87 and 95, 107: the command a text starts with, in
    any letter case, and the prompt given to the generator. *)
Definition isImageRequest (text : string) : bool :=
  startsWith (toLowerCase text) "/image".

Definition isVideoRequest (text : string) : bool :=
  startsWith (toLowerCase text) "/video".

Definition videoPrompt (text : string) : string := trim (replace text "/video" "").

Definition imagePrompt (text : string) : string := trim (replace text "/image" "").

(** App.tsx lines 96-101: the message that carries a generated video, one
    part with a text and the video. *)
Definition videoMessage (videoUrl : string) (now : Z) : Message :=
  {| msg_id := Number_toString now;
     msg_role := MODEL;
     msg_parts :=
       [ {| mp_text := Some "Generation complete.";
            mp_inlineData := Some ("video/mp4", videoUrl) |} ];
     msg_timestamp := now |}.

(* ================================================================== *)
(** ** [services/geminiService.ts]: the requests it builds *)

(** [GenerationConfig] of [InputArea]; the sizes and ratios are the strings
    of the buttons. *)
Record GenerationConfig := {
  thinking : bool;
  imageSize : string;
  aspectRatio : string
}.

Module geminiService.

Section Requests.
(** The numbers of a location are passed on, never computed with. *)
Variable number : Type.

(** [GenerationOptions].  Only the truthiness of the three flags is read,
    so an absent flag is [false]. *)
Record GenerationOptions := {
  opt_useSearch : bool;
  opt_useMaps : bool;
  opt_useThinking : bool;
  opt_location : option (number * number);
  opt_imageSize : option string;
  opt_aspectRatio : option string
}.

Inductive Tool := googleSearch | googleMaps | google_search.

(** A part of a request: [{ text }] or [{ inlineData }]. *)
Inductive RequestPart :=
| textPart (t : string)
| inlineDataPart (d : string * string).

Record RequestContent := {
  rc_role : string;
  rc_parts : list RequestPart
}.

Record GenerateContentParameters := {
  gc_model : string;
  gc_contents : list RequestContent;
  gc_tools : option (list Tool);
  gc_toolConfig : option (number * number);
  gc_thinkingBudget : Z
}.

(** lines 85-89 *)
Definition requestPart (p : MessagePart) : RequestPart :=
  match mp_text p with
  | Some (String c rest) => textPart (String c rest)
  | _ =>
      match mp_inlineData p with
      | Some d => inlineDataPart d
      | None => textPart ""
      end
  end.

(** lines 83-90 *)
Definition contentsOf (history : list Message) : list RequestContent :=
  map (fun msg =>
         {| rc_role := match msg_role msg with USER => "user" | _ => "model" end;
            rc_parts := map requestPart (msg_parts msg) |})
      history.

(** lines 70-107 of [generateGeminiResponse]: the argument of
    [ai.models.generateContent]. *)
Definition generateGeminiResponse (prompt : string) (history : list Message)
    (options : GenerationOptions) : GenerateContentParameters :=
  let model :=
    if opt_useThinking options then "gemini-3-pro-preview"
    else if opt_useMaps options then "gemini-2.5-flash"
    else if opt_useSearch options then "gemini-3-pro-preview"
    else "gemini-3-flash-preview" in
  let tools :=
    (if opt_useSearch options then [googleSearch] else [])
    ++ (if opt_useMaps options then [googleMaps] else []) in
  {| gc_model := model;
     gc_contents := contentsOf history;
     gc_tools := match tools with [] => None | _ => Some tools end;
     gc_toolConfig :=
       if opt_useMaps options then opt_location options else None;
     gc_thinkingBudget := if opt_useThinking options then 32768 else 0 |}.

(** [x || d] on an optional string: absent and empty give [d]. *)
Definition orElse (x : option string) (d : string) : string :=
  match x with
  | Some (String c rest) => String c rest
  | _ => d
  end.

(** line 128 *)
Definition isPro (options : GenerationOptions) : bool :=
  match opt_imageSize options with
  | Some (String c rest) => negb (String.eqb (String c rest) "1K")
  | _ => false
  end
  || opt_useSearch options.

Record GenerateImageParameters := {
  gi_model : string;
  gi_parts : list RequestPart;
  gi_aspectRatio : string;
  gi_imageSize : option string;
  gi_tools : option (list Tool)
}.

(** lines 128-152 of [generateImage]: the argument of
    [ai.models.generateContent]. *)
Definition generateImage (prompt : string) (options : GenerationOptions)
    (inputImage : option (string * string)) : GenerateImageParameters :=
  {| gi_model :=
       if isPro options then "gemini-3-pro-image-preview"
       else "gemini-2.5-flash-image";
     gi_parts :=
       textPart prompt ::
       match inputImage with Some d => [inlineDataPart d] | None => [] end;
     gi_aspectRatio := orElse (opt_aspectRatio options) "1:1";
     gi_imageSize :=
       if isPro options then Some (orElse (opt_imageSize options) "1K")
       else None;
     gi_tools :=
       if opt_useSearch options && isPro options then Some [google_search]
       else None |}.

(** A part of a response: its [inlineData], when it has one, and there
    the [data], when it has some. *)
Record ResponsePart := { rp_inlineData : option (option string) }.

(** [`${x}`] of an optional string *)
Definition interpolate (x : option string) : string :=
  match x with
  | Some s => s
  | None => "undefined"
  end.

(** lines 156-161: the loop over the parts of the first candidate. *)
Fixpoint firstImage (parts : list ResponsePart) : option string :=
  match parts with
  | [] => None
  | part :: rest =>
      match rp_inlineData part with
      | Some d => Some ("data:image/png;base64," ++ interpolate d)%string
      | None => firstImage rest
      end
  end.

(** lines 154-164 of [generateImage]: what it returns for the candidates
    of a response ([None] when the response has no [candidates]), or the
    message of the error it throws.  A candidate is written as its
    [content.parts], which line 156 reads without [?.]. *)
Definition generateImage_result (candidates : option (list (list ResponsePart)))
    : string + string :=
  match candidates with
  | Some (first :: _) =>
      match firstImage first with
      | Some url => inl url
      | None => inr "EMPTY_RESPONSE"
      end
  | _ => inr "EMPTY_RESPONSE"
  end.

Record GenerateVideosParameters := {
  gv_model : string;
  gv_prompt : string;
  gv_image : option (string * string);   (* imageBytes, mimeType *)
  gv_numberOfVideos : Z;
  gv_resolution : string;
  gv_aspectRatio : string
}.

(** lines 174-185 of [generateVideo]: the argument of
    [ai.models.generateVideos]. *)
Definition generateVideo (prompt : string) (options : GenerationOptions)
    (startingImage : option (string * string)) : GenerateVideosParameters :=
  {| gv_model := "veo-3.1-fast-generate-preview";
     gv_prompt := orElse (Some prompt) "Cinematic movement";
     gv_image :=
       match startingImage with
       | Some (mimeType, data) => Some (data, mimeType)
       | None => None
       end;
     gv_numberOfVideos := 1;
     gv_resolution := "720p";
     gv_aspectRatio :=
       match opt_aspectRatio options with
       | Some r => if String.eqb r "9:16" then "9:16" else "16:9"
       | None => "16:9"
       end |}.

End Requests.

End geminiService.

(** ** [App.tsx]: the calls of the service in [handleSendMessage] *)

Section ServiceCalls.
Variable number : Type.

(** The state [useMaps] of [App], which the claims did not need. *)
Variable useMaps : bool.

(** lines 124-126: the request for a text.  [sessions] is the state of
    the render that made [handleSendMessage]: the updates queued by
    lines 71 and 82 are not in it.  [location] is the initial state of
    line 20, [undefined]: [setLocation] is never called. *)
Definition textRequest (text : string) (config : option GenerationConfig)
    (sessionId : string) (app : App)
    : geminiService.GenerateContentParameters number :=
  geminiService.generateGeminiResponse text
    (messagesOf (Some sessionId) (sessions app))
    {| geminiService.opt_useSearch := useSearch app;
       geminiService.opt_useMaps := useMaps;
       geminiService.opt_useThinking :=
         match config with Some c => thinking c | None => false end;
       geminiService.opt_location := None;
       geminiService.opt_imageSize := None;
       geminiService.opt_aspectRatio := None |}.

(** line 104: whether a key is asked for before an image *)
Definition imageIsPro (config : option GenerationConfig) (app : App) : bool :=
  match config with
  | Some c =>
      match imageSize c with
      | String ch rest => negb (String.eqb (String ch rest) "1K")
      | EmptyString => false
      end
  | None => false
  end
  || useSearch app.

(** lines 107-111: the request for an image *)
Definition imageRequest (text : string) (fileData : option (string * string))
    (config : option GenerationConfig) (app : App)
    : geminiService.GenerateImageParameters :=
  geminiService.generateImage (imagePrompt text)
    {| geminiService.opt_useSearch := useSearch app;
       geminiService.opt_useMaps := false;
       geminiService.opt_useThinking := false;
       geminiService.opt_location := @None (number * number);
       geminiService.opt_imageSize :=
         match config with Some c => Some (imageSize c) | None => None end;
       geminiService.opt_aspectRatio :=
         match config with Some c => Some (aspectRatio c) | None => None end |}
    fileData.

(** line 95: the request for a video *)
Definition videoRequest (text : string) (fileData : option (string * string))
    (config : option GenerationConfig) : geminiService.GenerateVideosParameters :=
  geminiService.generateVideo (videoPrompt text)
    {| geminiService.opt_useSearch := false;
       geminiService.opt_useMaps := false;
       geminiService.opt_useThinking := false;
       geminiService.opt_location := @None (number * number);
       geminiService.opt_imageSize := None;
       geminiService.opt_aspectRatio :=
         match config with Some c => Some (aspectRatio c) | None => None end |}
    fileData.

End ServiceCalls.

(** lines 116-119: the parts of the message that carries a generated image,
    for the data [imageUrl.split(',')[1]]. *)
Definition imageData (imageUrl : string) : option string :=
  nth_error (split "," imageUrl) 1.

Definition imageParts (data : string) : list MessagePart :=
  [ {| mp_text := None; mp_inlineData := Some ("image/png", data) |};
    {| mp_text := Some "Image generated successfully."; mp_inlineData := None |} ].

(* ================================================================== *)
(** ** [components/MessageItem.tsx]: what a part is shown as *)

Module MessageItem.

Inductive Element :=
| p (children : string)
| img (src : string)
| video (src : string)
| button (data : string) (disabled : bool)   (* plays [data] when clicked *)
| null.

(** lines 50-75, the function given to [message.parts.map] *)
Definition renderPart (isUser isPlaying : bool) (part : MessagePart) : Element :=
  match mp_text part with
  | Some (String c rest) => p (String c rest)
  | _ =>
      match mp_inlineData part with
      | Some (mimeType, data) =>
          if startsWith mimeType "image/"
          then img ("data:" ++ mimeType ++ ";base64," ++ data)
          else if String.eqb mimeType "video/mp4"
          then video (if startsWith data "blob:" then data
                      else "data:video/mp4;base64," ++ data)
          else if String.eqb mimeType "audio/pcm" && negb isUser
          then button data isPlaying
          else null
      | None => null
      end
  end.

(** lines 11 and 50 *)
Definition render (isPlaying : bool) (message : Message) : list Element :=
  map (renderPart (Role_eqb (msg_role message) USER) isPlaying) (msg_parts message).

End MessageItem.

(* ================================================================== *)
(** ** [components/InputArea.tsx]: sending *)

Module InputArea.

Record AttachedFile := {
  af_mimeType : string;
  af_data : string;
  af_name : string;
  af_previewUrl : string
}.

Record State := {
  input : string;
  attachedFile : option AttachedFile;
  config : GenerationConfig
}.

(** line 124 *)
Definition initial : State :=
  {| input := "";
     attachedFile := None;
     config := {| thinking := false; imageSize := "1K"; aspectRatio := "16:9" |} |}.

(** lines 206-212: the call of [onSend], if there is one, and the state
    after it. *)
Definition handleSubmit (disabled : bool) (st : State)
    : option (string * option (string * string) * GenerationConfig) * State :=
  if (String.eqb (trim (input st)) ""
      && match attachedFile st with Some _ => false | None => true end)
     || disabled
  then (None, st)
  else
    (Some (trim (input st),
           match attachedFile st with
           | Some f => Some (af_mimeType f, af_data f)
           | None => None
           end,
           config st),
     {| input := ""; attachedFile := None; config := config st |}).

(** lines 254, 266, 280: the buttons of the settings *)
Definition toggleThinking (st : State) : State :=
  {| input := input st; attachedFile := attachedFile st;
     config := {| thinking := negb (thinking (config st));
                  imageSize := imageSize (config st);
                  aspectRatio := aspectRatio (config st) |} |}.

Definition chooseImageSize (size : string) (st : State) : State :=
  {| input := input st; attachedFile := attachedFile st;
     config := {| thinking := thinking (config st);
                  imageSize := size;
                  aspectRatio := aspectRatio (config st) |} |}.

Definition chooseAspectRatio (ratio : string) (st : State) : State :=
  {| input := input st; attachedFile := attachedFile st;
     config := {| thinking := thinking (config st);
                  imageSize := imageSize (config st);
                  aspectRatio := ratio |} |}.

End InputArea.

(* ================================================================== *)
(** ** [components/AuthModal.tsx]: signing in *)

Module AuthModal.

Record User := {
  u_id : string;
  u_name : string;
  u_email : string;
  u_joinedAt : Z
}.

(** lines 14-26: the user given to [onLogin], if it is called.  [id] is
    the string made from [Math.random()]. *)
Definition handleSubmit (isSignUp : bool) (name email password : string)
    (id : string) (now : Z) : option User :=
  if String.eqb email "" || String.eqb password ""
     || (isSignUp && String.eqb name "")
  then None
  else
    Some {| u_id := id;
            u_name := if isSignUp then name
                      else match split "@" email with
                           | first :: _ => first
                           | [] => ""
                           end;
            u_email := email;
            u_joinedAt := now |}.

End AuthModal.

(* ================================================================== *)
(** * Properties *)

Section OverlayFacts.

Context {TB : TimeBase}.
Variables Float32Array Blob Bytes : Type.
Variable createBlob : Float32Array -> Blob.
Variable decode : string -> option Bytes.
Variable decodeAudioData : Bytes -> option AudioBuffer.
Variable Host : Type.
Variable onClose : Host -> Host.
Variable onCommand : string -> JsValue -> Host -> option Host.

Local Abbreviation St := (State Blob Host).
Local Abbreviation step := (step createBlob decode decodeAudioData onClose onCommand).
Local Abbreviation run := (run createBlob decode decodeAudioData onClose onCommand).
Local Abbreviation reachesLine85 :=
  (reachesLine85 createBlob decode decodeAudioData onClose onCommand).

Lemma sameOverlay_refl (st : St) : sameOverlay st st.
Proof. unfold sameOverlay; repeat split. Qed.

Lemma sameOverlay_trans (a b c : St) :
  sameOverlay a b -> sameOverlay b c -> sameOverlay a c.
Proof.
  unfold sameOverlay; intros H1 H2.
  repeat match goal with H : _ /\ _ |- _ => destruct H end.
  repeat split; congruence.
Qed.

Lemma then_fulfilled (r : Reaction Blob) (st : St) :
  sessionPromise st = fulfilled ->
  sessionPromise (then_ r st) = fulfilled /\
  (r <> closeIfInactive ->
   sessionCalls (then_ r st) =
     sessionCalls st ++
     [match r with
      | thenSendToolResponse x => sendToolResponse x
      | thenSendRealtimeInput b => sendRealtimeInput b
      | closeIfInactive => close
      end]).
Proof.
  intros Hp; unfold then_; rewrite Hp.
  destruct r; simpl; try (split; [assumption | intros; reflexivity]).
  split; [destruct (isActive st); simpl; assumption | intros H; congruence].
Qed.

Lemma then_sameOverlay (r : Reaction Blob) (st : St) :
  sameOverlay st (then_ r st) /\
  host (then_ r st) = host st /\
  commandCalls (then_ r st) = commandCalls st.
Proof.
  unfold then_, react, call.
  destruct (sessionPromise st); destruct r; try destruct (isActive st);
    simpl; unfold sameOverlay; simpl; repeat split.
Qed.

(** The loop of lines 93-101 on an established session, when [onCommand]
    returns on every call: every call has been handed to [onCommand] and
    acknowledged, in order. *)
Lemma functionCalls_normal (fcs : list FunctionCall) :
  forall (st : St) (h' : Host),
    sessionPromise st = fulfilled ->
    runCommands onCommand fcs (host st) = Some h' ->
    exists st',
      onmessage_functionCalls onCommand fcs st = Normal st' /\
      host st' = h' /\
      sessionCalls st' = sessionCalls st ++ map acknowledge fcs /\
      commandCalls st' = commandCalls st ++ map commandOf fcs /\
      sessionPromise st' = fulfilled /\
      sameOverlay st st'.
Proof.
  induction fcs as [|fc rest IH]; intros st h' Hp Hrun; simpl in *.
  - exists st. rewrite !app_nil_r.
    refine (conj eq_refl (conj _ (conj eq_refl (conj eq_refl (conj Hp _))))).
    + congruence.
    + apply sameOverlay_refl.
  - destruct (onCommand (fc_name fc) (fc_args fc) (host st)) as [h|] eqn:Hc;
      [|discriminate].
    set (st1 := set_host h
                  (set_commandCalls (commandCalls st ++ [(fc_name fc, fc_args fc)]) st)).
    assert (Hp1 : sessionPromise st1 = fulfilled) by exact Hp.
    destruct (then_fulfilled (thenSendToolResponse (functionResponse fc)) st1 Hp1)
      as [Hp2 Hs2].
    specialize (Hs2 ltac:(discriminate)).
    destruct (then_sameOverlay (thenSendToolResponse (functionResponse fc)) st1)
      as (Hsame & Hh & Hcc).
    set (st2 := then_ (thenSendToolResponse (functionResponse fc)) st1) in *.
    assert (Hsame02 : sameOverlay st st2).
    { apply sameOverlay_trans with st1; [|exact Hsame].
      unfold sameOverlay; simpl; repeat split. }
    destruct (IH st2 h' Hp2) as (st' & He & Hh' & Hs & Hcm & Hp' & Hsm).
    { rewrite Hh; exact Hrun. }
    exists st'.
    refine (conj He (conj Hh' (conj _ (conj _ (conj Hp' _))))).
    + rewrite Hs, Hs2; simpl. rewrite <- app_assoc; reflexivity.
    + rewrite Hcm, Hcc; simpl. rewrite <- app_assoc; reflexivity.
    + eauto using sameOverlay_trans.
Qed.

(** The same loop when [onCommand] throws on [fc] after returning on the
    calls of [pre]: [fc] has been handed to [onCommand], the calls of [pre]
    have been acknowledged, and the loop is left there. *)
Lemma functionCalls_throw (pre : list FunctionCall) (fc : FunctionCall)
    (post : list FunctionCall) :
  forall (st : St) (h' : Host),
    sessionPromise st = fulfilled ->
    runCommands onCommand pre (host st) = Some h' ->
    onCommand (fc_name fc) (fc_args fc) h' = None ->
    exists st',
      onmessage_functionCalls onCommand (pre ++ fc :: post) st = Throw st' /\
      host st' = h' /\
      sessionCalls st' = sessionCalls st ++ map acknowledge pre /\
      commandCalls st' = commandCalls st ++ map commandOf (pre ++ [fc]) /\
      sessionPromise st' = fulfilled /\
      sameOverlay st st'.
Proof.
  induction pre as [|fc0 rest IH]; intros st h' Hp Hrun Hthrow; simpl in *.
  - injection Hrun as <-. rewrite Hthrow.
    eexists; split; [reflexivity|]; simpl.
    rewrite app_nil_r.
    refine (conj eq_refl (conj eq_refl (conj eq_refl (conj Hp _)))).
    unfold sameOverlay; simpl; repeat split.
  - destruct (onCommand (fc_name fc0) (fc_args fc0) (host st)) as [h|] eqn:Hc;
      [|discriminate].
    set (st1 := set_host h
                  (set_commandCalls (commandCalls st ++ [(fc_name fc0, fc_args fc0)]) st)).
    assert (Hp1 : sessionPromise st1 = fulfilled) by exact Hp.
    destruct (then_fulfilled (thenSendToolResponse (functionResponse fc0)) st1 Hp1)
      as [Hp2 Hs2].
    specialize (Hs2 ltac:(discriminate)).
    destruct (then_sameOverlay (thenSendToolResponse (functionResponse fc0)) st1)
      as (Hsame & Hh & Hcc).
    set (st2 := then_ (thenSendToolResponse (functionResponse fc0)) st1) in *.
    assert (Hsame02 : sameOverlay st st2).
    { apply sameOverlay_trans with st1; [|exact Hsame].
      unfold sameOverlay; simpl; repeat split. }
    destruct (IH st2 h' Hp2) as (st' & He & Hh' & Hs & Hcm & Hp' & Hsm).
    { rewrite Hh; exact Hrun. }
    { exact Hthrow. }
    exists st'.
    refine (conj He (conj Hh' (conj _ (conj _ (conj Hp' _))))).
    + rewrite Hs, Hs2; simpl. rewrite <- app_assoc; reflexivity.
    + rewrite Hcm, Hcc; simpl. rewrite <- app_assoc; reflexivity.
    + eauto using sameOverlay_trans.
Qed.

Lemma toolResponses_app (a b : list (SessionCall Blob)) :
  toolResponses (a ++ b) = toolResponses a ++ toolResponses b.
Proof.
  induction a as [|c a IH]; simpl; [reflexivity|].
  destruct c; simpl; rewrite IH; reflexivity.
Qed.

Lemma toolResponses_acknowledge (fcs : list FunctionCall) :
  toolResponses (map (@acknowledge Blob) fcs) = map functionResponse fcs.
Proof. induction fcs; simpl; congruence. Qed.

(** ** Invariants of the effect closure and of the session

    Every callback reaches the audio contexts, the variables of the effect
    closure, the session promise and the calls on the session through a
    handful of operations.  A property of these that the operations
    preserve is preserved by every event; the two events that start the capture and
    settle the promise are left to the caller. *)
Section TransportInvariant.

Variable I : St -> Prop.

Hypothesis I_ext : forall st st', sameTransport st st' -> I st -> I st'.
Hypothesis I_ack :
  forall st fc, I st -> I (then_ (thenSendToolResponse (functionResponse fc)) st).
Hypothesis I_frame :
  forall st inputData,
    I st -> scriptProcessor st = true ->
    I (then_ (thenSendRealtimeInput (createBlob inputData)) st).
Hypothesis I_connect :
  forall st,
    I st -> stream st = um_pending ->
    I (set_sessionPromise (pending [closeIfInactive]) (set_stream um_live st)).
Hypothesis I_denied :
  forall st, I st -> stream st = um_pending -> I (set_stream um_denied st).
Hypothesis I_reject : forall st, I st -> I (reject st).
Hypothesis I_cleanup : forall st, I st -> I (cleanup st).

Ltac same := unfold sameTransport; simpl; repeat split; auto.

Lemma I_functionCalls (fcs : list FunctionCall) :
  forall st, I st ->
    match onmessage_functionCalls onCommand fcs st with
    | Normal st' | Throw st' => I st'
    end.
Proof.
  induction fcs as [|fc rest IH]; intros st HI; simpl; [exact HI|].
  destruct (onCommand (fc_name fc) (fc_args fc) (host st)) as [h|].
  - apply IH, I_ack. eapply I_ext; [|exact HI]. same.
  - eapply I_ext; [|exact HI]. same.
Qed.

Lemma I_onmessage_rest (m : LiveServerMessage) (st : St) :
  I st -> I (onmessage_rest onCommand m st).
Proof.
  intros HI. unfold onmessage_rest.
  set (st1 := if interrupted_of m then onmessage_interrupted st else st).
  assert (H1 : I st1).
  { subst st1. destruct (interrupted_of m); [|exact HI].
    eapply I_ext; [|exact HI]. same. }
  assert (H2 : match (match toolCall m with
                      | Some tc => onmessage_functionCalls onCommand (functionCalls tc) st1
                      | None => Normal st1
                      end) with Normal s | Throw s => I s end).
  { destruct (toolCall m); [apply I_functionCalls; exact H1 | exact H1]. }
  destruct (match toolCall m with
            | Some tc => onmessage_functionCalls onCommand (functionCalls tc) st1
            | None => Normal st1
            end) as [s|s]; [|exact H2].
  destruct (turnComplete_of m); [|exact H2].
  eapply I_ext; [|exact H2]. same.
Qed.

Lemma I_transcripts (m : LiveServerMessage) (st : St) :
  I st -> I (onmessage_transcripts m st).
Proof.
  intros HI. eapply I_ext; [|exact HI].
  unfold onmessage_transcripts.
  destruct (serverContent m) as [sc|]; [|same].
  destruct (inputTranscription sc), (outputTranscription sc); same.
Qed.

Lemma I_onmessage (m : LiveServerMessage) (now : time) (st : St) :
  I st -> I (onmessage decode decodeAudioData onCommand m now st).
Proof.
  intros HI. unfold onmessage.
  destruct (negb (isActive st)); [exact HI|].
  pose proof (I_transcripts m HI) as H1.
  set (st1 := onmessage_transcripts m st) in *.
  destruct (audioData_of m) as [d|]; [|apply I_onmessage_rest; exact H1].
  destruct (outputAudioContextRef st1); [|apply I_onmessage_rest; exact H1].
  destruct (String.eqb d ""); [apply I_onmessage_rest; exact H1|].
  destruct (decode d); (eapply I_ext; [|exact H1]); same.
Qed.

Lemma I_resume (suspended : LiveServerMessage * option AudioBuffer) (st : St) :
  I st -> I (onmessage_resume onCommand suspended st).
Proof.
  intros HI. unfold onmessage_resume.
  destruct (snd suspended) as [b|]; [|exact HI].
  apply I_onmessage_rest. eapply I_ext; [|exact HI]. same.
Qed.

Lemma I_step (st : St) (ev : Event Float32Array) :
  I st ->
  (ev = Onopen -> isActive st = true -> I (onopen st)) ->
  (ev = SessionResolved -> I (resolve st)) ->
  I (step st ev).
Proof.
  intros HI Hopen Hresolve.
  destruct ev; simpl.
  - destruct (stream st) eqn:Hs; [|exact HI|exact HI].
    apply (I_connect HI Hs).
  - destruct (stream st) eqn:Hs; [|exact HI|exact HI].
    unfold startSession_catch.
    eapply I_ext; [|apply (I_denied HI Hs)]. same.
  - auto.
  - auto.
  - destruct (connectCalled st); [|exact HI].
    destruct (isActive st) eqn:Ha; [auto|].
    unfold onopen; rewrite Ha; exact HI.
  - destruct (connectCalled st); [apply I_onmessage|]; exact HI.
  - destruct (nth_error (awaiting st) k); [|exact HI].
    apply I_resume. eapply I_ext; [|exact HI]. same.
  - destruct (connectCalled st); [|exact HI].
    eapply I_ext; [|exact HI]. same.
  - destruct (connectCalled st); [|exact HI].
    eapply I_ext; [|exact HI]. same.
  - destruct (capturing st) eqn:Hc; [|exact HI].
    unfold onaudioprocess.
    destruct (isMuted_closure st); [exact HI|].
    apply I_frame; [exact HI|].
    unfold capturing in Hc. apply andb_true_iff in Hc. tauto.
  - destruct (Nat.ltb source (nodeCount st)); [|exact HI].
    eapply I_ext; [|exact HI]. unfold onended.
    destruct (filter _ (sourcesRef st)); same.
  - destruct (isActive st); [|exact HI].
    eapply I_ext; [|exact HI]. same.
  - apply (I_cleanup HI).
Qed.

End TransportInvariant.

(** ** Tool calls *)

Lemma nth_error_snoc {A : Type} (l : list A) (x : A) :
  nth_error (l ++ [x]) (List.length l) = Some x.
Proof. induction l; simpl; auto. Qed.

Lemma nth_error_length {A : Type} (l : list A) :
  nth_error l (List.length l) = None.
Proof. induction l; simpl; auto. Qed.

Lemma remove_nth_snoc {A : Type} (l : list A) (x : A) :
  remove_nth (List.length l) (l ++ [x]) = l.
Proof. induction l; simpl; [reflexivity | congruence]. Qed.

(** What the transcript updates of lines 60-65 leave as it is. *)
Lemma transcripts_session (m : LiveServerMessage) (st : St) :
  sessionPromise (onmessage_transcripts m st) = sessionPromise st /\
  sessionCalls (onmessage_transcripts m st) = sessionCalls st /\
  commandCalls (onmessage_transcripts m st) = commandCalls st /\
  host (onmessage_transcripts m st) = host st /\
  outputAudioContextRef (onmessage_transcripts m st) = outputAudioContextRef st /\
  awaiting (onmessage_transcripts m st) = awaiting st /\
  sourcesRef (onmessage_transcripts m st) = sourcesRef st /\
  stopCalls (onmessage_transcripts m st) = stopCalls st.
Proof.
  unfold onmessage_transcripts.
  destruct (serverContent m) as [sc|]; [|repeat split].
  destruct (inputTranscription sc), (outputTranscription sc); repeat split.
Qed.

(** An invocation that line 68 sends past the audio part runs lines 85-107
    at once. *)
Lemma onmessage_at_once (st : St) (m : LiveServerMessage) (now : time) :
  isActive st = true ->
  connectCalled st = true ->
  chunkOf m st = None ->
  step st (Onmessage m now) = onmessage_rest onCommand m (onmessage_transcripts m st).
Proof.
  intros Ha Hc Hk. simpl. rewrite Hc. unfold onmessage. rewrite Ha. simpl.
  destruct (transcripts_session m st) as (_ & _ & _ & _ & Ho & _).
  rewrite Ho. unfold chunkOf in Hk.
  destruct (audioData_of m) as [d|]; [|reflexivity].
  destruct (outputAudioContextRef st); [|reflexivity].
  destruct (String.eqb d ""); [reflexivity | discriminate Hk].
Qed.

(** The state at line 85 has the session, the host and the logs of the
    state in which the event was delivered; after an [await] it has the
    node of the chunk in addition. *)
Lemma reachesLine85_rest (m : LiveServerMessage) (st at85 st' : St) :
  reachesLine85 m st at85 st' ->
  st' = onmessage_rest onCommand m at85 /\
  sessionPromise at85 = sessionPromise st /\
  sessionCalls at85 = sessionCalls st /\
  commandCalls at85 = commandCalls st /\
  host at85 = host st /\
  stopCalls at85 = stopCalls st /\
  (sourcesRef at85 = sourcesRef st \/
   exists b,
     sourcesRef at85 = sourcesRef st ++ [{| node := nodeCount st; buffer := b |}]).
Proof.
  intros H. destruct H as [s now Ha Hc Hk | s k b Hn].
  - destruct (transcripts_session m s) as (A & B & C & D & _ & _ & E & F).
    refine (conj _ (conj A (conj B (conj C (conj D (conj F (or_introl E))))))).
    apply onmessage_at_once; assumption.
  - refine (conj _ (conj eq_refl (conj eq_refl (conj eq_refl (conj eq_refl
             (conj eq_refl (or_intror (ex_intro _ b eq_refl)))))))).
    simpl. rewrite Hn. reflexivity.
Qed.

(** Lines 92-102 on an established session: what [onCommand] has been
    called with and what has been sent, when [onCommand] returns on every
    call and when it throws on one. *)
Lemma rest_tool_calls (m : LiveServerMessage) (fcs : list FunctionCall) (st : St) :
  sessionPromise st = fulfilled ->
  toolCall m = Some {| functionCalls := fcs |} ->
  (forall h',
      runCommands onCommand fcs (host st) = Some h' ->
      commandCalls (onmessage_rest onCommand m st)
        = commandCalls st ++ map commandOf fcs /\
      host (onmessage_rest onCommand m st) = h' /\
      sessionCalls (onmessage_rest onCommand m st)
        = sessionCalls st ++ map acknowledge fcs) /\
  (forall pre fc post h',
      fcs = pre ++ fc :: post ->
      runCommands onCommand pre (host st) = Some h' ->
      onCommand (fc_name fc) (fc_args fc) h' = None ->
      commandCalls (onmessage_rest onCommand m st)
        = commandCalls st ++ map commandOf (pre ++ [fc]) /\
      host (onmessage_rest onCommand m st) = h' /\
      sessionCalls (onmessage_rest onCommand m st)
        = sessionCalls st ++ map acknowledge pre).
Proof.
  intros Hp Ht. unfold onmessage_rest. rewrite Ht. simpl.
  set (st1 := if interrupted_of m then onmessage_interrupted st else st).
  assert (H1 : sessionPromise st1 = fulfilled /\
               sessionCalls st1 = sessionCalls st /\
               commandCalls st1 = commandCalls st /\
               host st1 = host st).
  { subst st1. destruct (interrupted_of m); simpl; repeat split; assumption. }
  destruct H1 as (Hp1 & Hs1 & Hc1 & Hh1).
  split.
  - intros h' Hrun. rewrite <- Hh1 in Hrun.
    destruct (functionCalls_normal fcs st1 Hp1 Hrun)
      as (s & He & Hh & Hs & Hc & _).
    rewrite He.
    assert (E : sessionCalls (if turnComplete_of m then onmessage_turnComplete s else s)
                = sessionCalls s /\
                commandCalls (if turnComplete_of m then onmessage_turnComplete s else s)
                = commandCalls s /\
                host (if turnComplete_of m then onmessage_turnComplete s else s)
                = host s)
      by (destruct (turnComplete_of m); repeat split).
    destruct E as (E1 & E2 & E3).
    rewrite E1, E2, E3, Hs, Hc, Hs1, Hc1.
    split; [reflexivity|]. split; [exact Hh | reflexivity].
  - intros pre fc post h' Hf Hrun Hthrow. subst fcs.
    rewrite <- Hh1 in Hrun.
    destruct (functionCalls_throw pre fc post st1 Hp1 Hrun Hthrow)
      as (s & He & Hh & Hs & Hc & _).
    rewrite He, Hs, Hc, Hs1, Hc1.
    split; [reflexivity|]. split; [exact Hh | reflexivity].
Qed.

(** An invocation that line 68 sends into the audio part: up to the
    [await], and when the chunk does not decode up to its end, nothing is
    called on the session and [onCommand] is not called. *)
Lemma audio_part_calls_nothing
    (st : St) (m : LiveServerMessage) (now : time) (d : string) :
  isActive st = true ->
  connectCalled st = true ->
  chunkOf m st = Some d ->
  sessionCalls (step st (Onmessage m now)) = sessionCalls st /\
  commandCalls (step st (Onmessage m now)) = commandCalls st /\
  ((decode d = None \/
    exists bytes, decode d = Some bytes /\ decodeAudioData bytes = None) ->
   sessionCalls
     (step (step st (Onmessage m now)) (DecodeSettled (List.length (awaiting st))))
   = sessionCalls st /\
   commandCalls
     (step (step st (Onmessage m now)) (DecodeSettled (List.length (awaiting st))))
   = commandCalls st).
Proof.
  intros Ha Hc Hk.
  destruct (transcripts_session m st) as (_ & T2 & T3 & _ & T5 & T6 & _).
  assert (E1 : step st (Onmessage m now) =
               let st3 :=
                 set_nextStartTimeRef
                   (Math_max (nextStartTimeRef (onmessage_transcripts m st)) now)
                   (set_status speaking (onmessage_transcripts m st)) in
               match decode d with
               | None => st3
               | Some bytes =>
                   set_awaiting (awaiting st3 ++ [(m, decodeAudioData bytes)]) st3
               end).
  { simpl. rewrite Hc. unfold onmessage. rewrite Ha. simpl. rewrite T5.
    unfold chunkOf in Hk.
    destruct (audioData_of m) as [d'|]; [|discriminate Hk].
    destruct (outputAudioContextRef st); [|discriminate Hk].
    destruct (String.eqb d' "") eqn:Hq; [discriminate Hk|].
    injection Hk as ->. reflexivity. }
  rewrite E1. clear E1. cbv zeta.
  destruct (decode d) as [bytes|] eqn:Hd.
  - split; [exact T2|]. split; [exact T3|].
    intros [Hf | (bytes' & Hf & Hr)]; [discriminate Hf|].
    injection Hf as <-. rewrite Hr. simpl.
    rewrite T6, nth_error_snoc, remove_nth_snoc.
    unfold onmessage_resume. simpl. split; [exact T2 | exact T3].
  - split; [exact T2|]. split; [exact T3|].
    intros _. simpl. rewrite T6, nth_error_length. simpl.
    split; [exact T2 | exact T3].
Qed.

(** C1, as the code has it.  A batch of tool calls is handled when the
    invocation of [onmessage] gets to line 85: at once for a message
    without a chunk to play, after the [await] when its chunk has decoded.
    On an established session, when [onCommand] returns on every call, one
    response per call has been sent, in order, each with the id of its
    call; when [onCommand] throws on a call, the responses for the calls
    before it have been sent and no other: the exception leaves the loop.
    While the chunk of the message is being decoded nothing has been sent,
    and when it does not decode nothing is: no call is handed to
    [onCommand] and none is acknowledged. *)
Theorem toolCalls_acknowledged_until_throw
    (m : LiveServerMessage) (fcs : list FunctionCall) :
  toolCall m = Some {| functionCalls := fcs |} ->
  (forall st at85 st' : St,
      reachesLine85 m st at85 st' ->
      sessionPromise st = fulfilled ->
      let sent := toolResponses (sessionCalls st') in
      (forall h',
          runCommands onCommand fcs (host st) = Some h' ->
          sent = toolResponses (sessionCalls st) ++ map functionResponse fcs /\
          map fr_id (map functionResponse fcs) = map fc_id fcs) /\
      (forall pre fc post h',
          fcs = pre ++ fc :: post ->
          runCommands onCommand pre (host st) = Some h' ->
          onCommand (fc_name fc) (fc_args fc) h' = None ->
          sent = toolResponses (sessionCalls st) ++ map functionResponse pre)) /\
  (forall (st : St) (now : time) (d : string),
      isActive st = true ->
      connectCalled st = true ->
      chunkOf m st = Some d ->
      sessionCalls (step st (Onmessage m now)) = sessionCalls st /\
      commandCalls (step st (Onmessage m now)) = commandCalls st /\
      ((decode d = None \/
        exists bytes, decode d = Some bytes /\ decodeAudioData bytes = None) ->
       sessionCalls
         (step (step st (Onmessage m now))
            (DecodeSettled (List.length (awaiting st))))
       = sessionCalls st /\
       commandCalls
         (step (step st (Onmessage m now))
            (DecodeSettled (List.length (awaiting st))))
       = commandCalls st)).
Proof.
  intros Ht. split.
  - intros st at85 st' Hr Hp sent. subst sent.
    destruct (reachesLine85_rest Hr) as (-> & Hp1 & Hs1 & _ & Hh1 & _).
    rewrite Hp in Hp1.
    destruct (rest_tool_calls m at85 Hp1 Ht) as [Hn Hth].
    rewrite Hh1 in Hn, Hth. split.
    + intros h' Hrun. destruct (Hn h' Hrun) as (_ & _ & Hs).
      rewrite Hs, Hs1, toolResponses_app, toolResponses_acknowledge.
      split; [reflexivity|]. rewrite map_map. reflexivity.
    + intros pre fc post h' Hf Hrun Hthrow.
      destruct (Hth pre fc post h' Hf Hrun Hthrow) as (_ & _ & Hs).
      rewrite Hs, Hs1, toolResponses_app, toolResponses_acknowledge.
      reflexivity.
  - intros st now d. apply audio_part_calls_nothing.
Qed.

(** ** Playback *)

Lemma functionCalls_sameOverlay (fcs : list FunctionCall) :
  forall st : St,
    match onmessage_functionCalls onCommand fcs st with
    | Normal s | Throw s => sameOverlay st s
    end.
Proof.
  induction fcs as [|fc rest IH]; intros st; simpl.
  - apply sameOverlay_refl.
  - destruct (onCommand (fc_name fc) (fc_args fc) (host st)) as [h|].
    + set (st1 := set_host h
                    (set_commandCalls (commandCalls st ++ [(fc_name fc, fc_args fc)]) st)).
      pose proof (then_sameOverlay (thenSendToolResponse (functionResponse fc)) st1)
        as (H1 & _).
      specialize (IH (then_ (thenSendToolResponse (functionResponse fc)) st1)).
      assert (H0 : sameOverlay st st1) by (unfold sameOverlay; simpl; repeat split).
      destruct (onmessage_functionCalls onCommand rest _);
        eauto using sameOverlay_trans.
    + unfold sameOverlay; simpl; repeat split.
Qed.

(** What lines 85-107 do to the refs and to the effect closure. *)
Lemma onmessage_rest_fields (m : LiveServerMessage) (st : St) :
  let s := onmessage_rest onCommand m st in
  nextStartTimeRef s = (if interrupted_of m then t0 else nextStartTimeRef st) /\
  sourcesRef s = (if interrupted_of m then [] else sourcesRef st) /\
  stopCalls s =
    (if interrupted_of m then stopCalls st ++ map node (sourcesRef st)
     else stopCalls st) /\
  startCalls s = startCalls st /\
  nodeCount s = nodeCount st /\
  awaiting s = awaiting st /\
  isActive s = isActive st /\
  audioContextRef s = audioContextRef st /\
  outputAudioContextRef s = outputAudioContextRef st /\
  stream s = stream st /\
  isMuted s = isMuted st /\
  isMuted_closure s = isMuted_closure st.
Proof.
  unfold onmessage_rest.
  set (st1 := if interrupted_of m then onmessage_interrupted st else st).
  assert (H1 :
    nextStartTimeRef st1 = (if interrupted_of m then t0 else nextStartTimeRef st) /\
    sourcesRef st1 = (if interrupted_of m then [] else sourcesRef st) /\
    stopCalls st1 =
      (if interrupted_of m then stopCalls st ++ map node (sourcesRef st)
       else stopCalls st) /\
    startCalls st1 = startCalls st /\
    nodeCount st1 = nodeCount st /\
    awaiting st1 = awaiting st /\
    isActive st1 = isActive st /\
    audioContextRef st1 = audioContextRef st /\
    outputAudioContextRef st1 = outputAudioContextRef st /\
    stream st1 = stream st /\
    isMuted st1 = isMuted st /\
    isMuted_closure st1 = isMuted_closure st).
  { subst st1; destruct (interrupted_of m); simpl; repeat split. }
  set (r := match toolCall m with
            | Some tc => onmessage_functionCalls onCommand (functionCalls tc) st1
            | None => Normal st1
            end).
  assert (H2 : match r with Normal s | Throw s => sameOverlay st1 s end).
  { subst r. destruct (toolCall m);
      [apply functionCalls_sameOverlay | apply sameOverlay_refl]. }
  clearbody r st1.
  assert (H3 : forall s, sameOverlay st1 s ->
    nextStartTimeRef s = (if interrupted_of m then t0 else nextStartTimeRef st) /\
    sourcesRef s = (if interrupted_of m then [] else sourcesRef st) /\
    stopCalls s =
      (if interrupted_of m then stopCalls st ++ map node (sourcesRef st)
       else stopCalls st) /\
    startCalls s = startCalls st /\
    nodeCount s = nodeCount st /\
    awaiting s = awaiting st /\
    isActive s = isActive st /\
    audioContextRef s = audioContextRef st /\
    outputAudioContextRef s = outputAudioContextRef st /\
    stream s = stream st /\
    isMuted s = isMuted st /\
    isMuted_closure s = isMuted_closure st).
  { intros s Hs. unfold sameOverlay in Hs.
    repeat match goal with H : _ /\ _ |- _ => destruct H end.
    repeat split; congruence. }
  destruct r as [s|s]; [|exact (H3 s H2)].
  destruct (turnComplete_of m); [|exact (H3 s H2)].
  exact (H3 s H2).
Qed.

(** What one event does to the running timestamp, to the start calls and to
    the suspended invocations. *)
Lemma step_playback (st : St) (ev : Event Float32Array) :
  match ev with
  | Onmessage m now =>
      startCalls (step st ev) = startCalls st /\
      (nextStartTimeRef (step st ev) = nextStartTimeRef st \/
       nextStartTimeRef (step st ev) = Math_max (nextStartTimeRef st) now \/
       (interrupted_of m = true /\ nextStartTimeRef (step st ev) = t0)) /\
      (awaiting (step st ev) = awaiting st \/
       exists r, awaiting (step st ev) = awaiting st ++ [(m, r)])
  | DecodeSettled k =>
      match nth_error (awaiting st) k with
      | Some (m, Some b) =>
          startCalls (step st ev) =
            startCalls st ++
            [({| node := nodeCount st; buffer := b |}, nextStartTimeRef st)] /\
          nextStartTimeRef (step st ev) =
            (if interrupted_of m then t0
             else tadd (nextStartTimeRef st) (duration b)) /\
          awaiting (step st ev) = remove_nth k (awaiting st)
      | Some (m, None) =>
          startCalls (step st ev) = startCalls st /\
          nextStartTimeRef (step st ev) = nextStartTimeRef st /\
          awaiting (step st ev) = remove_nth k (awaiting st)
      | None => step st ev = st
      end
  | _ =>
      startCalls (step st ev) = startCalls st /\
      nextStartTimeRef (step st ev) = nextStartTimeRef st /\
      awaiting (step st ev) = awaiting st
  end.
Proof.
  destruct ev; simpl.
  - destruct (stream st); repeat split.
  - destruct (stream st); repeat split.
  - unfold resolve.
    destruct (sessionPromise st) as [|rs| |];
      [repeat split| |repeat split|repeat split].
    + assert (G : forall s : St,
                 startCalls (fold_left (fun s r => react r s) rs s) = startCalls s /\
                 nextStartTimeRef (fold_left (fun s r => react r s) rs s)
                   = nextStartTimeRef s /\
                 awaiting (fold_left (fun s r => react r s) rs s) = awaiting s).
      { induction rs as [|r rs IH]; intros s; simpl; [repeat split|].
        destruct (IH (react r s)) as (A & B & C).
        rewrite A, B, C.
        destruct r; simpl; try destruct (isActive s); repeat split. }
      destruct (G (set_sessionPromise fulfilled st)) as (A & B & C).
      rewrite A, B, C; repeat split.
  - unfold reject. destruct (sessionPromise st); repeat split.
  - destruct (connectCalled st); [|repeat split].
    unfold onopen. destruct (negb (isActive st)); repeat split.
  - destruct (connectCalled st); [|split; [reflexivity|split; left; reflexivity]].
    unfold onmessage.
    destruct (negb (isActive st)); [split; [reflexivity|split; left; reflexivity]|].
    assert (T : startCalls (onmessage_transcripts message st) = startCalls st /\
                nextStartTimeRef (onmessage_transcripts message st)
                  = nextStartTimeRef st /\
                awaiting (onmessage_transcripts message st) = awaiting st).
    { unfold onmessage_transcripts.
      destruct (serverContent message) as [sc|]; [|repeat split].
      destruct (inputTranscription sc), (outputTranscription sc); repeat split. }
    destruct T as (T1 & T2 & T3).
    set (st1 := onmessage_transcripts message st) in *.
    assert (R : startCalls (onmessage_rest onCommand message st1) = startCalls st /\
                (nextStartTimeRef (onmessage_rest onCommand message st1)
                   = nextStartTimeRef st \/
                 nextStartTimeRef (onmessage_rest onCommand message st1)
                   = Math_max (nextStartTimeRef st) currentTime \/
                 interrupted_of message = true /\
                 nextStartTimeRef (onmessage_rest onCommand message st1) = t0) /\
                (awaiting (onmessage_rest onCommand message st1) = awaiting st \/
                 exists r, awaiting (onmessage_rest onCommand message st1)
                             = awaiting st ++ [(message, r)])).
    { destruct (onmessage_rest_fields message st1)
        as (F1 & _ & _ & F4 & _ & F6 & _).
      simpl in F1, F4, F6. rewrite F4, F6, T1, T3.
      split; [reflexivity|]. split; [|left; reflexivity].
      rewrite F1. destruct (interrupted_of message); [right; right; auto|].
      left; exact T2. }
    destruct (audioData_of message) as [d|]; [|exact R].
    destruct (outputAudioContextRef st1); [|exact R].
    destruct (String.eqb d ""); [exact R|].
    destruct (decode d) as [bytes|]; simpl; rewrite ?T1, ?T2, ?T3.
    + split; [reflexivity|]. split; [right; left; reflexivity|].
      right; eexists; reflexivity.
    + split; [reflexivity|]. split; [right; left; reflexivity|].
      left; reflexivity.
  - destruct (nth_error (awaiting st) k) as [[m [b|]]|]; [| |reflexivity].
    + unfold onmessage_resume; simpl.
      destruct (onmessage_rest_fields m
                  (onmessage_schedule b (set_awaiting (remove_nth k (awaiting st)) st)))
        as (F1 & _ & _ & F4 & _ & F6 & _).
      simpl in F1, F4, F6. rewrite F1, F4, F6. repeat split.
    + unfold onmessage_resume; simpl. repeat split.
  - destruct (connectCalled st); repeat split.
  - destruct (connectCalled st); repeat split.
  - destruct (capturing st); [|repeat split].
    unfold onaudioprocess. destruct (isMuted_closure st); [repeat split|].
    destruct (then_sameOverlay (thenSendRealtimeInput (createBlob inputData)) st)
      as (H & _).
    unfold sameOverlay in H.
    repeat match goal with H : _ /\ _ |- _ => destruct H end.
    repeat split; assumption.
  - destruct (Nat.ltb source (nodeCount st)); [|repeat split].
    unfold onended. destruct (filter _ (sourcesRef st)); repeat split.
  - destruct (isActive st); repeat split.
  - repeat split.
Qed.

Lemma Math_max_ge_l (a b : time) : tleb a (Math_max a b) = true.
Proof.
  unfold Math_max. destruct (tleb a b) eqn:E; [exact E | apply tleb_refl].
Qed.

Lemma Math_max_absorb (a b : time) : tleb b a = true -> Math_max a b = a.
Proof.
  intros H. unfold Math_max.
  destruct (tleb a b) eqn:E; [apply tleb_antisym; assumption | reflexivity].
Qed.

Lemma chain_hi (l : list (AudioBufferSourceNode * time)) :
  forall lo hi hi',
    chain lo l hi -> tleb hi hi' = true -> chain lo l hi'.
Proof.
  induction l as [|c l IH]; simpl; intros lo hi hi' H Hle.
  - eapply tleb_trans; eassumption.
  - destruct H as [H1 H2]; split; [exact H1 | eapply IH; eassumption].
Qed.

Lemma chain_snoc (l : list (AudioBufferSourceNode * time)) :
  forall lo hi source,
    chain lo l hi -> chain lo (l ++ [(source, hi)]) (endOf (source, hi)).
Proof.
  induction l as [|c l IH]; simpl; intros lo hi source H.
  - split; [exact H | apply tleb_refl].
  - destruct H as [H1 H2]; split; [exact H1 | apply IH; exact H2].
Qed.

Lemma chain_adjacent (l : list (AudioBufferSourceNode * time)) :
  forall lo hi n c1 c2,
    chain lo l hi ->
    nth_error l n = Some c1 -> nth_error l (S n) = Some c2 ->
    tleb (endOf c1) (startOf c2) = true.
Proof.
  induction l as [|c l IH]; intros lo hi n c1 c2 H H1 H2.
  - destruct n; discriminate.
  - destruct H as [_ Hc]. destruct n as [|n]; simpl in H1, H2.
    + injection H1 as <-. destruct l as [|c' l]; [discriminate|].
      injection H2 as <-. exact (proj1 Hc).
    + eapply IH; eassumption.
Qed.

Lemma chain_from (l : list (AudioBufferSourceNode * time)) :
  forall lo hi j c,
    Forall (fun c => tleb t0 (duration (buffer (fst c))) = true) l ->
    chain lo l hi -> nth_error l j = Some c ->
    tleb lo (startOf c) = true.
Proof.
  induction l as [|c0 l IH]; intros lo hi j c Hd H Hj.
  - destruct j; discriminate.
  - destruct H as [H1 H2]. inversion Hd as [|? ? Hd0 Hdl]; subst.
    destruct j as [|j]; simpl in Hj.
    + injection Hj as <-. exact H1.
    + apply tleb_trans with (endOf c0).
      * apply tleb_trans with (startOf c0); [exact H1|].
        unfold endOf, startOf. apply tadd_nonneg. exact Hd0.
      * eapply IH; eassumption.
Qed.

Lemma chain_pairs (l : list (AudioBufferSourceNode * time)) :
  forall lo hi i j c1 c2,
    Forall (fun c => tleb t0 (duration (buffer (fst c))) = true) l ->
    chain lo l hi -> i < j ->
    nth_error l i = Some c1 -> nth_error l j = Some c2 ->
    tleb (endOf c1) (startOf c2) = true.
Proof.
  induction l as [|c0 l IH]; intros lo hi i j c1 c2 Hd H Hij H1 H2.
  - destruct i; discriminate.
  - destruct H as [_ Hc]. inversion Hd as [|? ? Hd0 Hdl]; subst.
    destruct j as [|j]; [lia|]. simpl in H2.
    destruct i as [|i]; simpl in H1.
    + injection H1 as <-. eapply chain_from; eassumption.
    + apply (IH (endOf c0) hi i j c1 c2); [assumption | assumption | lia | assumption | assumption].
Qed.

Lemma Forall_remove_nth {A : Type} (P : A -> Prop) (k : nat) :
  forall l, Forall P l -> Forall P (remove_nth k l).
Proof.
  induction k as [|k IH]; intros l H; destruct l as [|x l]; simpl; auto.
  - inversion H; assumption.
  - inversion H; subst. constructor; auto.
Qed.

(** The start calls made since [st0], one after the other up to the
    running timestamp, as long as nothing interrupts. *)
Lemma run_chain (st0 : St) (evs : list (Event Float32Array)) :
  forall st scheduled,
    startCalls st = startCalls st0 ++ scheduled ->
    chain (nextStartTimeRef st0) scheduled (nextStartTimeRef st) ->
    Forall (@calm TB) (awaiting st) ->
    Forall (fun ev => interrupting ev = false) evs ->
    exists scheduled',
      startCalls (run st evs) = startCalls st0 ++ scheduled' /\
      chain (nextStartTimeRef st0) scheduled' (nextStartTimeRef (run st evs)).
Proof.
  induction evs as [|ev evs IH]; intros st scheduled Hs Hc Ha Hq; simpl.
  - exists scheduled; split; assumption.
  - inversion Hq as [|? ? Hev Hevs]; subst.
    pose proof (step_playback st ev) as P.
    destruct ev; simpl in Hev;
      try (destruct P as (P1 & P2 & P3);
           apply (IH _ scheduled); [congruence | rewrite P2; exact Hc
                                   | rewrite P3; exact Ha | exact Hevs]).
    + destruct P as (P1 & P2 & P3).
      apply (IH _ scheduled); [congruence | | | exact Hevs].
      * destruct P2 as [P2|[P2|[P2 _]]]; [rewrite P2; exact Hc| |congruence].
        rewrite P2. eapply chain_hi; [exact Hc | apply Math_max_ge_l].
      * destruct P3 as [P3|[r P3]]; rewrite P3; [exact Ha|].
        apply Forall_app; split; [exact Ha|].
        constructor; [exact Hev | constructor].
    + destruct (nth_error (awaiting st) k) as [[m [b|]]|] eqn:Hk.
      * destruct P as (P1 & P2 & P3).
        assert (Hm : interrupted_of m = false).
        { apply nth_error_In in Hk.
          rewrite Forall_forall in Ha. exact (Ha _ Hk). }
        rewrite Hm in P2.
        apply (IH _ (scheduled ++
                     [({| node := nodeCount st; buffer := b |}, nextStartTimeRef st)])).
        -- rewrite P1, Hs, app_assoc; reflexivity.
        -- rewrite P2.
           apply (chain_snoc scheduled (nextStartTimeRef st0) (nextStartTimeRef st)
                    {| node := nodeCount st; buffer := b |} Hc).
        -- rewrite P3. apply Forall_remove_nth; exact Ha.
        -- exact Hevs.
      * destruct P as (P1 & P2 & P3).
        apply (IH _ scheduled); [congruence | rewrite P2; exact Hc | | exact Hevs].
        rewrite P3. apply Forall_remove_nth; exact Ha.
      * rewrite P. apply (IH _ scheduled); assumption.
Qed.

(** C6.  From any state, along any events none of which interrupts (and
    with no interruption waiting in a suspended [onmessage]), the start
    calls made are in order: each node starts at or after the end (start
    plus duration) of the node started before it; with durations that are
    not negative, it starts at or after the end of every earlier node, so
    no two of them overlap. *)
Theorem playback_is_monotonic (st0 : St) (evs : list (Event Float32Array)) :
  Forall (@calm TB) (awaiting st0) ->
  Forall (fun ev => interrupting ev = false) evs ->
  exists scheduled,
    startCalls (run st0 evs) = startCalls st0 ++ scheduled /\
    (forall n c1 c2,
        nth_error scheduled n = Some c1 ->
        nth_error scheduled (S n) = Some c2 ->
        tleb (endOf c1) (startOf c2) = true) /\
    (Forall (fun c => tleb t0 (duration (buffer (fst c))) = true) scheduled ->
     forall i j c1 c2,
       i < j ->
       nth_error scheduled i = Some c1 ->
       nth_error scheduled j = Some c2 ->
       tleb (endOf c1) (startOf c2) = true).
Proof.
  intros Ha Hq.
  destruct (@run_chain st0 evs st0 []) as (scheduled & Hs & Hc);
    [rewrite app_nil_r; reflexivity | apply tleb_refl | exact Ha | exact Hq |].
  exists scheduled. split; [exact Hs|]. split.
  - intros n c1 c2. eapply chain_adjacent; exact Hc.
  - intros Hd i j c1 c2. eapply chain_pairs; eassumption.
Qed.

(** While a buffer that ends at [e] plays and nothing else is scheduled,
    the running timestamp stays at [e] and no start call is made. *)
Lemma run_whilePlaying (e : time) (evs : list (Event Float32Array)) :
  forall st : St,
    nextStartTimeRef st = e ->
    Forall (fun ev => whilePlaying e ev = true) evs ->
    nextStartTimeRef (run st evs) = e /\ startCalls (run st evs) = startCalls st.
Proof.
  induction evs as [|ev evs IH]; intros st He Hq; simpl; [split; auto|].
  inversion Hq as [|? ? Hev Hevs]; subst.
  pose proof (step_playback st ev) as P.
  assert (G : nextStartTimeRef (step st ev) = nextStartTimeRef st /\
              startCalls (step st ev) = startCalls st).
  { destruct ev; simpl in Hev; try discriminate;
      try (destruct P as (P1 & P2 & P3); split; assumption).
    destruct P as (P1 & P2 & P3). split; [|exact P1].
    apply andb_true_iff in Hev. destruct Hev as [Hi Hle].
    destruct P2 as [P2|[P2|[P2 _]]]; [exact P2| |].
    - rewrite P2. apply Math_max_absorb. exact Hle.
    - rewrite P2 in Hi; discriminate. }
  destruct G as [G1 G2].
  destruct (IH (step st ev)) as [H1 H2]; [congruence | exact Hevs |].
  split; congruence.
Qed.

(** C7.  A node [c] has just been started, so the running timestamp is at
    its end.  While it plays (every message sees the device clock at or
    before that end, nothing interrupts, nothing else is scheduled), any
    events may arrive; the node started next, for the chunk of a suspended
    [onmessage], starts exactly at the end of [c]. *)
Theorem gapless_when_continuous
    (st : St) (earlier : list (AudioBufferSourceNode * time))
    (c : AudioBufferSourceNode * time) (evs : list (Event Float32Array))
    (k : nat) (m : LiveServerMessage) (b : AudioBuffer) :
  startCalls st = earlier ++ [c] ->
  nextStartTimeRef st = endOf c ->
  Forall (fun ev => whilePlaying (endOf c) ev = true) evs ->
  nth_error (awaiting (run st evs)) k = Some (m, Some b) ->
  exists source,
    buffer source = b /\
    startCalls (step (run st evs) (DecodeSettled k)) =
      earlier ++ [c; (source, endOf c)] /\
    startOf (source, endOf c) = endOf c.
Proof.
  intros Hs He Hq Hk.
  destruct (@run_whilePlaying (endOf c) evs st He Hq) as [H1 H2].
  pose proof (step_playback (run st evs) (DecodeSettled k)) as P.
  cbv beta iota in P. rewrite Hk in P. destruct P as (P1 & _).
  exists {| node := nodeCount (run st evs); buffer := b |}.
  split; [reflexivity|]. split; [|reflexivity].
  rewrite P1, H1, H2, Hs, <- app_assoc. reflexivity.
Qed.

(** ** Interruption *)

(** C3, as the code has it.  When the invocation of [onmessage] for an
    [interrupted] message gets to line 85, at once or after the [await]
    for a chunk that has decoded, it stops every node then in
    [sourcesRef] (those of the state in which the event was delivered
    and, after an [await], the node of the chunk of the message itself),
    empties [sourcesRef] and sets the running timestamp to zero, not to
    the clock of the device. *)
Theorem interrupted_flushes_playback
    (m : LiveServerMessage) (st at85 st' : St) :
  reachesLine85 m st at85 st' ->
  interrupted_of m = true ->
  stopCalls st' = stopCalls st ++ map node (sourcesRef at85) /\
  (sourcesRef at85 = sourcesRef st \/
   exists b,
     sourcesRef at85 = sourcesRef st ++ [{| node := nodeCount st; buffer := b |}]) /\
  sourcesRef st' = [] /\
  nextStartTimeRef st' = t0.
Proof.
  intros Hr Hi.
  destruct (reachesLine85_rest Hr) as (-> & _ & _ & _ & _ & Hs & Hsrc).
  destruct (onmessage_rest_fields m at85) as (F1 & F2 & F3 & _).
  simpl in F1, F2, F3. rewrite Hi in F1, F2, F3.
  rewrite F1, F2, F3, Hs.
  split; [reflexivity|]. split; [exact Hsrc|]. split; reflexivity.
Qed.

(** ** The session promise *)

Lemma fold_react (rs : list (Reaction Blob)) :
  forall s : St,
    let s' := fold_left (fun s r => react r s) rs s in
    sessionCalls s' = sessionCalls s ++ callsOf (isActive s) rs /\
    sessionPromise s' = sessionPromise s /\
    audioContextRef s' = audioContextRef s /\
    outputAudioContextRef s' = outputAudioContextRef s /\
    isMuted_closure s' = isMuted_closure s /\
    isActive s' = isActive s /\
    stream s' = stream s /\
    scriptProcessor s' = scriptProcessor s.
Proof.
  induction rs as [|r rs IH]; intros s; simpl.
  - rewrite app_nil_r; repeat split.
  - destruct (IH (react r s)) as (H1 & H2 & H3 & H4 & H5 & H6 & H7 & H8).
    rewrite H1, H2, H3, H4, H5, H6, H7, H8.
    destruct r; simpl; try destruct (isActive s) eqn:Ha; simpl;
      rewrite ?Ha, <- ?app_assoc; repeat split.
Qed.

Lemma hd_error_app {A : Type} (l l' : list A) (x : A) :
  hd_error l = Some x -> hd_error (l ++ l') = Some x.
Proof. destruct l; simpl; [discriminate | auto]. Qed.

Lemma realtimeInputs_app (a b : list (SessionCall Blob)) :
  realtimeInputs (a ++ b) = realtimeInputs a ++ realtimeInputs b.
Proof.
  induction a as [|c a IH]; simpl; [reflexivity|].
  destruct c; simpl; rewrite IH; reflexivity.
Qed.

Lemma realtimeInputs_callsOf (active : bool) (rs : list (Reaction Blob)) :
  (forall b, ~ In (thenSendRealtimeInput b) rs) ->
  realtimeInputs (callsOf active rs) = [].
Proof.
  induction rs as [|r rs IH]; intros H; simpl; [reflexivity|].
  rewrite realtimeInputs_app, IH.
  - destruct r; simpl; [destruct active; reflexivity | | reflexivity].
    exfalso. apply (H pcmBlob). left; reflexivity.
  - intros b Hb. apply (H b). right; exact Hb.
Qed.

Lemma wellFormed_then (r : Reaction Blob) (st : St) :
  wellFormed st -> wellFormed (then_ r st).
Proof.
  unfold wellFormed, then_. intros (H1 & H2 & H3 & H4 & H5).
  destruct (sessionPromise st) as [|rs| |] eqn:Hp; simpl.
  - rewrite Hp. repeat split; assumption.
  - repeat split; try assumption.
    + intros Hs. specialize (H4 Hs). discriminate.
    + apply H5.
    + apply hd_error_app. apply H5.
  - assert (E : audioContextRef (react r st) = audioContextRef st /\
                outputAudioContextRef (react r st) = outputAudioContextRef st /\
                isMuted_closure (react r st) = isMuted_closure st /\
                stream (react r st) = stream st /\
                sessionPromise (react r st) = sessionPromise st)
      by (destruct r; simpl; try destruct (isActive st); repeat split).
    destruct E as (E1 & E2 & E3 & E4 & E5).
    rewrite E1, E2, E3, E4, E5, Hp. repeat split; assumption.
  - rewrite Hp. repeat split; assumption.
Qed.

(** Every event keeps the component well formed. *)
Lemma wellFormed_step (st : St) (ev : Event Float32Array) :
  wellFormed st -> wellFormed (step st ev).
Proof.
  intros H.
  apply (I_step wellFormed); try exact H.
  - intros s s' (E1 & E2 & E3 & E4 & E5 & E6 & E7 & E8) (W1 & W2 & W3 & W4 & W5).
    unfold wellFormed. rewrite E1, E2, E3, E5, E7, E8.
    repeat split; assumption.
  - intros; apply wellFormed_then; assumption.
  - intros; apply wellFormed_then; assumption.
  - unfold wellFormed; simpl. intros s (H1 & H2 & H3 & H4 & H5) Hs.
    rewrite (H4 Hs) in H5.
    repeat split; try assumption. discriminate.
  - unfold wellFormed; simpl. intros s (H1 & H2 & H3 & H4 & H5) Hs.
    rewrite (H4 Hs) in *. repeat split; try assumption; discriminate.
  - unfold wellFormed, reject. intros s (H1 & H2 & H3 & H4 & H5).
    destruct (sessionPromise s) as [|rs| |] eqn:Hp; simpl; rewrite ?Hp;
      repeat split; try assumption.
    + intros Hs. specialize (H4 Hs). discriminate.
    + apply H5.
  - unfold wellFormed, cleanup; simpl. intros s (H1 & H2 & H3 & H4 & H5).
    repeat split; try assumption.
    + destruct (audioContextRef s); [discriminate | congruence].
    + destruct (outputAudioContextRef s); [discriminate | congruence].
  - intros _ Ha. unfold onopen. rewrite Ha; simpl. exact H.
  - intros _. unfold resolve.
    destruct (sessionPromise st) as [|rs| |] eqn:Hp; try exact H.
    destruct (fold_react rs (set_sessionPromise fulfilled st))
      as (F1 & F2 & F3 & F4 & F5 & F6 & F7 & F8).
    simpl in *. destruct H as (H1 & H2 & H3 & H4 & H5).
    unfold wellFormed. rewrite F2, F3, F4, F5, F7.
    repeat split; try assumption. intros Hs. specialize (H4 Hs). congruence.
Qed.

Lemma wellFormed_mount (h : Host) : wellFormed (mount Blob h).
Proof. unfold wellFormed; simpl. repeat split; discriminate. Qed.

Lemma wellFormed_run (evs : list (Event Float32Array)) :
  forall st : St, wellFormed st -> wellFormed (run st evs).
Proof.
  induction evs as [|ev evs IH]; intros st H; simpl; [exact H|].
  apply IH, wellFormed_step, H.
Qed.

(** ** Deferred close *)

Lemma deferred_then (r : Reaction Blob) (st : St) :
  deferred st -> deferred (then_ r st).
Proof.
  unfold deferred, then_. intros (H1 & H2 & H3).
  destruct (sessionPromise st) as [|rs| |] eqn:Hp; simpl.
  - rewrite Hp. repeat split; assumption.
  - repeat split; try assumption.
    + intros Hs. specialize (H2 Hs). discriminate.
    + apply H3.
    + apply hd_error_app. apply H3.
  - assert (E : isActive (react r st) = isActive st /\
                stream (react r st) = stream st /\
                sessionPromise (react r st) = sessionPromise st /\
                exists l, sessionCalls (react r st) = sessionCalls st ++ l)
      by (destruct r; simpl; rewrite ?H1; simpl;
          refine (conj _ (conj eq_refl (conj eq_refl (ex_intro _ _ eq_refl))));
          simpl; auto).
    destruct E as (E1 & E2 & E3 & l & E4).
    rewrite E1, E2, E3, E4, Hp. repeat split; try assumption.
    apply hd_error_app; exact H3.
  - rewrite Hp. repeat split; assumption.
Qed.

(** Once the cleanup has run on an unresolved promise, every event leaves
    the component inactive with [close] as the first call on the session. *)
Lemma deferred_step (st : St) (ev : Event Float32Array) :
  deferred st -> deferred (step st ev).
Proof.
  intros H.
  apply (I_step deferred); try exact H.
  - intros s s' (E1 & E2 & E3 & E4 & E5 & E6 & E7 & E8) (W1 & W2 & W3).
    unfold deferred. rewrite E4, E5, E7, E8. repeat split; assumption.
  - intros; apply deferred_then; assumption.
  - intros; apply deferred_then; assumption.
  - unfold deferred; simpl. intros s (H1 & H2 & H3) Hs.
    rewrite (H2 Hs) in H3.
    repeat split; try assumption. discriminate.
  - unfold deferred; simpl. intros s (H1 & H2 & H3) Hs.
    rewrite (H2 Hs) in *. repeat split; try assumption; discriminate.
  - unfold deferred, reject. intros s (H1 & H2 & H3).
    destruct (sessionPromise s) as [|rs| |] eqn:Hp; simpl; rewrite ?Hp;
      repeat split; try assumption.
    + intros Hs. specialize (H2 Hs). discriminate.
    + apply H3.
  - unfold deferred, cleanup; simpl. intros s (H1 & H2 & H3).
    repeat split; assumption.
  - intros _ Ha. destruct H as (H1 & _). congruence.
  - intros _. unfold resolve.
    destruct (sessionPromise st) as [|rs| |] eqn:Hp; try exact H.
    destruct (fold_react rs (set_sessionPromise fulfilled st))
      as (F1 & F2 & F3 & F4 & F5 & F6 & F7 & F8).
    unfold deferred in H. rewrite Hp in H. destruct H as (H1 & H2 & H3 & H4).
    simpl in F1, F2, F6, F7.
    unfold deferred. rewrite F1, F2, F6, F7, H1, H3.
    repeat split; try assumption.
    + intros Hs. specialize (H2 Hs). congruence.
    + destruct rs as [|r rs]; [discriminate|].
      simpl in H4. injection H4 as ->. reflexivity.
Qed.

Lemma deferred_run (evs : list (Event Float32Array)) :
  forall st : St, deferred st -> deferred (run st evs).
Proof.
  induction evs as [|ev evs IH]; intros st H; simpl; [exact H|].
  apply IH, deferred_step, H.
Qed.

(** Until the promise is fulfilled it stays unfulfilled. *)
Lemma unresolved_step (st : St) (ev : Event Float32Array) :
  sessionPromise st <> fulfilled ->
  ev <> SessionResolved ->
  sessionPromise (step st ev) <> fulfilled.
Proof.
  intros H Hev.
  apply (I_step (fun s => sessionPromise s <> fulfilled)); try exact H.
  - intros s s' (E1 & E2 & E3 & E4 & E5 & E6 & E7 & E8). congruence.
  - intros s fc. unfold then_.
    destruct (sessionPromise s) eqn:Hp; simpl; congruence.
  - intros s b. unfold then_.
    destruct (sessionPromise s) eqn:Hp; simpl; congruence.
  - simpl; discriminate.
  - simpl; auto.
  - intros s. unfold reject.
    destruct (sessionPromise s) eqn:Hp; simpl; congruence.
  - simpl; auto.
  - intros _ Ha. unfold onopen; rewrite Ha; simpl; exact H.
  - intros E; contradiction.
Qed.

Lemma unresolved_run (evs : list (Event Float32Array)) :
  forall st : St,
    sessionPromise st <> fulfilled ->
    ~ In SessionResolved evs ->
    sessionPromise (run st evs) <> fulfilled.
Proof.
  induction evs as [|ev evs IH]; intros st H Hn; simpl; [exact H|].
  apply IH.
  - apply unresolved_step; [exact H|].
    intros ->. apply Hn. left; reflexivity.
  - intros Hi. apply Hn. right; exact Hi.
Qed.

(** The cleanup, run before the promise is fulfilled, arms the deferred
    close. *)
Lemma cleanup_deferred (st : St) :
  wellFormed st -> sessionPromise st <> fulfilled -> deferred (cleanup st).
Proof.
  unfold wellFormed, deferred, cleanup; simpl.
  intros (H1 & H2 & H3 & H4 & H5) Hp.
  repeat split; try assumption.
  destruct (sessionPromise st); try assumption. congruence.
Qed.

(** No frame is handed to the session while no capture has been started.
    The capture is started by [onopen] alone, and only while the component
    is active. *)
Lemma frameless_step (st : St) (ev : Event Float32Array) :
  frameless st ->
  (ev = Onopen -> isActive st = false) ->
  frameless (step st ev).
Proof.
  intros H Hev.
  apply (I_step (@frameless TB Blob Host)); try exact H.
  - intros s s' (E1 & E2 & E3 & E4 & E5 & E6 & E7 & E8) (W1 & W2 & W3).
    unfold frameless. rewrite E6, E7, E8. repeat split; assumption.
  - intros s fc (W1 & W2 & W3). unfold frameless, then_.
    destruct (sessionPromise s) as [|rs| |] eqn:Hp; simpl; rewrite ?Hp;
      repeat split; try assumption.
    + intros b Hb. apply in_app_or in Hb. destruct Hb as [Hb|[Hb|[]]].
      * exact (W3 b Hb).
      * discriminate.
    + rewrite realtimeInputs_app, W2. reflexivity.
  - intros s b (W1 & _) Hs. congruence.
  - unfold frameless; simpl. intros s (W1 & W2 & W3) _.
    repeat split; try assumption.
    intros b [Hb|[]]. discriminate.
  - unfold frameless; simpl. auto.
  - unfold frameless, reject. intros s (W1 & W2 & W3).
    destruct (sessionPromise s) eqn:Hp; simpl; rewrite ?Hp;
      repeat split; assumption.
  - unfold frameless, cleanup; simpl. auto.
  - intros E Ha. rewrite (Hev E) in Ha. discriminate.
  - intros _. unfold resolve.
    destruct (sessionPromise st) as [|rs| |] eqn:Hp; try exact H.
    destruct (fold_react rs (set_sessionPromise fulfilled st))
      as (F1 & F2 & F3 & F4 & F5 & F6 & F7 & F8).
    unfold frameless in H. rewrite Hp in H. destruct H as (H1 & H2 & H3).
    simpl in F1, F2, F6, F8.
    unfold frameless. rewrite F1, F2, F8, realtimeInputs_app, H2.
    rewrite (realtimeInputs_callsOf (isActive st) rs H3).
    repeat split; assumption.
Qed.

Lemma hd_close_uplink (cs : list (SessionCall Blob)) :
  hd_error cs = Some close -> uplink cs = [].
Proof.
  destruct cs as [|c cs]; simpl; [discriminate|].
  intros H; injection H as ->. reflexivity.
Qed.

Lemma run_app (st : St) (a b : list (Event Float32Array)) :
  run st (a ++ b) = run (run st a) b.
Proof. apply fold_left_app. Qed.

Lemma frameless_before_open (evs : list (Event Float32Array)) :
  forall st : St,
    frameless st -> ~ In Onopen evs -> frameless (run st evs).
Proof.
  induction evs as [|ev evs IH]; intros st H Hn; simpl; [exact H|].
  apply IH.
  - apply frameless_step; [exact H|].
    intros ->. exfalso. apply Hn. left; reflexivity.
  - intros Hi. apply Hn. right; exact Hi.
Qed.

Lemma frameless_after_cleanup (evs : list (Event Float32Array)) :
  forall st : St,
    deferred st -> frameless st -> frameless (run st evs).
Proof.
  induction evs as [|ev evs IH]; intros st D H; simpl; [exact H|].
  apply IH.
  - apply deferred_step, D.
  - apply frameless_step; [exact H|]. intros _. apply D.
Qed.

(** C8.  The cleanup runs before the session promise is fulfilled
    ([SessionResolved] is not among the events [pre] before [Unmount]).
    Then, whatever follows: once the promise is fulfilled the first call on
    the session is [close], made by the callback chained at lines 140-142;
    before that nothing is called on the session; no frame goes out before
    the close; and when the socket had not opened before the cleanup, no
    frame is handed to the session at all. *)
Theorem deferred_close
    (h : Host) (pre post : list (Event Float32Array)) :
  ~ In SessionResolved pre ->
  let st := run (mount Blob h) (pre ++ Unmount :: post) in
  (sessionPromise st = fulfilled -> hd_error (sessionCalls st) = Some close) /\
  (sessionPromise st <> fulfilled -> sessionCalls st = []) /\
  uplink (sessionCalls st) = [] /\
  (~ In Onopen pre -> realtimeInputs (sessionCalls st) = []).
Proof.
  intros Hpre st.
  assert (Hsplit : st = run (cleanup (run (mount Blob h) pre)) post).
  { subst st. rewrite run_app. reflexivity. }
  set (s0 := run (mount Blob h) pre) in *.
  assert (W0 : wellFormed s0) by apply wellFormed_run, wellFormed_mount.
  assert (U0 : sessionPromise s0 <> fulfilled).
  { apply unresolved_run; [simpl; discriminate | exact Hpre]. }
  assert (D0 : deferred (cleanup s0)) by (apply cleanup_deferred; assumption).
  assert (D : deferred st).
  { rewrite Hsplit. apply deferred_run, D0. }
  destruct D as (D1 & D2 & D3).
  assert (A : sessionPromise st = fulfilled -> hd_error (sessionCalls st) = Some close).
  { intros Hf. rewrite Hf in D3. exact D3. }
  assert (B : sessionPromise st <> fulfilled -> sessionCalls st = []).
  { intros Hf. destruct (sessionPromise st); try assumption;
      [apply D3 | congruence]. }
  refine (conj A (conj B (conj _ _))).
  - destruct (sessionPromise st) eqn:Hp;
      try (rewrite B; [reflexivity | discriminate]).
    apply hd_close_uplink, A. reflexivity.
  - intros Hopen.
    assert (F0 : frameless s0).
    { apply frameless_before_open; [|exact Hopen].
      unfold frameless; simpl. repeat split. }
    assert (F1 : frameless (cleanup s0)).
    { apply (@frameless_step s0 Unmount F0). discriminate. }
    assert (F : frameless st).
    { rewrite Hsplit. apply frameless_after_cleanup; assumption. }
    apply F.
Qed.

(** ** Dispatch *)

Lemma toolResponses_callsOf (active : bool) (rs : list (Reaction Blob)) :
  forall r,
    In r (toolResponses (callsOf active rs)) -> In (thenSendToolResponse r) rs.
Proof.
  induction rs as [|x rs IH]; intros r H; simpl in *; [contradiction|].
  rewrite toolResponses_app in H. apply in_app_or in H.
  destruct H as [H|H]; [|right; apply IH; exact H].
  destruct x; simpl in H.
  - destruct active; simpl in H; contradiction.
  - contradiction.
  - destruct H as [->|[]]. left; reflexivity.
Qed.

Lemma okPayload_then (x : Reaction Blob) (st : St) :
  (forall r, x = thenSendToolResponse r -> fr_result r = ok) ->
  okPayload st -> okPayload (then_ x st).
Proof.
  intros Hx (H1 & H2). unfold okPayload, then_.
  destruct (sessionPromise st) as [|rs| |] eqn:Hp; simpl; rewrite ?Hp;
    try (split; assumption).
  - split; [exact H1|].
    intros r Hr. apply in_app_or in Hr. destruct Hr as [Hr|[Hr|[]]].
    + exact (H2 r Hr).
    + exact (Hx r Hr).
  - assert (E : sessionPromise (react x st) = fulfilled /\
                forall r, In r (toolResponses (sessionCalls (react x st))) ->
                          In r (toolResponses (sessionCalls st)) \/
                          x = thenSendToolResponse r).
    { destruct x as [|b|x0]; simpl.
      - destruct (isActive st); simpl; rewrite ?Hp;
          (split; [reflexivity|]); intros r Hr.
        + left; exact Hr.
        + rewrite toolResponses_app in Hr. apply in_app_or in Hr.
          destruct Hr as [Hr|Hr]; [left; exact Hr | simpl in Hr; contradiction].
      - rewrite Hp; split; [reflexivity|]. intros r Hr.
        rewrite toolResponses_app in Hr. apply in_app_or in Hr.
        destruct Hr as [Hr|Hr]; [left; exact Hr | simpl in Hr; contradiction].
      - rewrite Hp; split; [reflexivity|]. intros r Hr.
        rewrite toolResponses_app in Hr. apply in_app_or in Hr.
        destruct Hr as [Hr|Hr]; [left; exact Hr|].
        simpl in Hr. destruct Hr as [->|[]]. right; reflexivity. }
    destruct E as [E1 E2]. rewrite E1. split; [|exact I].
    intros r Hr. destruct (E2 r Hr) as [Hr'|Hr'];
      [exact (H1 r Hr') | exact (Hx r Hr')].
Qed.

(** Every event keeps the payloads at [ok]. *)
Lemma okPayload_step (st : St) (ev : Event Float32Array) :
  okPayload st -> okPayload (step st ev).
Proof.
  intros H.
  apply (I_step okPayload); try exact H.
  - intros s s' (E1 & E2 & E3 & E4 & E5 & E6 & E7 & E8) (W1 & W2).
    unfold okPayload. rewrite E7, E8. split; assumption.
  - intros s fc Hs. apply okPayload_then; [|exact Hs].
    intros r Hr. injection Hr as <-. reflexivity.
  - intros s b Hs _. apply okPayload_then; [|exact Hs].
    intros r Hr. discriminate.
  - unfold okPayload; simpl. intros s (W1 & W2) _.
    split; [exact W1|]. intros r [Hr|[]]. discriminate.
  - unfold okPayload; simpl. auto.
  - unfold okPayload, reject. intros s (W1 & W2).
    destruct (sessionPromise s) eqn:Hp; simpl; rewrite ?Hp; split; auto.
  - unfold okPayload, cleanup; simpl. auto.
  - intros _ Ha. unfold onopen; rewrite Ha; simpl. exact H.
  - intros _. unfold resolve.
    destruct (sessionPromise st) as [|rs| |] eqn:Hp; try exact H.
    destruct (fold_react rs (set_sessionPromise fulfilled st))
      as (F1 & F2 & _).
    unfold okPayload in H. rewrite Hp in H. destruct H as (H1 & H2).
    simpl in F1, F2.
    unfold okPayload. rewrite F1, F2. split; [|exact I].
    intros r Hr. rewrite toolResponses_app in Hr. apply in_app_or in Hr.
    destruct Hr as [Hr|Hr]; [exact (H1 r Hr)|].
    apply H2. eapply toolResponses_callsOf; exact Hr.
Qed.

Lemma okPayload_run (evs : list (Event Float32Array)) :
  forall st : St, okPayload st -> okPayload (run st evs).
Proof.
  induction evs as [|ev evs IH]; intros st H; simpl; [exact H|].
  apply IH, okPayload_step, H.
Qed.

(** C10, as the code has it.  When the invocation of [onmessage] gets to
    line 85 on an established session, the calls of the batch are handed
    to [onCommand] in order, each with its name and its arguments,
    whatever the name is (nothing compares it with
    [functionDeclarations]), up to and including the first call on which
    [onCommand] throws; the calls after that one are not handed to it.
    For every call on which [onCommand] has returned a response is sent
    that is built from the call alone, with the constant payload [ok], not
    from what [onCommand] returned.  And whatever happens, every response
    the component ever sends carries that payload. *)
Theorem toolCalls_dispatched_unfiltered :
  (forall (m : LiveServerMessage) (fcs : list FunctionCall) (st at85 st' : St),
      toolCall m = Some {| functionCalls := fcs |} ->
      reachesLine85 m st at85 st' ->
      sessionPromise st = fulfilled ->
      (forall h',
          runCommands onCommand fcs (host st) = Some h' ->
          commandCalls st' =
            commandCalls st ++ map (fun fc => (fc_name fc, fc_args fc)) fcs /\
          host st' = h' /\
          sessionCalls st' =
            sessionCalls st ++
            map (fun fc =>
                   sendToolResponse
                     {| fr_id := fc_id fc; fr_name := fc_name fc; fr_result := "ok" |})
                fcs) /\
      (forall pre fc post h',
          fcs = pre ++ fc :: post ->
          runCommands onCommand pre (host st) = Some h' ->
          onCommand (fc_name fc) (fc_args fc) h' = None ->
          commandCalls st' =
            commandCalls st ++
            map (fun fc => (fc_name fc, fc_args fc)) (pre ++ [fc]) /\
          sessionCalls st' =
            sessionCalls st ++
            map (fun fc =>
                   sendToolResponse
                     {| fr_id := fc_id fc; fr_name := fc_name fc; fr_result := "ok" |})
                pre)) /\
  (forall (h : Host) (evs : list (Event Float32Array)) (r : FunctionResponse),
      In r (toolResponses (sessionCalls (run (mount Blob h) evs))) ->
      fr_result r = "ok").
Proof.
  split.
  - intros m fcs st at85 st' Ht Hr Hp.
    destruct (reachesLine85_rest Hr) as (-> & Hp1 & Hs1 & Hc1 & Hh1 & _).
    rewrite Hp in Hp1.
    destruct (rest_tool_calls m at85 Hp1 Ht) as [Hn Hth].
    rewrite Hh1 in Hn, Hth. split.
    + intros h' Hrun. destruct (Hn h' Hrun) as (A & B & C).
      rewrite A, B, C, Hs1, Hc1. repeat split.
    + intros pre fc post h' Hf Hrun Hthrow.
      destruct (Hth pre fc post h' Hf Hrun Hthrow) as (A & _ & C).
      rewrite A, C, Hs1, Hc1. split; reflexivity.
  - intros h evs r Hr.
    assert (H : okPayload (run (mount Blob h) evs)).
    { apply okPayload_run. unfold okPayload; simpl. split; [|exact I].
      intros ? []. }
    exact (proj1 H r Hr).
Qed.

(** ** Close, error *)

(** C9, as the code has it.  On unmount, after any events, the cleanup
    marks the component inactive and closes both audio contexts.  It does
    not touch the microphone stream.  When the session promise is not yet
    fulfilled, the session is closed at fulfilment by the callback chained
    on the promise. *)
Theorem unmount_closes_audio_contexts
    (h : Host) (evs : list (Event Float32Array)) :
  let st := run (mount Blob h) evs in
  let st' := step st Unmount in
  isActive st' = false /\
  audioContextRef st' = Some closed /\
  outputAudioContextRef st' = Some closed /\
  stream st' = stream st /\
  (sessionPromise st <> fulfilled ->
   forall post,
     sessionPromise (run st' post) = fulfilled ->
     hd_error (sessionCalls (run st' post)) = Some close).
Proof.
  intros st st'.
  assert (W : wellFormed st) by apply wellFormed_run, wellFormed_mount.
  destruct W as (W1 & W2 & W3 & W4 & W5).
  subst st'; simpl.
  refine (conj eq_refl (conj _ (conj _ (conj eq_refl _)))).
  - destruct (audioContextRef st); [reflexivity | congruence].
  - destruct (outputAudioContextRef st); [reflexivity | congruence].
  - intros Hp post Hf.
    assert (D : deferred (run (cleanup st) post)).
    { apply deferred_run, cleanup_deferred; [|exact Hp].
      repeat split; assumption. }
    destruct D as (_ & _ & D3). rewrite Hf in D3. exact D3.
Qed.

(** C5, as the code has it.  A transport failure sets the status to
    [error] and nothing else: the audio contexts, the microphone stream,
    the script processor, the playing nodes and the session are as they
    were.  The contexts are closed later, by the cleanup. *)
Theorem transport_error_sets_status_only (st : St) :
  connectCalled st = true ->
  let st' := step st Onerror in
  status st' = error /\
  audioContextRef st' = audioContextRef st /\
  outputAudioContextRef st' = outputAudioContextRef st /\
  stream st' = stream st /\
  scriptProcessor st' = scriptProcessor st /\
  sourcesRef st' = sourcesRef st /\
  stopCalls st' = stopCalls st /\
  isActive st' = isActive st /\
  sessionPromise st' = sessionPromise st /\
  sessionCalls st' = sessionCalls st /\
  host st' = host st /\
  audioContextRef (step st' Unmount) = AudioContext_close (audioContextRef st) /\
  outputAudioContextRef (step st' Unmount)
    = AudioContext_close (outputAudioContextRef st).
Proof.
  intros Hc st'; subst st'. simpl. rewrite Hc. simpl. repeat split.
Qed.

(** ** Transcripts *)

Lemma outputFragment_step (st : St) (f : string) (now : time) :
  isActive st = true ->
  connectCalled st = true ->
  step st (Onmessage (outputFragment f) now)
    = set_aiTranscript (aiTranscript st ++ " " ++ f)%string st.
Proof.
  intros Ha Hc. simpl. rewrite Hc. unfold onmessage. rewrite Ha. reflexivity.
Qed.

Lemma turnComplete_step (st : St) (now : time) :
  isActive st = true ->
  connectCalled st = true ->
  step st (Onmessage turnCompleteMessage now)
    = set_aiTranscript "" (set_userTranscript "" st).
Proof.
  intros Ha Hc. simpl. rewrite Hc. unfold onmessage. rewrite Ha. reflexivity.
Qed.

(** C4, as the code has it.  Every fragment is appended behind one space,
    the first one too: two fragments on the empty model transcript give a
    space, the first, a space, the second.  A turn-complete message empties
    both transcripts, and a fragment after it gives a space and that
    fragment, with nothing left of the turn before. *)
Theorem transcript_fragments_and_reset
    (st : St) (f1 f2 f3 : string) (n1 n2 n3 n4 : time) :
  isActive st = true ->
  connectCalled st = true ->
  aiTranscript st = "" ->
  let s1 := step st (Onmessage (outputFragment f1) n1) in
  let s2 := step s1 (Onmessage (outputFragment f2) n2) in
  let s3 := step s2 (Onmessage turnCompleteMessage n3) in
  let s4 := step s3 (Onmessage (outputFragment f3) n4) in
  aiTranscript s2 = (" " ++ f1 ++ " " ++ f2)%string /\
  aiTranscript s3 = "" /\
  userTranscript s3 = "" /\
  aiTranscript s4 = (" " ++ f3)%string.
Proof.
  intros Ha Hc He s1 s2 s3 s4.
  assert (E1 : s1 = set_aiTranscript (aiTranscript st ++ " " ++ f1)%string st)
    by (apply outputFragment_step; assumption).
  assert (E2 : s2 = set_aiTranscript (aiTranscript s1 ++ " " ++ f2)%string s1).
  { apply outputFragment_step; rewrite E1; assumption. }
  assert (E3 : s3 = set_aiTranscript "" (set_userTranscript "" s2)).
  { apply turnComplete_step; rewrite E2, E1; assumption. }
  assert (E4 : s4 = set_aiTranscript (aiTranscript s3 ++ " " ++ f3)%string s3).
  { apply outputFragment_step; rewrite E3, E2, E1; assumption. }
  clearbody s1 s2 s3 s4. subst s4 s3 s2 s1. simpl. rewrite He. simpl.
  repeat split.
Qed.

(** ** Mute *)

(** The guard of line 45 reads the [isMuted] of the first render, which is
    [false] in every state the component reaches: a captured frame is
    handed to the session whatever the mute button shows. *)
Lemma mute_is_not_seen_by_capture
    (h : Host) (evs : list (Event Float32Array)) (inputData : Float32Array) :
  let st := run (mount Blob h) evs in
  capturing st = true ->
  sessionPromise st = fulfilled ->
  sessionCalls (step st (Onaudioprocess inputData))
    = sessionCalls st ++ [sendRealtimeInput (createBlob inputData)].
Proof.
  intros st Hc Hp.
  assert (W : wellFormed st) by apply wellFormed_run, wellFormed_mount.
  destruct W as (_ & _ & W3 & _).
  simpl. rewrite Hc. unfold onaudioprocess, then_. rewrite W3, Hp.
  reflexivity.
Qed.

(** ** Beyond the claims: the overlay *)

(** X1.  In every state the component reaches, nothing has been called on
    the session unless the session promise is fulfilled: frames and
    responses registered earlier wait on the promise (lines 49-51, 96-100),
    and a promise that rejects never runs them. *)
Theorem session_untouched_until_fulfilled
    (h : Host) (evs : list (Event Float32Array)) :
  let st := run (mount Blob h) evs in
  sessionPromise st <> fulfilled -> sessionCalls st = [].
Proof.
  intros st Hp.
  assert (W : wellFormed st) by apply wellFormed_run, wellFormed_mount.
  destruct W as (_ & _ & _ & _ & W5).
  destruct (sessionPromise st); try assumption; [apply W5 | congruence].
Qed.

Lemma denied_step (st : St) (ev : Event Float32Array) :
  denied st -> denied (step st ev).
Proof.
  intros (H1 & H2 & H3 & H4 & H5 & H6 & H7 & H8).
  destruct ev; simpl;
    unfold connectCalled, capturing, resolve, reject;
    rewrite ?H1, ?H2, ?H4, ?H5, ?H6; simpl;
    try (unfold denied; repeat split; assumption).
  - destruct k; simpl; unfold denied; repeat split; assumption.
  - destruct (isActive st); unfold denied; simpl; repeat split; assumption.
Qed.


Lemma inputFragment_step (st : St) (f : string) (now : time) :
  isActive st = true ->
  connectCalled st = true ->
  step st (Onmessage (inputFragment f) now)
    = set_userTranscript (userTranscript st ++ " " ++ f)%string st.
Proof.
  intros Ha Hc. simpl. rewrite Hc. unfold onmessage. rewrite Ha. reflexivity.
Qed.

(** X3.  Transcript fragments are applied in the order of their delivery,
    each behind one space, and the two transcripts are independent: after
    any sequence of user and model fragments, each transcript is its old
    value followed by the fragments of its own speaker, in order. *)
Theorem transcripts_accumulate_in_order
    (xs : list (bool * string * time)) :
  forall st : St,
    isActive st = true ->
    connectCalled st = true ->
    let st' := run st (map (@fragmentEvent TB Float32Array) xs) in
    userTranscript st' = appendFragments (userTranscript st) (fragmentsOf true xs) /\
    aiTranscript st' = appendFragments (aiTranscript st) (fragmentsOf false xs).
Proof.
  induction xs as [|[[u f] t] xs IH]; intros st Ha Hc; [split; reflexivity|].
  intros st'. subst st'.
  change (run st (map (@fragmentEvent TB Float32Array) ((u, f, t) :: xs)))
    with (run (step st (fragmentEvent (u, f, t)))
              (map (@fragmentEvent TB Float32Array) xs)).
  destruct u.
  - change (@fragmentEvent TB Float32Array (true, f, t))
      with (@Onmessage TB Float32Array (inputFragment f) t).
    rewrite (inputFragment_step st f t Ha Hc).
    exact (IH (set_userTranscript (userTranscript st ++ " " ++ f)%string st) Ha Hc).
  - change (@fragmentEvent TB Float32Array (false, f, t))
      with (@Onmessage TB Float32Array (outputFragment f) t).
    rewrite (outputFragment_step st f t Ha Hc).
    exact (IH (set_aiTranscript (aiTranscript st ++ " " ++ f)%string st) Ha Hc).
Qed.

Lemma fold_react_sameOverlay (rs : list (Reaction Blob)) :
  forall s : St,
    sameOverlay s (fold_left (fun s r => react r s) rs s) /\
    host (fold_left (fun s r => react r s) rs s) = host s /\
    commandCalls (fold_left (fun s r => react r s) rs s) = commandCalls s.
Proof.
  induction rs as [|r rs IH]; intros s; simpl.
  - split; [apply sameOverlay_refl | split; reflexivity].
  - destruct (IH (react r s)) as (A & B & C).
    assert (R : sameOverlay s (react r s) /\ host (react r s) = host s /\
                commandCalls (react r s) = commandCalls s).
    { destruct r; simpl; try destruct (isActive s);
        (split; [unfold sameOverlay; simpl; repeat split | split; reflexivity]). }
    destruct R as (R1 & R2 & R3).
    split; [eapply sameOverlay_trans; eassumption | split; congruence].
Qed.

Lemma inert_step (st : St) (ev : Event Float32Array) :
  isActive st = false ->
  awaiting st = [] ->
  let st' := step st ev in
  isActive st' = false /\
  awaiting st' = [] /\
  userTranscript st' = userTranscript st /\
  aiTranscript st' = aiTranscript st /\
  commandCalls st' = commandCalls st /\
  startCalls st' = startCalls st /\
  nextStartTimeRef st' = nextStartTimeRef st /\
  scriptProcessor st' = scriptProcessor st.
Proof.
  intros Ha Hw st'; subst st'.
  assert (Same : forall s : St,
             sameOverlay st s -> commandCalls s = commandCalls st ->
             isActive s = false /\
             awaiting s = [] /\
             userTranscript s = userTranscript st /\
             aiTranscript s = aiTranscript st /\
             commandCalls s = commandCalls st /\
             startCalls s = startCalls st /\
             nextStartTimeRef s = nextStartTimeRef st /\
             scriptProcessor s = scriptProcessor st).
  { intros s Hs Hc. unfold sameOverlay in Hs.
    repeat match goal with H : _ /\ _ |- _ => destruct H end.
    repeat split; congruence. }
  destruct ev; simpl.
  - destruct (stream st); simpl; repeat split; assumption.
  - destruct (stream st); simpl; repeat split; assumption.
  - unfold resolve. destruct (sessionPromise st) as [|rs| |];
      try (repeat split; assumption).
    destruct (fold_react_sameOverlay rs (set_sessionPromise fulfilled st))
      as (A & _ & C).
    apply Same; [|exact C].
    eapply sameOverlay_trans; [|exact A].
    unfold sameOverlay; simpl; repeat split.
  - unfold reject. destruct (sessionPromise st); simpl; repeat split; assumption.
  - destruct (connectCalled st); [|repeat split; assumption].
    unfold onopen. rewrite Ha; simpl. repeat split; assumption.
  - destruct (connectCalled st); [|repeat split; assumption].
    unfold onmessage. rewrite Ha; simpl. repeat split; assumption.
  - rewrite Hw. destruct k; simpl; repeat split; assumption.
  - destruct (connectCalled st); simpl; repeat split; assumption.
  - destruct (connectCalled st); simpl; repeat split; assumption.
  - destruct (capturing st); [|repeat split; assumption].
    unfold onaudioprocess. destruct (isMuted_closure st); [repeat split; assumption|].
    destruct (then_sameOverlay (thenSendRealtimeInput (createBlob inputData)) st)
      as (A & _ & C).
    apply Same; assumption.
  - destruct (Nat.ltb source (nodeCount st)); [|repeat split; assumption].
    unfold onended. destruct (filter _ (sourcesRef st)); simpl;
      repeat split; assumption.
  - rewrite Ha. repeat split; assumption.
  - repeat split; assumption.
Qed.

(** X4.  Once the cleanup has run and no invocation of [onmessage] is
    suspended at its [await], the component is inert: whatever arrives, it
    stays inactive, the transcripts do not change, no command reaches the
    host handler, no node is started and the capture is not connected. *)
Theorem unmounted_component_is_inert (evs : list (Event Float32Array)) :
  forall st : St,
    isActive st = false ->
    awaiting st = [] ->
    let st' := run st evs in
    isActive st' = false /\
    userTranscript st' = userTranscript st /\
    aiTranscript st' = aiTranscript st /\
    commandCalls st' = commandCalls st /\
    startCalls st' = startCalls st /\
    nextStartTimeRef st' = nextStartTimeRef st /\
    scriptProcessor st' = scriptProcessor st.
Proof.
  induction evs as [|ev evs IH]; intros st Ha Hw; simpl; [repeat split; assumption|].
  destruct (@inert_step st ev Ha Hw) as (A1 & A2 & A3 & A4 & A5 & A6 & A7 & A8).
  destruct (IH (step st ev) A1 A2) as (B1 & B2 & B3 & B4 & B5 & B6 & B7).
  repeat split; congruence.
Qed.

(** ** Beyond the claims: the uplink *)

Lemma queuedFrames_app (a b : list (Reaction Blob)) :
  queuedFrames (a ++ b) = queuedFrames a ++ queuedFrames b.
Proof.
  induction a as [|r a IH]; simpl; [reflexivity|].
  destruct r; simpl; rewrite IH; reflexivity.
Qed.

Lemma realtimeInputs_queued (active : bool) (rs : list (Reaction Blob)) :
  realtimeInputs (callsOf active rs) = queuedFrames rs.
Proof.
  induction rs as [|r rs IH]; simpl; [reflexivity|].
  rewrite realtimeInputs_app, IH.
  destruct r; simpl; try destruct active; reflexivity.
Qed.

Lemma framesOut_ack (r : FunctionResponse) (st : St) :
  framesOut (then_ (thenSendToolResponse r) st) = framesOut st.
Proof.
  unfold framesOut, then_.
  destruct (sessionPromise st) as [|rs| |] eqn:Hp; simpl; rewrite ?Hp;
    try reflexivity.
  - rewrite queuedFrames_app. simpl. rewrite app_nil_r. reflexivity.
  - rewrite realtimeInputs_app. simpl. rewrite app_nil_r. reflexivity.
Qed.

Lemma framesOut_ext (st st' : St) :
  sameTransport st st' -> framesOut st' = framesOut st.
Proof.
  intros (E1 & E2 & E3 & E4 & E5 & E6 & E7 & E8).
  unfold framesOut. rewrite E7, E8. reflexivity.
Qed.

(** The part of [sendable] that every event keeps. *)
Lemma capture_wiring_step (st : St) (ev : Event Float32Array) :
  isMuted_closure st = false /\
  (stream st = um_pending -> sessionPromise st = not_created) /\
  (scriptProcessor st = true -> sessionPromise st <> not_created) ->
  isMuted_closure (step st ev) = false /\
  (stream (step st ev) = um_pending -> sessionPromise (step st ev) = not_created) /\
  (scriptProcessor (step st ev) = true -> sessionPromise (step st ev) <> not_created).
Proof.
  intros H.
  assert (Hopen : ev = Onopen ->
            isMuted_closure (step st ev) = false /\
            (stream (step st ev) = um_pending ->
             sessionPromise (step st ev) = not_created) /\
            (scriptProcessor (step st ev) = true ->
             sessionPromise (step st ev) <> not_created)).
  { intros ->. simpl. destruct H as (W1 & W2 & W3).
    unfold connectCalled, onopen.
    destruct (sessionPromise st) eqn:Hp; simpl;
      try destruct (isActive st); simpl; rewrite ?Hp;
      repeat split; auto; discriminate. }
  destruct ev; try (apply Hopen; reflexivity);
    (apply (I_step (fun s : St =>
                   isMuted_closure s = false /\
                   (stream s = um_pending -> sessionPromise s = not_created) /\
                   (scriptProcessor s = true -> sessionPromise s <> not_created)));
     [ intros s s' (E1 & E2 & E3 & E4 & E5 & E6 & E7 & E8) (W1 & W2 & W3);
       rewrite E3, E5, E6, E7; repeat split; assumption
     | intros s fc (W1 & W2 & W3); unfold then_;
       destruct (sessionPromise s) as [|rs| |] eqn:Hp; simpl; rewrite ?Hp;
       repeat split; auto; try discriminate;
       intros Hs; specialize (W2 Hs); discriminate
     | intros s b (W1 & W2 & W3) _; unfold then_;
       destruct (sessionPromise s) as [|rs| |] eqn:Hp; simpl; rewrite ?Hp;
       repeat split; auto; try discriminate;
       intros Hs; specialize (W2 Hs); discriminate
     | simpl; intros s (W1 & W2 & W3) _; repeat split; auto; discriminate
     | simpl; intros s (W1 & W2 & W3) Hs; repeat split; auto; try discriminate;
       intros Hp; specialize (W2 Hs); specialize (W3 Hp); contradiction
     | intros s (W1 & W2 & W3); unfold reject;
       destruct (sessionPromise s) as [|rs| |] eqn:Hp; simpl; rewrite ?Hp;
       repeat split; auto; try discriminate;
       intros Hs; specialize (W2 Hs); discriminate
     | unfold cleanup; simpl; auto
     | exact H
     | intros E; discriminate E
     | intros E; try discriminate E ]).
  unfold resolve. destruct H as (W1 & W2 & W3).
  destruct (sessionPromise st) as [|rs| |] eqn:Hp; rewrite ?Hp;
    try (repeat split; auto; fail).
  destruct (fold_react rs (set_sessionPromise fulfilled st))
    as (F1 & F2 & F3 & F4 & F5 & F6 & F7 & F8).
  simpl in F2, F5, F7, F8. rewrite F2, F5, F7.
  repeat split; auto; try discriminate.
  intros Hs. specialize (W2 Hs). discriminate.
Qed.

(** A property of the audio contexts, the effect closure and the session
    that transcripts and acknowledgments keep is kept by an event as soon
    as it is kept by what that very event does to the promise, the capture
    and the closure. *)
Section StepAt.

Variable I : St -> Prop.

Hypothesis I_ext : forall st st', sameTransport st st' -> I st -> I st'.
Hypothesis I_ack :
  forall st fc, I st -> I (then_ (thenSendToolResponse (functionResponse fc)) st).

Lemma I_step_at (st : St) (ev : Event Float32Array) :
  I st ->
  (ev = GetUserMediaResolved -> stream st = um_pending ->
   I (startSession_continue st)) ->
  (ev = GetUserMediaRejected -> stream st = um_pending ->
   I (startSession_catch st)) ->
  (ev = SessionResolved -> I (resolve st)) ->
  (ev = SessionRejected -> I (reject st)) ->
  (ev = Onopen -> connectCalled st = true -> isActive st = true -> I (onopen st)) ->
  (forall inputData,
      ev = Onaudioprocess inputData -> capturing st = true ->
      I (onaudioprocess createBlob inputData st)) ->
  (ev = Unmount -> I (cleanup st)) ->
  I (step st ev).
Proof.
  intros HI H1 H2 H3 H4 H5 H6 H7.
  assert (Same : forall s : St, sameTransport st s -> I s)
    by (intros s Hs; exact (I_ext Hs HI)).
  destruct ev; simpl.
  - destruct (stream st) eqn:Hs; auto.
  - destruct (stream st) eqn:Hs; auto.
  - auto.
  - auto.
  - destruct (connectCalled st) eqn:Hc; [|exact HI].
    destruct (isActive st) eqn:Ha; [auto|].
    unfold onopen; rewrite Ha; exact HI.
  - destruct (connectCalled st); [|exact HI].
    apply I_onmessage; [exact I_ext | exact I_ack | exact HI].
  - destruct (nth_error (awaiting st) k); [|exact HI].
    apply I_resume; [exact I_ext | exact I_ack |].
    apply Same. unfold sameTransport; simpl; repeat split.
  - destruct (connectCalled st); [|exact HI].
    apply Same. unfold sameTransport; simpl; repeat split.
  - destruct (connectCalled st); [|exact HI].
    apply Same. unfold sameTransport; simpl; repeat split.
  - destruct (capturing st) eqn:Hc; [|exact HI]. auto.
  - destruct (Nat.ltb source (nodeCount st)); [|exact HI].
    apply Same. unfold onended.
    destruct (filter _ (sourcesRef st)); unfold sameTransport; simpl; repeat split.
  - destruct (isActive st); [|exact HI].
    apply Same. unfold sameTransport; simpl; repeat split.
  - auto.
Qed.

End StepAt.

(** What one event adds to the frames handed to the session or queued for
    it: the blob of its input buffer when it is an [onaudioprocess] that
    the capture delivers, and nothing otherwise. *)
Lemma framesOut_step (st : St) (ev : Event Float32Array) :
  sendable st ->
  ev <> SessionRejected ->
  framesOut (step st ev)
    = framesOut st ++
      map createBlob
        match ev with
        | Onaudioprocess inputData => if capturing st then [inputData] else []
        | _ => []
        end /\
  sessionPromise (step st ev) <> rejected.
Proof.
  intros (W1 & W2 & W3 & W4) Hev.
  assert (Other :
    (forall inputData, ev <> Onaudioprocess inputData) ->
    framesOut (step st ev) = framesOut st /\ sessionPromise (step st ev) <> rejected).
  { intros Hne.
    apply (I_step_at (fun s => framesOut s = framesOut st /\
                               sessionPromise s <> rejected)).
    - intros s s' Hs [A B]. rewrite (framesOut_ext Hs).
      destruct Hs as (E1 & E2 & E3 & E4 & E5 & E6 & E7 & E8).
      rewrite E7. split; assumption.
    - intros s fc [A B]. rewrite framesOut_ack. split; [exact A|].
      unfold then_. destruct (sessionPromise s) eqn:Hp; simpl; congruence.
    - split; [reflexivity | exact W4].
    - intros _ Hs. unfold framesOut; simpl. rewrite (W2 Hs), app_nil_r.
      split; [reflexivity | discriminate].
    - intros _ Hs. unfold framesOut; simpl. split; [reflexivity | exact W4].
    - intros _. unfold resolve, framesOut.
      destruct (sessionPromise st) as [|rs| |] eqn:Hp; rewrite ?Hp;
        try (split; [reflexivity | congruence]).
      destruct (fold_react rs (set_sessionPromise fulfilled st)) as (F1 & F2 & _).
      simpl in F1, F2. rewrite F1, F2, realtimeInputs_app, realtimeInputs_queued.
      split; [rewrite app_nil_r; reflexivity | discriminate].
    - intros E; contradiction.
    - intros _ _ Ha. unfold onopen; rewrite Ha; simpl.
      split; [reflexivity | exact W4].
    - intros f E. exfalso. exact (Hne f E).
    - intros _. split; [reflexivity | exact W4]. }
  destruct ev;
    try (destruct Other as [A B]; [intros f; discriminate|];
         split; [rewrite A; simpl; rewrite app_nil_r; reflexivity | exact B]).
  clear Other. simpl.
  destruct (capturing st) eqn:Hc; simpl;
    [|split; [rewrite app_nil_r; reflexivity | exact W4]].
  unfold capturing in Hc. apply andb_true_iff in Hc. destruct Hc as [Hs _].
  specialize (W3 Hs).
  unfold onaudioprocess, then_, framesOut. rewrite W1.
  destruct (sessionPromise st) as [|rs| |] eqn:Hp; simpl; rewrite ?Hp; try congruence.
  - rewrite queuedFrames_app. simpl. rewrite app_assoc.
    split; [reflexivity | discriminate].
  - rewrite realtimeInputs_app. simpl. rewrite !app_nil_r.
    split; [reflexivity | discriminate].
Qed.

Lemma sendable_step (st : St) (ev : Event Float32Array) :
  sendable st -> ev <> SessionRejected -> sendable (step st ev).
Proof.
  intros H Hev.
  destruct (framesOut_step H Hev) as [_ R].
  destruct H as (W1 & W2 & W3 & W4).
  destruct (@capture_wiring_step st ev (conj W1 (conj W2 W3))) as (A & B & C).
  unfold sendable. repeat split; assumption.
Qed.

Local Abbreviation framesTaken :=
  (framesTaken createBlob decode decodeAudioData onClose onCommand).

Lemma framesOut_run (evs : list (Event Float32Array)) :
  forall st : St,
    sendable st ->
    ~ In SessionRejected evs ->
    framesOut (run st evs) = framesOut st ++ map createBlob (framesTaken st evs).
Proof.
  induction evs as [|ev evs IH]; intros st H Hn; simpl.
  - rewrite app_nil_r. reflexivity.
  - assert (Hev : ev <> SessionRejected)
      by (intros ->; apply Hn; left; reflexivity).
    rewrite IH;
      [| apply sendable_step; assumption
       | intros Hi; apply Hn; right; exact Hi].
    rewrite (proj1 (framesOut_step H Hev)), map_app, app_assoc. reflexivity.
Qed.

(** X5.  As long as the connection does not fail, the frames handed to the
    session, followed by those that wait for the session promise, are
    exactly the blobs of the captured buffers, in the order of capture:
    none is dropped, repeated or reordered, and the frames captured before
    the promise is fulfilled go out, in that order, when it is. *)
Theorem uplink_keeps_capture_order
    (h : Host) (evs : list (Event Float32Array)) :
  ~ In SessionRejected evs ->
  let st := run (mount Blob h) evs in
  framesOut st = map createBlob (framesTaken (mount Blob h) evs) /\
  (sessionPromise st = fulfilled ->
   realtimeInputs (sessionCalls st)
     = map createBlob (framesTaken (mount Blob h) evs)).
Proof.
  intros Hn st.
  assert (E : framesOut st = map createBlob (framesTaken (mount Blob h) evs)).
  { subst st. rewrite framesOut_run; [reflexivity| |exact Hn].
    unfold sendable; simpl. repeat split; discriminate. }
  split; [exact E|].
  intros Hf. rewrite <- E. unfold framesOut. rewrite Hf, app_nil_r. reflexivity.
Qed.

(** ** Beyond the claims: the nodes of the playback *)

(** What one event does to [sourcesRef], to the stop and start calls and to
    the count of nodes: nothing; the flush of an interruption; the start of
    one new node, flushed at once when its message also interrupts; or the
    removal of the node that ended. *)
Lemma step_nodes (st : St) (ev : Event Float32Array) :
  let st' := step st ev in
  (sourcesRef st' = sourcesRef st /\ stopCalls st' = stopCalls st /\
   startCalls st' = startCalls st /\ nodeCount st' = nodeCount st) \/
  (sourcesRef st' = [] /\
   stopCalls st' = stopCalls st ++ map node (sourcesRef st) /\
   startCalls st' = startCalls st /\ nodeCount st' = nodeCount st) \/
  (exists b w,
      startCalls st' =
        startCalls st ++ [({| node := nodeCount st; buffer := b |}, w)] /\
      nodeCount st' = S (nodeCount st) /\
      ((sourcesRef st' = sourcesRef st ++ [{| node := nodeCount st; buffer := b |}] /\
        stopCalls st' = stopCalls st) \/
       (sourcesRef st' = [] /\
        stopCalls st' =
          stopCalls st ++
          map node (sourcesRef st ++ [{| node := nodeCount st; buffer := b |}])))) \/
  (exists n,
      sourcesRef st' = filter (fun s => negb (Nat.eqb (node s) n)) (sourcesRef st) /\
      stopCalls st' = stopCalls st /\
      startCalls st' = startCalls st /\ nodeCount st' = nodeCount st).
Proof.
  intros st'; subst st'.
  assert (Same : forall s : St, sameOverlay st s ->
            sourcesRef s = sourcesRef st /\ stopCalls s = stopCalls st /\
            startCalls s = startCalls st /\ nodeCount s = nodeCount st).
  { intros s Hs. unfold sameOverlay in Hs.
    repeat match goal with H : _ /\ _ |- _ => destruct H end.
    repeat split; assumption. }
  destruct ev; simpl.
  - left. destruct (stream st); repeat split.
  - left. destruct (stream st); repeat split.
  - left. unfold resolve. destruct (sessionPromise st) as [|rs| |];
      try (repeat split; fail).
    destruct (fold_react_sameOverlay rs (set_sessionPromise fulfilled st)) as (A & _).
    apply Same. eapply sameOverlay_trans; [|exact A].
    unfold sameOverlay; simpl; repeat split.
  - left. unfold reject. destruct (sessionPromise st); repeat split.
  - left. destruct (connectCalled st); [|repeat split].
    unfold onopen. destruct (negb (isActive st)); repeat split.
  - destruct (connectCalled st); [|left; repeat split].
    unfold onmessage.
    destruct (negb (isActive st)); [left; repeat split|].
    assert (T : sourcesRef (onmessage_transcripts message st) = sourcesRef st /\
                stopCalls (onmessage_transcripts message st) = stopCalls st /\
                startCalls (onmessage_transcripts message st) = startCalls st /\
                nodeCount (onmessage_transcripts message st) = nodeCount st).
    { unfold onmessage_transcripts.
      destruct (serverContent message) as [sc|]; [|repeat split].
      destruct (inputTranscription sc), (outputTranscription sc); repeat split. }
    destruct T as (T1 & T2 & T3 & T4).
    set (st1 := onmessage_transcripts message st) in *.
    assert (R :
      (sourcesRef (onmessage_rest onCommand message st1) = sourcesRef st /\
       stopCalls (onmessage_rest onCommand message st1) = stopCalls st /\
       startCalls (onmessage_rest onCommand message st1) = startCalls st /\
       nodeCount (onmessage_rest onCommand message st1) = nodeCount st) \/
      (sourcesRef (onmessage_rest onCommand message st1) = [] /\
       stopCalls (onmessage_rest onCommand message st1)
         = stopCalls st ++ map node (sourcesRef st) /\
       startCalls (onmessage_rest onCommand message st1) = startCalls st /\
       nodeCount (onmessage_rest onCommand message st1) = nodeCount st)).
    { destruct (onmessage_rest_fields message st1)
        as (_ & F2 & F3 & F4 & F5 & _).
      simpl in F2, F3, F4, F5. rewrite F2, F3, F4, F5, T1, T2, T3, T4.
      destruct (interrupted_of message); [right | left]; repeat split. }
    destruct (audioData_of message) as [d|];
      [|destruct R as [X|X]; [left; exact X | right; left; exact X]].
    destruct (outputAudioContextRef st1);
      [|destruct R as [X|X]; [left; exact X | right; left; exact X]].
    destruct (String.eqb d "");
      [destruct R as [X|X]; [left; exact X | right; left; exact X]|].
    left. destruct (decode d); simpl; repeat split; assumption.
  - destruct (nth_error (awaiting st) k) as [[m [b|]]|]; [| |left; repeat split].
    + right; right; left. exists b, (nextStartTimeRef st).
      unfold onmessage_resume; simpl.
      destruct (onmessage_rest_fields m
                  (onmessage_schedule b (set_awaiting (remove_nth k (awaiting st)) st)))
        as (_ & F2 & F3 & F4 & F5 & _).
      simpl in F2, F3, F4, F5. rewrite F2, F3, F4, F5.
      split; [reflexivity|]. split; [reflexivity|].
      destruct (interrupted_of m); [right | left]; split; reflexivity.
    + left. unfold onmessage_resume; simpl. repeat split.
  - left. destruct (connectCalled st); repeat split.
  - left. destruct (connectCalled st); repeat split.
  - left. destruct (capturing st); [|repeat split].
    unfold onaudioprocess. destruct (isMuted_closure st); [repeat split|].
    apply Same.
    apply (then_sameOverlay (thenSendRealtimeInput (createBlob inputData)) st).
  - destruct (Nat.ltb source (nodeCount st)); [|left; repeat split].
    right; right; right. exists source. unfold onended.
    destruct (filter _ (sourcesRef st)) eqn:Hf; simpl; rewrite ?Hf; repeat split.
  - left. destruct (isActive st); repeat split.
  - left. repeat split.
Qed.

Lemma NoDup_snoc {A : Type} (l : list A) (x : A) :
  NoDup l -> ~ In x l -> NoDup (l ++ [x]).
Proof.
  induction l as [|y l IH]; intros Hl Hx; simpl.
  - constructor; [intros [] | constructor].
  - inversion Hl as [|? ? Hy Hl']; subst. constructor.
    + intros Hi. apply in_app_or in Hi. destruct Hi as [Hi|[Hi|[]]].
      * exact (Hy Hi).
      * apply Hx. left; symmetry; exact Hi.
    + apply IH; [exact Hl'|]. intros Hi. apply Hx. right; exact Hi.
Qed.

Lemma remaining_sources_distinct
    (keep : AudioBufferSourceNode -> bool) (sources : list AudioBufferSourceNode) :
  NoDup (map node sources) -> NoDup (map node (filter keep sources)).
Proof.
  induction sources as [|s rest IH]; simpl; intros H; [constructor|].
  inversion H as [|? ? Hs Hrest]; subst.
  destruct (keep s); simpl; [|apply IH; exact Hrest].
  constructor; [|apply IH; exact Hrest].
  intros Hi. apply Hs. apply in_map_iff in Hi. destruct Hi as (y & Hy & Hin).
  apply in_map_iff. exists y. split; [exact Hy|].
  apply filter_In in Hin. apply Hin.
Qed.

Lemma nodesSound_step (st : St) (ev : Event Float32Array) :
  nodesSound st -> nodesSound (step st ev).
Proof.
  intros (N1 & N2 & N3 & N4 & N5).
  assert (Hlt : forall s, In s (sourcesRef st) -> node s < nodeCount st).
  { intros s Hs. specialize (N2 s Hs). apply in_map_iff in N2.
    destruct N2 as (c & Hc & Hin). subst s. exact (N4 c Hin). }
  destruct (step_nodes st ev)
    as [(A & B & C & D)|[(A & B & C & D)|[(b & w & C & D & Hsrc)|(n & A & B & C & D)]]];
    unfold nodesSound.
  - rewrite A, B, C, D. repeat split; assumption.
  - rewrite A, B, C, D. simpl. repeat split; try assumption.
    + constructor.
    + intros s [].
    + intros n Hn. apply in_app_or in Hn. destruct Hn as [Hn|Hn]; [exact (N5 n Hn)|].
      apply in_map_iff in Hn. destruct Hn as (s & <- & Hs). exact (Hlt s Hs).
  - set (src := {| node := nodeCount st; buffer := b |}) in *.
    assert (Fresh : ~ In (nodeCount st) (map (fun c => node (fst c)) (startCalls st))).
    { intros Hi. apply in_map_iff in Hi. destruct Hi as (c & Hc & Hin).
      specialize (N4 c Hin). lia. }
    assert (S3 : NoDup (map (fun c => node (fst c)) (startCalls st ++ [(src, w)]))).
    { rewrite map_app. simpl. apply NoDup_snoc; assumption. }
    assert (S4 : forall c, In c (startCalls st ++ [(src, w)]) ->
                           node (fst c) < S (nodeCount st)).
    { intros c Hc. apply in_app_or in Hc. destruct Hc as [Hc|[<-|[]]].
      - specialize (N4 c Hc). lia.
      - simpl. lia. }
    rewrite C, D.
    destruct Hsrc as [(A & B)|(A & B)]; rewrite A, B.
    + repeat split; try assumption.
      * rewrite map_app. simpl. apply NoDup_snoc; [exact N1|].
        intros Hi. apply in_map_iff in Hi. destruct Hi as (s & Hs & Hin).
        specialize (Hlt s Hin). lia.
      * intros s Hs. rewrite map_app. apply in_or_app.
        apply in_app_or in Hs. destruct Hs as [Hs|[<-|[]]].
        -- left. exact (N2 s Hs).
        -- right. left. reflexivity.
      * intros n Hn. specialize (N5 n Hn). lia.
    + simpl. repeat split; try assumption.
      * constructor.
      * intros s [].
      * intros n Hn. apply in_app_or in Hn. destruct Hn as [Hn|Hn].
        -- specialize (N5 n Hn). lia.
        -- apply in_map_iff in Hn. destruct Hn as (s & <- & Hs).
           apply in_app_or in Hs. destruct Hs as [Hs|[<-|[]]].
           ++ specialize (Hlt s Hs). lia.
           ++ simpl. lia.
  - rewrite A, B, C, D. repeat split; try assumption.
    + apply remaining_sources_distinct. exact N1.
    + intros s Hs. apply filter_In in Hs. apply N2. apply Hs.
Qed.

Lemma nodesSound_run (evs : list (Event Float32Array)) :
  forall st : St, nodesSound st -> nodesSound (run st evs).
Proof.
  induction evs as [|ev evs IH]; intros st H; simpl; [exact H|].
  apply IH, nodesSound_step, H.
Qed.

(** X6.  In every state the component reaches, the nodes of [sourcesRef]
    are distinct nodes that have been started, no node has been started
    twice, and the ended event of a node of [sourcesRef] removes that node
    and no other. *)
Theorem active_sources_are_started_nodes
    (h : Host) (evs : list (Event Float32Array)) :
  let st := run (mount Blob h) evs in
  NoDup (map node (sourcesRef st)) /\
  (forall s, In s (sourcesRef st) -> exists w, In (s, w) (startCalls st)) /\
  NoDup (map (fun c => node (fst c)) (startCalls st)) /\
  (forall s s',
      In s (sourcesRef st) ->
      (In s' (sourcesRef (step st (Onended (node s)))) <->
       In s' (sourcesRef st) /\ s' <> s)).
Proof.
  intros st.
  assert (N : nodesSound st).
  { apply nodesSound_run. unfold nodesSound; simpl.
    repeat split; try constructor; intros ? []. }
  destruct N as (N1 & N2 & N3 & N4 & N5).
  refine (conj N1 (conj _ (conj N3 _))).
  - intros s Hs. specialize (N2 s Hs). apply in_map_iff in N2.
    destruct N2 as ([s0 w] & Hc & Hin). simpl in Hc. subst s0.
    exists w. exact Hin.
  - intros s s' Hs.
    assert (Hlt : node s < nodeCount st).
    { specialize (N2 s Hs). apply in_map_iff in N2.
      destruct N2 as (c & Hc & Hin). subst s. exact (N4 c Hin). }
    assert (Inj : forall a, In a (sourcesRef st) -> node a = node s -> a = s).
    { clear - N1 Hs. revert N1 Hs. generalize (sourcesRef st) as l.
      induction l as [|x l IH]; intros N1 Hs a Ha Heq; [contradiction|].
      simpl in N1. inversion N1 as [|? ? Hx Hl]; subst.
      destruct Hs as [->|Hs], Ha as [->|Ha]; auto.
      - exfalso. apply Hx. rewrite <- Heq. apply in_map. exact Ha.
      - exfalso. apply Hx. rewrite Heq. apply in_map. exact Hs. }
    simpl. apply Nat.ltb_lt in Hlt. rewrite Hlt.
    assert (E : sourcesRef (onended (node s) st)
                = filter (fun a => negb (Nat.eqb (node a) (node s))) (sourcesRef st)).
    { unfold onended. destruct (filter _ (sourcesRef st)) eqn:Hf; simpl;
        rewrite ?Hf; reflexivity. }
    rewrite E, filter_In. split.
    + intros [Hin Hne]. split; [exact Hin|].
      intros ->. rewrite Nat.eqb_refl in Hne. discriminate.
    + intros [Hin Hne]. split; [exact Hin|].
      destruct (Nat.eqb (node s') (node s)) eqn:Hq; [|reflexivity].
      exfalso. apply Hne. apply Inj; [exact Hin|]. apply Nat.eqb_eq. exact Hq.
Qed.

(** X7.  When the ended event of every node of [sourcesRef] has been
    delivered, in any order and with repetitions, [sourcesRef] is empty
    and the status is [listening]. *)
Theorem all_sources_ended_is_listening (ns : list nat) :
  forall st : St,
    ns <> [] ->
    Forall (fun n => n < nodeCount st) ns ->
    (forall s, In s (sourcesRef st) -> In (node s) ns) ->
    let st' := run st (map (@Onended TB Float32Array) ns) in
    sourcesRef st' = [] /\ status st' = listening.
Proof.
  induction ns as [|n ns IH]; intros st Hne Hlt Hall; [congruence|].
  inversion Hlt as [|? ? Hn Hns]; subst.
  intros st'. subst st'.
  change (run st (map (@Onended TB Float32Array) (n :: ns)))
    with (run (step st (Onended n)) (map (@Onended TB Float32Array) ns)).
  assert (E : step st (Onended n) = onended n st).
  { simpl. apply Nat.ltb_lt in Hn. rewrite Hn. reflexivity. }
  assert (Es : sourcesRef (onended n st)
               = filter (fun a => negb (Nat.eqb (node a) n)) (sourcesRef st)).
  { unfold onended. destruct (filter _ (sourcesRef st)) eqn:Hf; simpl;
      rewrite ?Hf; reflexivity. }
  assert (Ec : nodeCount (onended n st) = nodeCount st).
  { unfold onended. destruct (filter _ (sourcesRef st)); reflexivity. }
  rewrite E.
  destruct ns as [|n' ns'].
  - simpl.
    assert (Hf : filter (fun a => negb (Nat.eqb (node a) n)) (sourcesRef st) = []).
    { clear - Hall. induction (sourcesRef st) as [|x l IHl]; simpl; [reflexivity|].
      destruct (Hall x (or_introl eq_refl)) as [<-|[]].
      rewrite Nat.eqb_refl. simpl. apply IHl.
      intros s Hs. apply Hall. right; exact Hs. }
    unfold onended. rewrite Hf. simpl. split; reflexivity.
  - apply IH.
    + discriminate.
    + rewrite Ec. exact Hns.
    + intros s Hs. rewrite Es in Hs. apply filter_In in Hs. destruct Hs as [Hs Hq].
      destruct (Hall s Hs) as [Heq|Hin]; [|exact Hin].
      subst n. rewrite Nat.eqb_refl in Hq. discriminate.
Qed.

(** ** Beyond the claims: a chunk that does not decode *)

(** X8.  An audio chunk that does not decode ([decode] throws, or the
    promise of [decodeAudioData] rejects) ends the invocation of
    [onmessage] where it stands: the transcript fragments of the message
    have been applied, the status is [speaking] and the running timestamp
    has been raised to the clock, but no node is started, and the
    interruption, the tool calls and the turn completion carried by the
    same message are skipped. *)
Theorem undecodable_chunk_ends_onmessage
    (st : St) (m : LiveServerMessage) (now : time) (d : string) :
  isActive st = true ->
  connectCalled st = true ->
  outputAudioContextRef st <> None ->
  audioData_of m = Some d ->
  d <> "" ->
  (decode d = None \/
   exists bytes, decode d = Some bytes /\ decodeAudioData bytes = None) ->
  let st' :=
    step (step st (Onmessage m now)) (DecodeSettled (List.length (awaiting st))) in
  status st' = speaking /\
  nextStartTimeRef st' = Math_max (nextStartTimeRef st) now /\
  userTranscript st' = userTranscript (onmessage_transcripts m st) /\
  aiTranscript st' = aiTranscript (onmessage_transcripts m st) /\
  awaiting st' = awaiting st /\
  sourcesRef st' = sourcesRef st /\
  startCalls st' = startCalls st /\
  stopCalls st' = stopCalls st /\
  commandCalls st' = commandCalls st /\
  sessionPromise st' = sessionPromise st /\
  sessionCalls st' = sessionCalls st.
Proof.
  intros Ha Hc Ho Hd Hne Hfail st'.
  assert (Hq : String.eqb d "" = false) by (apply String.eqb_neq; exact Hne).
  assert (T : isActive (onmessage_transcripts m st) = isActive st /\
              outputAudioContextRef (onmessage_transcripts m st)
                = outputAudioContextRef st /\
              nextStartTimeRef (onmessage_transcripts m st) = nextStartTimeRef st /\
              awaiting (onmessage_transcripts m st) = awaiting st /\
              sourcesRef (onmessage_transcripts m st) = sourcesRef st /\
              startCalls (onmessage_transcripts m st) = startCalls st /\
              stopCalls (onmessage_transcripts m st) = stopCalls st /\
              commandCalls (onmessage_transcripts m st) = commandCalls st /\
              sessionPromise (onmessage_transcripts m st) = sessionPromise st /\
              sessionCalls (onmessage_transcripts m st) = sessionCalls st).
  { unfold onmessage_transcripts.
    destruct (serverContent m) as [sc|]; [|repeat split].
    destruct (inputTranscription sc), (outputTranscription sc); repeat split. }
  destruct T as (T1 & T2 & T3 & T4 & T5 & T6 & T7 & T8 & T9 & T10).
  assert (E1 : step st (Onmessage m now) =
               let st1 := onmessage_transcripts m st in
               let st3 :=
                 set_nextStartTimeRef (Math_max (nextStartTimeRef st1) now)
                   (set_status speaking st1) in
               match decode d with
               | None => st3
               | Some bytes =>
                   set_awaiting (awaiting st3 ++ [(m, decodeAudioData bytes)]) st3
               end).
  { simpl. rewrite Hc. unfold onmessage. rewrite Ha, Hd. simpl.
    rewrite T2. destruct (outputAudioContextRef st); [|congruence].
    rewrite Hq. reflexivity. }
  subst st'. rewrite E1. clear E1. cbv zeta.
  set (st1 := onmessage_transcripts m st) in *.
  destruct Hfail as [Hf|(bytes & Hf & Hr)]; rewrite Hf.
  - simpl. rewrite T4, nth_error_length. simpl.
    rewrite T3, T4, T5, T6, T7, T8, T9, T10. repeat split.
  - rewrite Hr. simpl. rewrite T4, nth_error_snoc, remove_nth_snoc.
    unfold onmessage_resume. simpl.
    rewrite T3, T5, T6, T7, T8, T9, T10. repeat split.
Qed.

End OverlayFacts.

(* ================================================================== *)
(** * The overlay mounted by [App]: worked cases *)

Import Example.

(** C1 as stated fails: [toggleSearch] without arguments makes
    [handleVoiceCommand] throw on [args.enabled]; of the three calls
    [a], [b], [c] only [a] is acknowledged, and [c] never reaches the
    handler. *)
Lemma three_calls_one_response :
  let st := Example.step ready (Onmessage (toolCallMessage [call_a; call_b; call_c]) 0%Z) in
  (exists app, runCommands handleVoiceCommand [call_a] (host ready) = Some app /\
               handleVoiceCommand (fc_name call_b) (fc_args call_b) app = None) /\
  commandCalls st = [commandOf call_a; commandOf call_b] /\
  toolResponses (sessionCalls st) = [functionResponse call_a] /\
  List.length (toolResponses (sessionCalls st)) <> 3.
Proof.
  vm_compute. split; [eexists; split; reflexivity|].
  repeat split; discriminate.
Qed.

(** The batch [a], [b], [c] on the established overlay: one response, for [a]. *)
Lemma toolCalls_acknowledged_until_throw_witness :
  let step :=
    overlayStep createBlob decode decodeAudioData closeVoiceMode
      handleVoiceCommand in
  toolResponses
    (sessionCalls
       (step ready (Onmessage (toolCallMessage [call_a; call_b; call_c]) 0%Z)))
  = toolResponses (sessionCalls ready) ++ map functionResponse [call_a].
Proof.
  intros step.
  assert (Ht : toolCall (toolCallMessage [call_a; call_b; call_c])
               = Some {| functionCalls := [call_a; call_b; call_c] |})
    by reflexivity.
  assert (Hr : reachesLine85 createBlob decode decodeAudioData closeVoiceMode
                 handleVoiceCommand
                 (toolCallMessage [call_a; call_b; call_c]) ready
                 (onmessage_transcripts (toolCallMessage [call_a; call_b; call_c])
                    ready)
                 (step ready (Onmessage (toolCallMessage [call_a; call_b; call_c]) 0%Z))).
  { apply at_once; vm_compute; reflexivity. }
  assert (Hp : sessionPromise ready = fulfilled) by (vm_compute; reflexivity).
  assert (Hrun : runCommands handleVoiceCommand [call_a] (host ready)
                 = Some {| sessions :=
                             [ {| cs_id := "1700000000000"; cs_title := "New Chat";
                                  cs_messages := [];
                                  cs_updatedAt := 1700000000000 |} ];
                           currentSessionId := Some "1700000000000"%string;
                           useSearch := false;
                           isVoiceMode := true;
                           Date_now := 1700000000000 |})
    by (vm_compute; reflexivity).
  exact (proj2 (proj1 (toolCalls_acknowledged_until_throw
                         createBlob decode decodeAudioData closeVoiceMode
                         handleVoiceCommand
                         (toolCallMessage [call_a; call_b; call_c]) Ht)
                  _ _ _ Hr Hp)
           [call_a] call_b [call_c] _ eq_refl Hrun eq_refl).
Defined.

(** C10 as stated fails: [handleVoiceCommand] throws on [b], and [c],
    the third call of the batch, is never handed to it. *)
Lemma call_after_a_throw_is_not_dispatched :
  let st :=
    Example.step ready (Onmessage (toolCallMessage [call_a; call_b; call_c]) 0%Z) in
  (exists app, runCommands handleVoiceCommand [call_a] (host ready) = Some app /\
               handleVoiceCommand (fc_name call_b) (fc_args call_b) app = None) /\
  commandCalls ready = [] /\
  commandCalls st = map commandOf [call_a; call_b] /\
  List.length (commandCalls st) <> List.length [call_a; call_b; call_c].
Proof.
  vm_compute. split; [eexists; split; reflexivity|].
  repeat split; discriminate.
Qed.

(** A batch with a name that is not declared: all three calls reach
    [handleVoiceCommand] and are acknowledged with [ok]. *)
Lemma toolCalls_dispatched_unfiltered_witness :
  let step :=
    overlayStep createBlob decode decodeAudioData closeVoiceMode
      handleVoiceCommand in
  let batch := [call_a; call_undeclared; call_search] in
  let st' := step ready (Onmessage (toolCallMessage batch) 0%Z) in
  ~ In (fc_name call_undeclared) functionDeclarations /\
  commandCalls st' =
    commandCalls ready ++ map (fun fc => (fc_name fc, fc_args fc)) batch /\
  sessionCalls st' =
    sessionCalls ready ++
    map (fun fc =>
           sendToolResponse
             {| fr_id := fc_id fc; fr_name := fc_name fc; fr_result := "ok" |})
        batch.
Proof.
  intros step batch st'.
  split; [simpl; intuition discriminate|].
  assert (Ht : toolCall (toolCallMessage batch) = Some {| functionCalls := batch |})
    by reflexivity.
  assert (Hr : reachesLine85 createBlob decode decodeAudioData closeVoiceMode
                 handleVoiceCommand (toolCallMessage batch) ready
                 (onmessage_transcripts (toolCallMessage batch) ready) st').
  { apply at_once; vm_compute; reflexivity. }
  assert (Hp : sessionPromise ready = fulfilled) by (vm_compute; reflexivity).
  assert (Hrun : runCommands handleVoiceCommand batch (host ready)
                 = Some {| sessions :=
                             [ {| cs_id := "1700000000000"; cs_title := "New Chat";
                                  cs_messages := [];
                                  cs_updatedAt := 1700000000000 |} ];
                           currentSessionId := Some "1700000000000"%string;
                           useSearch := true;
                           isVoiceMode := true;
                           Date_now := 1700000000000 |})
    by (vm_compute; reflexivity).
  destruct (proj1 (proj1 (toolCalls_dispatched_unfiltered
                            createBlob decode decodeAudioData closeVoiceMode
                            handleVoiceCommand)
                     _ _ _ _ _ Ht Hr Hp) _ Hrun)
    as (A & _ & C).
  split; [exact A | exact C].
Defined.

(** C2 fails on the code.  The mute button is clicked, so [isMuted] is
    [true]; the two frames captured afterwards are handed to the session
    all the same, because line 45 reads the [isMuted] of the first
    render. *)
Theorem muted_frames_reach_the_session :
  let st :=
    Example.run ready [ClickMute; Onaudioprocess "frame1"; Onaudioprocess "frame2"] in
  isMuted st = true /\
  isMuted_closure st = false /\
  uplink (sessionCalls st) = ["frame1"; "frame2"].
Proof. vm_compute. repeat split. Qed.

(** C3 as stated fails: with one node playing and the clock of the device
    at 8, the interruption leaves the running timestamp at 0. *)
Lemma interrupt_resets_clock_to_zero :
  let st := Example.step playing (Onmessage interruptedMessage 8%Z) in
  map node (sourcesRef playing) = [0] /\
  stopCalls st = [0] /\
  sourcesRef st = [] /\
  nextStartTimeRef st = 0%Z /\
  nextStartTimeRef st <> 8%Z.
Proof. vm_compute. repeat split; discriminate. Qed.

(** The interruption of the playing node. *)
Lemma interrupted_flushes_playback_witness :
  let step :=
    overlayStep createBlob decode decodeAudioData closeVoiceMode
      handleVoiceCommand in
  let st' := step playing (Onmessage interruptedMessage 8%Z) in
  stopCalls st' = stopCalls playing ++ [0] /\
  sourcesRef st' = [] /\
  nextStartTimeRef st' = 0%Z.
Proof.
  intros step st'.
  assert (Hr : reachesLine85 createBlob decode decodeAudioData closeVoiceMode
                 handleVoiceCommand interruptedMessage playing
                 (onmessage_transcripts interruptedMessage playing) st').
  { apply at_once; vm_compute; reflexivity. }
  destruct (interrupted_flushes_playback Hr eq_refl) as (A & _ & B & C).
  split; [|split; [exact B | exact C]].
  rewrite A. vm_compute. reflexivity.
Defined.

(** C4 as stated fails: the first fragment is appended behind a space
    too. *)
Lemma first_fragment_has_leading_space :
  let s2 :=
    Example.run ready
      [Onmessage (outputFragment "hello") 0%Z; Onmessage (outputFragment "world") 0%Z] in
  let s4 :=
    Example.run s2
      [Onmessage turnCompleteMessage 0%Z; Onmessage (outputFragment "hi") 0%Z] in
  aiTranscript ready = "" /\
  aiTranscript s2 = " hello world" /\
  aiTranscript s2 <> "hello world" /\
  aiTranscript s4 = " hi" /\
  aiTranscript s4 <> "hi".
Proof. vm_compute. repeat split; discriminate. Qed.

(** The four messages on the established overlay. *)
Lemma transcript_fragments_and_reset_witness :
  let s1 := Example.step ready (Onmessage (outputFragment "hello") 0%Z) in
  let s2 := Example.step s1 (Onmessage (outputFragment "world") 0%Z) in
  let s3 := Example.step s2 (Onmessage turnCompleteMessage 0%Z) in
  let s4 := Example.step s3 (Onmessage (outputFragment "hi") 0%Z) in
  aiTranscript s2 = " hello world" /\
  aiTranscript s3 = "" /\
  userTranscript s3 = "" /\
  aiTranscript s4 = " hi".
Proof.
  apply (transcript_fragments_and_reset
           createBlob decode decodeAudioData closeVoiceMode handleVoiceCommand
           ready "hello" "world" "hi" 0%Z 0%Z 0%Z 0%Z);
    reflexivity.
Defined.

(** C5 as stated fails: after a transport failure both audio contexts
    run, the microphone stream is live and the capture is connected. *)
Lemma error_releases_nothing :
  let st := Example.step ready Onerror in
  status st = error /\
  audioContextRef st = Some running /\
  outputAudioContextRef st = Some running /\
  stream st = um_live /\
  scriptProcessor st = true /\
  sessionCalls st = [].
Proof. vm_compute. repeat split. Qed.

(** A transport failure on the established overlay. *)
Lemma transport_error_sets_status_only_witness :
  status (Example.step ready Onerror) = error /\
  stream (Example.step ready Onerror) = stream ready.
Proof.
  pose proof (transport_error_sets_status_only
                createBlob decode decodeAudioData closeVoiceMode handleVoiceCommand
                ready eq_refl) as H.
  split; [exact (proj1 H) | exact (proj1 (proj2 (proj2 (proj2 H))))].
Defined.

(** Three chunks: the nodes play over 5-9, 9-11 and 20-23. *)
Lemma playback_is_monotonic_witness :
  exists scheduled,
    startCalls (Example.run ready threeChunks) = startCalls ready ++ scheduled /\
    map (fun c => (startOf c, endOf c)) scheduled
      = [(5, 9); (9, 11); (20, 23)]%Z /\
    (forall n c1 c2,
        nth_error scheduled n = Some c1 ->
        nth_error scheduled (S n) = Some c2 ->
        tleb (endOf c1) (startOf c2) = true) /\
    (forall i j c1 c2,
        i < j ->
        nth_error scheduled i = Some c1 ->
        nth_error scheduled j = Some c2 ->
        tleb (endOf c1) (startOf c2) = true).
Proof.
  destruct (playback_is_monotonic
              createBlob decode decodeAudioData closeVoiceMode handleVoiceCommand
              ready (evs := threeChunks))
    as (scheduled & Hs & H1 & H2).
  - constructor.
  - repeat constructor.
  - exists scheduled. split; [exact Hs|].
    assert (E : map (fun c => (startOf c, endOf c)) scheduled
                = [(5, 9); (9, 11); (20, 23)]%Z).
    { clear H1 H2. vm_compute in Hs. subst scheduled. reflexivity. }
    split; [exact E|]. split; [exact H1|].
    apply H2. clear H1 H2 E. vm_compute in Hs. subst scheduled.
    repeat constructor.
Defined.

(** The second chunk arrives at 7 while the first plays until 9: its node
    starts at 9. *)
Lemma gapless_when_continuous_witness :
  exists source,
    buffer source = Build_AudioBuffer ZTime 2%Z /\
    startCalls
      (Example.step (Example.run playing [Onmessage (audioChunk "ab") 7%Z])
         (DecodeSettled 0))
      = [] ++ [({| node := 0; buffer := Build_AudioBuffer ZTime 4%Z |}, 5%Z);
               (source, 9%Z)] /\
    startOf (source, 9%Z) = 9%Z.
Proof.
  apply (gapless_when_continuous (TB := ZTime)
           createBlob decode decodeAudioData closeVoiceMode handleVoiceCommand
           playing []
           ({| node := 0; buffer := Build_AudioBuffer ZTime 4%Z |}, 5%Z)
           (evs := [@Onmessage ZTime string (audioChunk "ab") 7%Z]) 0
           (m := audioChunk "ab")).
  - reflexivity.
  - reflexivity.
  - repeat constructor.
  - reflexivity.
Defined.

(** Unmount while the session promise is pending: at fulfilment [close]
    is called, and the frame captured later is not handed to the session. *)
Lemma deferred_close_witness :
  let st :=
    Example.run (mount string app0)
      ([GetUserMediaResolved] ++
       Unmount :: [Onopen; SessionResolved; Onaudioprocess "frame1"]) in
  sessionPromise st = fulfilled /\
  hd_error (sessionCalls st) = Some close /\
  uplink (sessionCalls st) = [] /\
  realtimeInputs (sessionCalls st) = [].
Proof.
  pose proof (deferred_close
                createBlob decode decodeAudioData closeVoiceMode handleVoiceCommand
                app0 [GetUserMediaResolved]
                [Onopen; SessionResolved; Onaudioprocess "frame1"]) as H.
  assert (Hpre : ~ In SessionResolved [@GetUserMediaResolved ZTime string])
    by (simpl; intuition discriminate).
  destruct (H Hpre) as (A & _ & C & D).
  split; [reflexivity|]. split; [apply A; reflexivity|]. split; [exact C|].
  apply D. simpl; intuition discriminate.
Defined.

(** C9 as stated fails: after the overlay is unmounted with the session
    established, the microphone stream is still live and [close] has not
    been called on the session, nor is it by anything that follows. *)
Lemma unmount_leaves_stream_and_session :
  let st := Example.step ready Unmount in
  let later :=
    Example.run st [SessionResolved; Onclose; Onended 0; Onaudioprocess "frame1"] in
  sessionPromise ready = fulfilled /\
  stream st = um_live /\
  sessionCalls st = [] /\
  stream later = um_live /\
  ~ In close (sessionCalls later).
Proof. vm_compute. repeat split. intros []. Qed.

(** Unmount after [onopen] and before the session promise is fulfilled. *)
Lemma unmount_closes_audio_contexts_witness :
  let st := Example.run (mount string app0) [GetUserMediaResolved; Onopen] in
  let st' := Example.step st Unmount in
  isActive st' = false /\
  audioContextRef st' = Some closed /\
  outputAudioContextRef st' = Some closed /\
  stream st' = um_live /\
  hd_error (sessionCalls (Example.run st' [SessionResolved])) = Some close.
Proof.
  destruct (unmount_closes_audio_contexts
              createBlob decode decodeAudioData closeVoiceMode handleVoiceCommand
              app0 [GetUserMediaResolved; Onopen])
    as (A & B & C & D & F).
  split; [exact A|]. split; [exact B|]. split; [exact C|]. split; [exact D|].
  apply F; [discriminate | reflexivity].
Defined.

(* ================================================================== *)
(** * Beyond the claims: worked cases of the overlay *)

(** The socket is open and a frame is captured while the session promise
    is pending: nothing has been called on the session. *)
Lemma session_untouched_until_fulfilled_witness :
  let st :=
    Example.run (mount string app0)
      [GetUserMediaResolved; Onopen; Onaudioprocess "frame1"] in
  sessionPromise st <> fulfilled /\ sessionCalls st = [].
Proof.
  assert (Hp : sessionPromise
                 (Example.run (mount string app0)
                    [GetUserMediaResolved; Onopen; Onaudioprocess "frame1"])
               <> fulfilled) by (vm_compute; discriminate).
  split; [exact Hp|].
  exact (session_untouched_until_fulfilled
           createBlob decode decodeAudioData closeVoiceMode handleVoiceCommand
           app0 [GetUserMediaResolved; Onopen; Onaudioprocess "frame1"] Hp).
Defined.

(** Fragments of both speakers, interleaved. *)
Lemma transcripts_accumulate_in_order_witness :
  let st' :=
    Example.run ready
      [Onmessage (inputFragment "play") 1%Z;
       Onmessage (outputFragment "Sure") 2%Z;
       Onmessage (inputFragment "jazz") 3%Z;
       Onmessage (outputFragment "thing") 4%Z] in
  userTranscript st' = " play jazz" /\ aiTranscript st' = " Sure thing".
Proof.
  exact (transcripts_accumulate_in_order
           createBlob decode decodeAudioData closeVoiceMode handleVoiceCommand
           [(true, "play", 1%Z); (false, "Sure", 2%Z);
            (true, "jazz", 3%Z); (false, "thing", 4%Z)]
           ready eq_refl eq_refl).
Defined.

(** After the cleanup, a transcript, a tool call and an audio chunk arrive. *)
Lemma unmounted_component_is_inert_witness :
  let st := Example.step ready Unmount in
  let st' :=
    Example.run st
      [Onmessage (outputFragment "late") 1%Z;
       Onmessage (toolCallMessage [call_a]) 2%Z;
       Onmessage (audioChunk "abcd") 3%Z;
       Onopen] in
  isActive st' = false /\
  userTranscript st' = userTranscript st /\
  aiTranscript st' = aiTranscript st /\
  commandCalls st' = commandCalls st /\
  startCalls st' = startCalls st /\
  nextStartTimeRef st' = nextStartTimeRef st /\
  scriptProcessor st' = scriptProcessor st.
Proof.
  exact (unmounted_component_is_inert
           createBlob decode decodeAudioData closeVoiceMode handleVoiceCommand
           [Onmessage (outputFragment "late") 1%Z;
            Onmessage (toolCallMessage [call_a]) 2%Z;
            Onmessage (audioChunk "abcd") 3%Z;
            Onopen]
           (Example.step ready Unmount) eq_refl eq_refl).
Defined.

(** Two frames are captured before the session promise is fulfilled and
    one after: the session receives the three, in the order of capture. *)
Lemma uplink_keeps_capture_order_witness :
  let st :=
    Example.run (mount string app0)
      [GetUserMediaResolved; Onopen; Onaudioprocess "f1"; Onaudioprocess "f2";
       SessionResolved; Onaudioprocess "f3"] in
  sessionPromise st = fulfilled /\
  realtimeInputs (sessionCalls st) = ["f1"; "f2"; "f3"].
Proof.
  assert (Hn : ~ In (@SessionRejected ZTime string)
                 [GetUserMediaResolved; Onopen; Onaudioprocess "f1";
                  Onaudioprocess "f2"; SessionResolved; Onaudioprocess "f3"])
    by (simpl; intuition discriminate).
  split; [reflexivity|].
  exact (proj2 (uplink_keeps_capture_order
                  createBlob decode decodeAudioData closeVoiceMode
                  handleVoiceCommand app0
                  [GetUserMediaResolved; Onopen; Onaudioprocess "f1";
                   Onaudioprocess "f2"; SessionResolved; Onaudioprocess "f3"]
                  Hn) eq_refl).
Defined.

(** Two chunks are playing; the first node ends. *)
Lemma active_sources_are_started_nodes_witness :
  let step :=
    overlayStep createBlob decode decodeAudioData closeVoiceMode
      handleVoiceCommand in
  let run :=
    overlayRun createBlob decode decodeAudioData closeVoiceMode
      handleVoiceCommand in
  let evs : list Ev :=
    [GetUserMediaResolved; Onopen; SessionResolved;
     Onmessage (audioChunk "abcd") 5%Z; DecodeSettled 0;
     Onmessage (audioChunk "ab") 7%Z; DecodeSettled 0] in
  let first := {| node := 0; buffer := Build_AudioBuffer ZTime 4%Z |} in
  let second := {| node := 1; buffer := Build_AudioBuffer ZTime 2%Z |} in
  In first (sourcesRef (run (mount string app0) evs)) /\
  (In second
      (sourcesRef (step (run (mount string app0) evs) (Onended (node first)))) <->
   In second (sourcesRef (run (mount string app0) evs)) /\ second <> first).
Proof.
  intros step run evs first second.
  assert (Hin : In first (sourcesRef (run (mount string app0) evs)))
    by (vm_compute; left; reflexivity).
  split; [exact Hin|].
  exact (proj2 (proj2 (proj2
           (active_sources_are_started_nodes
              createBlob decode decodeAudioData closeVoiceMode handleVoiceCommand
              app0 evs)))
           first second Hin).
Defined.

(** Two chunks are playing; their nodes end, the second first. *)
Lemma all_sources_ended_is_listening_witness :
  let run :=
    overlayRun createBlob decode decodeAudioData closeVoiceMode
      handleVoiceCommand in
  let st :=
    run (mount string app0)
      [GetUserMediaResolved; Onopen; SessionResolved;
       Onmessage (audioChunk "abcd") 5%Z; DecodeSettled 0;
       Onmessage (audioChunk "ab") 7%Z; DecodeSettled 0] in
  let st' := run st (map (@Onended ZTime string) [1; 0]) in
  status st = speaking /\ sourcesRef st' = [] /\ status st' = listening.
Proof.
  intros run st st'.
  split; [vm_compute; reflexivity|].
  apply (all_sources_ended_is_listening
           createBlob decode decodeAudioData closeVoiceMode handleVoiceCommand
           (ns := [1; 0]) st).
  - discriminate.
  - vm_compute. repeat constructor.
  - vm_compute. intros s [E | [E | []]]; subst s; simpl; auto.
Defined.

(** A chunk that is not base64, in a message that also carries a tool
    call: the status is [speaking] and the call is neither dispatched nor
    acknowledged. *)
Lemma undecodable_chunk_ends_onmessage_witness :
  let decode := fun audioData : string =>
    if String.eqb audioData "%%%" then None else Some audioData in
  let step :=
    overlayStep createBlob decode decodeAudioData closeVoiceMode
      handleVoiceCommand in
  let m :=
    {| serverContent := serverContent (audioChunk "%%%");
       toolCall := Some {| functionCalls := [call_a] |} |} in
  let st' :=
    step (step ready (Onmessage m 5%Z))
      (DecodeSettled (List.length (awaiting ready))) in
  status st' = speaking /\
  startCalls st' = [] /\
  commandCalls st' = [] /\
  sessionCalls st' = [].
Proof.
  intros decode' step m.
  destruct (undecodable_chunk_ends_onmessage
              createBlob decode' decodeAudioData closeVoiceMode handleVoiceCommand
              ready m 5%Z (d := "%%%") eq_refl eq_refl)
    as (A & _ & _ & _ & _ & _ & B & _ & C & _ & D).
  - discriminate.
  - reflexivity.
  - discriminate.
  - left; reflexivity.
  - split; [exact A|]. split; [exact B|]. split; [exact C|exact D].
Defined.

(* ================================================================== *)
(** * Beyond the claims: the chats of [App.tsx] *)

Lemma substring_length (n : nat) (s : string) :
  (String.length (String.substring 0 n s) <= n)%nat.
Proof.
  revert s. induction n as [|n IH]; intros s.
  - destruct s; simpl; lia.
  - destruct s as [|c s]; simpl; [lia|]. specialize (IH s). lia.
Qed.

Lemma substring_startsWith (n : nat) (s : string) :
  startsWith s (String.substring 0 n s) = true.
Proof.
  unfold startsWith. revert s. induction n as [|n IH]; intros s.
  - destruct s; reflexivity.
  - destruct s as [|c s]; simpl; [reflexivity|].
    destruct (ascii_dec c c) as [_|N]; [apply IH | exfalso; apply N; reflexivity].
Qed.

Lemma addMessageToSession_absent (sessionId : string) (message : Message)
    (now : Z) (prev : list ChatSession) :
  (forall s, In s prev -> cs_id s <> sessionId) ->
  addMessageToSession sessionId message now prev = prev.
Proof.
  induction prev as [|a prev IH]; intros H; [reflexivity|].
  simpl. destruct (String.eqb (cs_id a) sessionId) eqn:E.
  - apply String.eqb_eq in E. exfalso. apply (H a); [left; reflexivity | exact E].
  - f_equal. apply IH. intros s Hs. apply H. right. exact Hs.
Qed.

Lemma addMessageToSession_cons (sessionId : string) (message : Message)
    (now : Z) (a : ChatSession) (prev : list ChatSession) :
  addMessageToSession sessionId message now (a :: prev) =
  (if String.eqb (cs_id a) sessionId
   then {| cs_id := cs_id a;
           cs_title := titleAfter a message;
           cs_messages := cs_messages a ++ [message];
           cs_updatedAt := now |}
   else a) :: addMessageToSession sessionId message now prev.
Proof. reflexivity. Qed.

Lemma addMessageToSession_ids (sessionId : string) (message : Message)
    (now : Z) (prev : list ChatSession) :
  map cs_id (addMessageToSession sessionId message now prev) = map cs_id prev.
Proof.
  induction prev as [|a prev IH]; [reflexivity|].
  simpl. rewrite <- IH. f_equal.
  destruct (String.eqb (cs_id a) sessionId); reflexivity.
Qed.

Lemma messagesOf_addMessageToSession (i sessionId : string) (message : Message)
    (now : Z) (prev : list ChatSession) :
  messagesOf (Some i) (addMessageToSession sessionId message now prev) =
  if String.eqb i sessionId
  then match find (fun s => String.eqb (cs_id s) i) prev with
       | Some s => cs_messages s ++ [message]
       | None => []
       end
  else messagesOf (Some i) prev.
Proof.
  unfold messagesOf.
  induction prev as [|a prev IH]; simpl.
  - destruct (String.eqb i sessionId); reflexivity.
  - destruct (String.eqb (cs_id a) sessionId) eqn:E1; simpl;
      destruct (String.eqb (cs_id a) i) eqn:E2; simpl.
    + apply String.eqb_eq in E1, E2.
      assert (E : String.eqb i sessionId = true)
        by (apply String.eqb_eq; congruence).
      rewrite E. reflexivity.
    + exact IH.
    + apply String.eqb_eq in E2. apply String.eqb_neq in E1.
      assert (E : String.eqb i sessionId = false)
        by (apply String.eqb_neq; congruence).
      rewrite E. reflexivity.
    + exact IH.
Qed.

(** X9.  [addMessageToSession] keeps the chats, their ids and their order.
    The messages of a chat with another id are unchanged, those of the chat
    with the given id are extended by the message at the end; when no chat
    has the id, nothing changes and the message is kept nowhere. *)
Theorem addMessageToSession_extends_that_chat
    (sessionId : string) (message : Message) (now : Z) (prev : list ChatSession) :
  let next := addMessageToSession sessionId message now prev in
  map cs_id next = map cs_id prev /\
  (forall i, i <> sessionId -> messagesOf (Some i) next = messagesOf (Some i) prev) /\
  (forall s, find (fun s => String.eqb (cs_id s) sessionId) prev = Some s ->
             messagesOf (Some sessionId) next = cs_messages s ++ [message]) /\
  ((forall s, In s prev -> cs_id s <> sessionId) -> next = prev).
Proof.
  intros next. unfold next.
  split; [apply addMessageToSession_ids|].
  split; [|split].
  - intros i Hi. rewrite messagesOf_addMessageToSession.
    apply String.eqb_neq in Hi. rewrite Hi. reflexivity.
  - intros s Hs. rewrite messagesOf_addMessageToSession.
    rewrite String.eqb_refl, Hs. reflexivity.
  - apply addMessageToSession_absent.
Qed.

Lemma addMessageToSession_extends_that_chat_witness :
  let first := userMessage "hello" None 3 in
  let answer :=
    {| msg_id := "4"; msg_role := MODEL;
       msg_parts := [ {| mp_text := Some "Hi!"%string; mp_inlineData := None |} ];
       msg_timestamp := 4 |} in
  let prev :=
    [ {| cs_id := "7"; cs_title := "Trip"; cs_messages := []; cs_updatedAt := 7 |};
      {| cs_id := "3"; cs_title := "hello"; cs_messages := [first];
         cs_updatedAt := 3 |} ] in
  let next := addMessageToSession "3" answer 4 prev in
  messagesOf (Some "3"%string) next = [first; answer] /\
  messagesOf (Some "7"%string) next = [] /\
  addMessageToSession "5" answer 4 prev = prev.
Proof.
  intros first answer prev next.
  destruct (addMessageToSession_extends_that_chat "3" answer 4 prev)
    as (_ & A & B & _).
  destruct (addMessageToSession_extends_that_chat "5" answer 4 prev)
    as (_ & _ & _ & C).
  split; [exact (B _ eq_refl)|]. split.
  - assert (N : "7"%string <> "3"%string) by discriminate.
    exact (A "7"%string N).
  - apply C. intros s [<- | [<- | []]]; discriminate.
Defined.

(** X10.  The title a chat gets with a message is its old title, or
    ['New Chat'], or the first 30 code units of the text of the first part
    of the message.  It changes only for a message of the user and only
    while the chat is empty or still titled ['New Chat'], and a changed
    title is never empty and never longer than 30. *)
Theorem title_is_cut_from_the_first_user_text
    (session : ChatSession) (message : Message) :
  titleAfter session message <> cs_title session ->
  msg_role message = USER /\
  (cs_messages session = [] \/ cs_title session = "New Chat") /\
  titleAfter session message <> "" /\
  (String.length (titleAfter session message) <= 30)%nat /\
  (titleAfter session message = "New Chat" \/
   exists part rest t,
     msg_parts message = part :: rest /\ mp_text part = Some t /\
     titleAfter session message = String.substring 0 30 t /\
     startsWith t (titleAfter session message) = true).
Proof.
  unfold titleAfter.
  destruct (Nat.eqb (List.length (cs_messages session)) 0) eqn:E0;
    destruct (String.eqb (cs_title session) "New Chat") eqn:E1;
    destruct (msg_role message) eqn:Er; simpl;
    try (intros H; exfalso; apply H; reflexivity).
  all: assert (Hc : cs_messages session = [] \/ cs_title session = "New Chat")
    by (first [ right; apply String.eqb_eq; exact E1
              | left; apply Nat.eqb_eq in E0;
                destruct (cs_messages session); [reflexivity | discriminate E0] ]).
  all: intros _; split; [reflexivity|]; split; [exact Hc|].
  all: destruct (msg_parts message) as [|part rest];
    [ split; [discriminate|]; split; [simpl; lia|]; left; reflexivity |].
  all: destruct (mp_text part) as [t|] eqn:Et;
    [| split; [discriminate|]; split; [simpl; lia|]; left; reflexivity ].
  all: destruct (String.eqb (String.substring 0 30 t) "") eqn:Es;
    [ split; [discriminate|]; split; [simpl; lia|]; left; reflexivity |].
  all: split; [apply String.eqb_neq; exact Es|];
    split; [apply substring_length|];
    right; exists part, rest, t;
    split; [reflexivity|]; split; [exact Et|]; split; [reflexivity|];
    apply substring_startsWith.
Qed.

Lemma title_is_cut_from_the_first_user_text_witness :
  let session :=
    {| cs_id := "1"; cs_title := "New Chat"; cs_messages := []; cs_updatedAt := 0 |} in
  let message :=
    userMessage "Plan a three week trip to Japan in spring" None 5 in
  titleAfter session message = "Plan a three week trip to Japa" /\
  (String.length (titleAfter session message) <= 30)%nat.
Proof.
  intros session message.
  assert (H : titleAfter session message <> cs_title session)
    by (vm_compute; discriminate).
  split; [reflexivity|].
  exact (proj1 (proj2 (proj2 (proj2
           (@title_is_cut_from_the_first_user_text session message H))))).
Defined.

(** X11.  The handler of voice commands throws exactly for [toggleSearch]
    with arguments [undefined] or [null].  When it returns, the voice mode
    is as before.  [createNewChat] puts an empty chat titled ['New Chat']
    before the others, which it keeps as they are, and opens it, so that
    no message is shown; it keeps the search flag.  [toggleSearch] sets
    the search flag to the truthiness of [args.enabled] and changes
    nothing else; any other command changes nothing. *)
Theorem handleVoiceCommand_outcomes (command : string) (args : JsValue) (app : App) :
  (handleVoiceCommand command args app = None <->
   command = "toggleSearch"%string /\ (args = JsUndefined \/ args = JsNull)) /\
  (forall app', handleVoiceCommand command args app = Some app' ->
     isVoiceMode app' = isVoiceMode app /\
     (command = "createNewChat"%string ->
      sessions app' =
        {| cs_id := Number_toString (Date_now app);
           cs_title := "New Chat";
           cs_messages := [];
           cs_updatedAt := Date_now app |} :: sessions app /\
      currentSessionId app' = Some (Number_toString (Date_now app)) /\
      messagesShown app' = [] /\
      useSearch app' = useSearch app) /\
     (command <> "createNewChat"%string ->
      sessions app' = sessions app /\
      currentSessionId app' = currentSessionId app) /\
     (command = "toggleSearch"%string ->
      exists enabled,
        js_get args "enabled" = Some enabled /\
        useSearch app' = js_truthy enabled) /\
     (command <> "createNewChat"%string -> command <> "toggleSearch"%string ->
      app' = app)).
Proof.
  unfold handleVoiceCommand.
  destruct (String.eqb command "createNewChat") eqn:E1.
  - apply String.eqb_eq in E1. split.
    + split; [discriminate|]. intros [H _]. subst command. discriminate H.
    + intros app' H. injection H as <-. simpl.
      split; [reflexivity|]. split; [|split; [|split]].
      * intros _. unfold messagesShown, messagesOf. simpl.
        rewrite String.eqb_refl. repeat split; reflexivity.
      * intros N. exfalso. apply N. exact E1.
      * intros N. subst command. discriminate N.
      * intros N. exfalso. apply N. exact E1.
  - apply String.eqb_neq in E1.
    destruct (String.eqb command "toggleSearch") eqn:E2.
    + apply String.eqb_eq in E2. split.
      * destruct args; simpl;
          try (split; [discriminate | intros [_ [H|H]]; discriminate H]);
          try (split; [intros _; split; [exact E2 | auto] | reflexivity]).
        destruct (assoc "enabled" props);
          (split; [discriminate | intros [_ [H|H]]; discriminate H]).
      * intros app' H.
        destruct (js_get args "enabled") as [enabled|]; [|discriminate H].
        injection H as <-. simpl.
        split; [reflexivity|]. split; [|split; [|split]].
        -- intros N. exfalso. apply E1. exact N.
        -- intros _. split; reflexivity.
        -- intros _. exists enabled. split; reflexivity.
        -- intros _ N. exfalso. apply N. exact E2.
    + apply String.eqb_neq in E2. split.
      * split; [discriminate|]. intros [H _]. exfalso. apply E2. exact H.
      * intros app' H. injection H as <-.
        split; [reflexivity|]. split; [|split; [|split]].
        -- intros N. exfalso. apply E1. exact N.
        -- intros _. split; reflexivity.
        -- intros N. exfalso. apply E2. exact N.
        -- intros _ _. reflexivity.
Qed.

Lemma handleVoiceCommand_outcomes_witness :
  handleVoiceCommand "toggleSearch" JsNull app0 = None /\
  exists app',
    handleVoiceCommand "createNewChat" JsUndefined app0 = Some app' /\
    sessions app' =
      [ {| cs_id := "1700000000000"; cs_title := "New Chat"; cs_messages := [];
           cs_updatedAt := 1700000000000 |} ] /\
    currentSessionId app' = Some "1700000000000"%string /\
    messagesShown app' = [].
Proof.
  split.
  - apply (proj1 (handleVoiceCommand_outcomes "toggleSearch" JsNull app0)).
    split; [reflexivity | right; reflexivity].
  - eexists. split; [reflexivity|].
    destruct (proj2 (handleVoiceCommand_outcomes "createNewChat" JsUndefined app0)
                _ eq_refl) as (_ & H & _).
    destruct (H eq_refl) as (S0 & A & B & _).
    split; [exact S0|]. split; [exact A | exact B].
Defined.

Lemma sessions_after_onDelete (id : string) (app : App) :
  forall s, In s (sessions (onDelete id app)) -> cs_id s <> id.
Proof.
  intros s Hs. unfold onDelete, setSessions in Hs. simpl in Hs.
  apply filter_In in Hs. destruct Hs as [_ Hs].
  apply String.eqb_neq. destruct (String.eqb (cs_id s) id); [discriminate Hs | reflexivity].
Qed.

Lemma find_absent (id : string) (ss : list ChatSession) :
  (forall s, In s ss -> cs_id s <> id) ->
  find (fun s => String.eqb (cs_id s) id) ss = None.
Proof.
  induction ss as [|a ss IH]; intros H; [reflexivity|].
  simpl. destruct (String.eqb (cs_id a) id) eqn:E.
  - apply String.eqb_eq in E. exfalso. apply (H a); [left; reflexivity | exact E].
  - apply IH. intros s Hs. apply H. right. exact Hs.
Qed.

(** X12.  Deleting the open chat leaves [currentSessionId] on the deleted
    id: nothing is shown, and a message sent then is put in no chat and
    opens no new one; the state is the same before and after, and an answer
    added later for that id is dropped as well. *)
Theorem message_after_deleting_the_open_chat_is_dropped
    (id text : string) (fileData : option (string * string)) (app : App) :
  currentSessionId app = Some id ->
  id <> "" ->
  let app' := onDelete id app in
  currentSessionId app' = Some id /\
  messagesShown app' = [] /\
  handleSendMessage_start text fileData app' = (id, app') /\
  (forall answer now,
      setSessions (addMessageToSession id answer now) app' = app').
Proof.
  intros Hc Hid app'.
  pose proof (@sessions_after_onDelete id app) as Habs. fold app' in Habs.
  assert (Hc' : currentSessionId app' = Some id) by exact Hc.
  assert (Hset : forall answer now,
             setSessions (addMessageToSession id answer now) app' = app').
  { intros answer now. unfold setSessions.
    rewrite (@addMessageToSession_absent id answer now (sessions app') Habs).
    reflexivity. }
  split; [exact Hc'|]. split; [|split].
  - unfold messagesShown, messagesOf. rewrite Hc'.
    rewrite (@find_absent id (sessions app') Habs). reflexivity.
  - unfold handleSendMessage_start. rewrite Hc'.
    apply String.eqb_neq in Hid. rewrite Hid. rewrite Hset. reflexivity.
  - exact Hset.
Qed.

Lemma message_after_deleting_the_open_chat_is_dropped_witness :
  let app :=
    {| sessions :=
         [ {| cs_id := "7"; cs_title := "Trip"; cs_messages := []; cs_updatedAt := 7 |};
           {| cs_id := "3"; cs_title := "Cats"; cs_messages := []; cs_updatedAt := 3 |} ];
       currentSessionId := Some "7";
       useSearch := false; isVoiceMode := false; Date_now := 9 |} in
  let app' := onDelete "7" app in
  map cs_id (sessions app') = ["3"] /\
  handleSendMessage_start "hello" None app' = ("7", app').
Proof.
  intros app app'. split; [reflexivity|].
  assert (N : "7"%string <> ""%string) by discriminate.
  exact (proj1 (proj2 (proj2
           (@message_after_deleting_the_open_chat_is_dropped
              "7" "hello" None app eq_refl N)))).
Defined.

(** X13.  A message sent while no chat is open makes a chat, puts it
    before the others and opens it; the chat holds that message alone and
    is titled by the first 30 code units of the text, or ['New Chat'] when
    the text is empty. *)
Theorem first_message_opens_a_titled_chat
    (text : string) (fileData : option (string * string)) (app : App) :
  currentSessionId app = None ->
  (forall s, In s (sessions app) -> cs_id s <> Number_toString (Date_now app)) ->
  let id := Number_toString (Date_now app) in
  let app' := snd (handleSendMessage_start text fileData app) in
  fst (handleSendMessage_start text fileData app) = id /\
  currentSessionId app' = Some id /\
  sessions app' =
    {| cs_id := id;
       cs_title := if String.eqb (String.substring 0 30 text) "" then "New Chat"
                   else String.substring 0 30 text;
       cs_messages := [userMessage text fileData (Date_now app)];
       cs_updatedAt := Date_now app |} :: sessions app /\
  messagesShown app' = [userMessage text fileData (Date_now app)].
Proof.
  intros Hc Hfresh id app'.
  unfold app', handleSendMessage_start. rewrite Hc. simpl.
  split; [reflexivity|]. split; [reflexivity|].
  assert (Hs : addMessageToSession id (userMessage text fileData (Date_now app))
                 (Date_now app)
                 ({| cs_id := id; cs_title := "New Chat"; cs_messages := [];
                     cs_updatedAt := Date_now app |} :: sessions app)
               = {| cs_id := id;
                    cs_title := if String.eqb (String.substring 0 30 text) ""
                                then "New Chat" else String.substring 0 30 text;
                    cs_messages := [userMessage text fileData (Date_now app)];
                    cs_updatedAt := Date_now app |} :: sessions app).
  { rewrite addMessageToSession_cons. simpl cs_id. rewrite String.eqb_refl.
    rewrite (@addMessageToSession_absent id _ _ (sessions app) Hfresh).
    f_equal. unfold titleAfter. simpl.
    destruct fileData; reflexivity. }
  split.
  - exact Hs.
  - unfold messagesShown, messagesOf. simpl currentSessionId.
    change (sessions _) with
      (addMessageToSession id (userMessage text fileData (Date_now app))
         (Date_now app)
         ({| cs_id := id; cs_title := "New Chat"; cs_messages := [];
             cs_updatedAt := Date_now app |} :: sessions app)).
    rewrite Hs. simpl. rewrite String.eqb_refl. reflexivity.
Qed.

Lemma first_message_opens_a_titled_chat_witness :
  let app' := snd (handleSendMessage_start "What is a monad?" None app0) in
  currentSessionId app' = Some "1700000000000" /\
  map cs_title (sessions app') = ["What is a monad?"].
Proof.
  intros app'.
  assert (F : forall s, In s (sessions app0) ->
                        cs_id s <> Number_toString (Date_now app0))
    by (intros s []).
  destruct (@first_message_opens_a_titled_chat "What is a monad?" None app0 eq_refl F)
    as (_ & A & B & _).
  split; [exact A|]. fold app' in B. rewrite B. reflexivity.
Defined.

(** X14.  A message sent while a chat is open goes to that chat: the open
    chat stays open, no chat is made or moved, and the messages shown are
    those shown before followed by the message. *)
Theorem message_is_appended_to_the_open_chat
    (id text : string) (fileData : option (string * string)) (app : App)
    (s : ChatSession) :
  currentSessionId app = Some id ->
  id <> "" ->
  find (fun s => String.eqb (cs_id s) id) (sessions app) = Some s ->
  let app' := snd (handleSendMessage_start text fileData app) in
  fst (handleSendMessage_start text fileData app) = id /\
  currentSessionId app' = Some id /\
  map cs_id (sessions app') = map cs_id (sessions app) /\
  messagesShown app' =
    messagesShown app ++ [userMessage text fileData (Date_now app)].
Proof.
  intros Hc Hid Hs app'.
  unfold app', handleSendMessage_start. rewrite Hc.
  apply String.eqb_neq in Hid. rewrite Hid. simpl.
  split; [reflexivity|]. split; [exact Hc|].
  split; [apply addMessageToSession_ids|].
  unfold messagesShown. simpl currentSessionId. rewrite Hc.
  simpl sessions. rewrite messagesOf_addMessageToSession.
  rewrite String.eqb_refl, Hs. unfold messagesOf. rewrite Hs. reflexivity.
Qed.

Lemma message_is_appended_to_the_open_chat_witness :
  let first := userMessage "hello" None 3 in
  let app :=
    {| sessions :=
         [ {| cs_id := "7"; cs_title := "Trip"; cs_messages := []; cs_updatedAt := 7 |};
           {| cs_id := "3"; cs_title := "hello"; cs_messages := [first];
              cs_updatedAt := 3 |} ];
       currentSessionId := Some "3";
       useSearch := false; isVoiceMode := false; Date_now := 9 |} in
  messagesShown (snd (handleSendMessage_start "and then?" None app))
  = [first; userMessage "and then?" None 9].
Proof.
  intros first app.
  assert (N : "3"%string <> ""%string) by discriminate.
  exact (proj2 (proj2 (proj2
           (@message_is_appended_to_the_open_chat
              "3" "and then?" None app
              {| cs_id := "3"; cs_title := "hello"; cs_messages := [first];
                 cs_updatedAt := 3 |}
              eq_refl N eq_refl)))).
Defined.

(* ================================================================== *)
(** * Beyond the claims: the requests of [geminiService.ts] *)

Import geminiService.

(** X15.  The request made for a text is built from the messages that
    were shown when the message was sent: the message itself, text and
    attachment, is not among its contents; for the first message of a
    chat the contents are empty.  The request has no [toolConfig], with
    the maps tool or without. *)
Theorem text_request_leaves_out_the_message
    (number : Type) (useMaps : bool) (text : string)
    (fileData : option (string * string)) (config : option GenerationConfig)
    (app : App) :
  currentSessionId app <> Some ""%string ->
  (forall s, In s (sessions app) -> cs_id s <> Number_toString (Date_now app)) ->
  let sessionId := fst (handleSendMessage_start text fileData app) in
  let request := @textRequest number useMaps text config sessionId app in
  gc_contents request = contentsOf (messagesShown app) /\
  List.length (gc_contents request) = List.length (messagesShown app) /\
  (currentSessionId app = None -> gc_contents request = []) /\
  gc_toolConfig request = None.
Proof.
  intros Hne Hfresh sessionId request.
  assert (Hh : messagesOf (Some sessionId) (sessions app) = messagesShown app).
  { unfold sessionId, handleSendMessage_start, messagesShown.
    destruct (currentSessionId app) as [id|] eqn:Hc.
    - destruct (String.eqb id "") eqn:E.
      + apply String.eqb_eq in E. subst id. exfalso. apply Hne. reflexivity.
      + reflexivity.
    - simpl. rewrite (@find_absent _ (sessions app) Hfresh). reflexivity. }
  assert (Hcont : gc_contents request = contentsOf (messagesShown app)).
  { change (gc_contents request)
      with (contentsOf (messagesOf (Some sessionId) (sessions app))).
    rewrite Hh. reflexivity. }
  split; [exact Hcont|]. split; [|split].
  - rewrite Hcont. unfold contentsOf. apply length_map.
  - intros Hc. rewrite Hcont. unfold messagesShown. rewrite Hc. reflexivity.
  - unfold request, textRequest, generateGeminiResponse. simpl.
    destruct useMaps; reflexivity.
Qed.

Lemma text_request_leaves_out_the_message_witness :
  let sessionId := fst (handleSendMessage_start "What is a monad?" None app0) in
  gc_contents (@textRequest Z true "What is a monad?" None sessionId app0) = [].
Proof.
  intros sessionId.
  assert (N : currentSessionId app0 <> Some ""%string) by discriminate.
  assert (F : forall s, In s (sessions app0) ->
                        cs_id s <> Number_toString (Date_now app0))
    by (intros s []).
  exact (proj1 (proj2 (proj2
           (@text_request_leaves_out_the_message
              Z true "What is a monad?" None None app0 N F))) eq_refl).
Defined.

(** X16.  The request of [generateGeminiResponse] does not depend on its
    [prompt]: it has one content for each message of the history.  Its
    tools are those of the flags, search before maps, and absent when
    there is none; a [toolConfig] comes only with the maps tool; the
    thinking budget is 32768 with thinking and 0 without; the model is
    [gemini-2.5-flash] exactly for maps without thinking and the flash
    preview exactly when no flag is set. *)
Theorem text_request_follows_the_flags
    (number : Type) (prompt : string) (history : list Message)
    (options : GenerationOptions number) :
  let r := generateGeminiResponse prompt history options in
  (forall prompt', generateGeminiResponse prompt' history options = r) /\
  List.length (gc_contents r) = List.length history /\
  (gc_tools r = None <->
   opt_useSearch options = false /\ opt_useMaps options = false) /\
  (forall ts, gc_tools r = Some ts ->
     ts = (if opt_useSearch options then [googleSearch] else [])
          ++ (if opt_useMaps options then [googleMaps] else [])) /\
  (gc_toolConfig r <> None ->
   exists ts, gc_tools r = Some ts /\ In googleMaps ts) /\
  (gc_thinkingBudget r = 32768%Z <-> opt_useThinking options = true) /\
  (gc_thinkingBudget r = 0%Z <-> opt_useThinking options = false) /\
  (gc_model r = "gemini-2.5-flash"%string <->
   opt_useThinking options = false /\ opt_useMaps options = true) /\
  (gc_model r = "gemini-3-flash-preview"%string <->
   opt_useThinking options = false /\ opt_useMaps options = false /\
   opt_useSearch options = false).
Proof.
  intros r. unfold r, generateGeminiResponse.
  split; [reflexivity|].
  split; [simpl; unfold contentsOf; apply length_map|].
  destruct options as [search maps think loc size ratio]. simpl.
  destruct search, maps, think; simpl;
    repeat match goal with
           | |- _ /\ _ => split
           | |- _ <-> _ => split
           end;
    try (intros; discriminate);
    try (intros [? ?]; discriminate);
    try (intros (? & ? & ?); discriminate);
    try (intros; split; reflexivity);
    try (intros; repeat split; reflexivity);
    try reflexivity;
    try (intros ts H; injection H as <-; reflexivity);
    try (intros N; exfalso; apply N; reflexivity);
    try (intros _; eexists; split; [reflexivity | simpl; auto]).
Qed.

Lemma text_request_follows_the_flags_witness :
  let options :=
    {| opt_useSearch := false; opt_useMaps := true; opt_useThinking := true;
       opt_location := Some (48, 11)%Z; opt_imageSize := None;
       opt_aspectRatio := None |} in
  let r := generateGeminiResponse "where am I?" [] options in
  gc_model r = "gemini-3-pro-preview"%string /\
  exists ts, gc_tools r = Some ts /\ In googleMaps ts.
Proof.
  intros options r. split; [reflexivity|].
  apply (proj1 (proj2 (proj2 (proj2 (proj2
           (text_request_follows_the_flags "where am I?" [] options)))))).
  discriminate.
Defined.

(** X17.  The request for an image uses the pro model exactly when [App]
    has asked for a key: for a size other than [1K], or with search.  The
    search tool is sent exactly with search, and so only to the pro model;
    a size is sent exactly to the pro model, and is then not empty; the
    aspect ratio is never empty. *)
Theorem image_request_matches_the_key_check
    (number : Type) (text : string) (fileData : option (string * string))
    (config : option GenerationConfig) (app : App) :
  let r := @imageRequest number text fileData config app in
  (gi_model r = "gemini-3-pro-image-preview"%string <->
   imageIsPro config app = true) /\
  (gi_model r = "gemini-2.5-flash-image"%string <->
   imageIsPro config app = false) /\
  (gi_tools r = Some [google_search] <-> useSearch app = true) /\
  (gi_tools r = None <-> useSearch app = false) /\
  (gi_tools r <> None -> gi_model r = "gemini-3-pro-image-preview"%string) /\
  (gi_imageSize r <> None <-> imageIsPro config app = true) /\
  (forall size, gi_imageSize r = Some size ->
     size <> ""%string /\ (useSearch app = false -> size <> "1K"%string)) /\
  gi_aspectRatio r <> ""%string.
Proof.
  intros r.
  assert (Hpro : isPro
                   {| opt_useSearch := useSearch app;
                      opt_useMaps := false;
                      opt_useThinking := false;
                      opt_location := @None (number * number);
                      opt_imageSize :=
                        match config with Some c => Some (imageSize c) | None => None end;
                      opt_aspectRatio :=
                        match config with Some c => Some (aspectRatio c) | None => None end |}
                 = imageIsPro config app).
  { unfold isPro, imageIsPro. simpl.
    destruct config as [c|]; [|reflexivity].
    destruct (imageSize c); reflexivity. }
  unfold r, imageRequest, generateImage. rewrite Hpro. simpl.
  assert (Hs : useSearch app = true -> imageIsPro config app = true).
  { intros H. unfold imageIsPro. rewrite H. apply orb_true_r. }
  split; [|split; [|split; [|split; [|split; [|split; [|split]]]]]].
  - destruct (imageIsPro config app); split; intros H;
      first [reflexivity | discriminate H].
  - destruct (imageIsPro config app); split; intros H;
      first [reflexivity | discriminate H].
  - destruct (useSearch app) eqn:E; simpl.
    + rewrite (Hs eq_refl). split; reflexivity.
    + split; intros H; discriminate H.
  - destruct (useSearch app) eqn:E; simpl.
    + rewrite (Hs eq_refl). split; intros H; discriminate H.
    + split; reflexivity.
  - destruct (useSearch app) eqn:E; simpl.
    + rewrite (Hs eq_refl). reflexivity.
    + intros N. exfalso. apply N. reflexivity.
  - destruct (imageIsPro config app); split; intros H;
      first [reflexivity | discriminate | (exfalso; apply H; reflexivity) | discriminate H].
  - intros size H.
    destruct (imageIsPro config app) eqn:Ep; [|discriminate H].
    injection H as <-. unfold imageIsPro in Ep.
    destruct config as [c|]; simpl.
    + destruct (imageSize c) as [|ch rest] eqn:Ei; simpl.
      * split; [discriminate|]. intros Hu. rewrite Hu in Ep. discriminate Ep.
      * split; [discriminate|]. intros Hu. rewrite Hu in Ep.
        rewrite orb_false_r in Ep. apply String.eqb_neq.
        destruct (String.eqb (String ch rest) "1K"); [discriminate Ep | reflexivity].
    + split; [discriminate|]. intros Hu. rewrite Hu in Ep. discriminate Ep.
  - destruct config as [c|]; simpl; [|discriminate].
    destruct (aspectRatio c); discriminate.
Qed.

Lemma image_request_matches_the_key_check_witness :
  let searching :=
    {| sessions := []; currentSessionId := None; useSearch := true;
       isVoiceMode := false; Date_now := 9 |} in
  let r := @imageRequest Z "/image a red fox" None (Some (InputArea.config InputArea.initial)) searching in
  gi_model r = "gemini-3-pro-image-preview"%string /\
  gi_imageSize r = Some "1K"%string.
Proof.
  intros searching r. split; [|reflexivity].
  apply (proj1 (proj2 (proj2 (proj2 (proj2
           (@image_request_matches_the_key_check
              Z "/image a red fox" None
              (Some (InputArea.config InputArea.initial)) searching)))))).
  discriminate.
Defined.

(** ** Strings *)

Lemma prefix_empty (s : string) : String.prefix "" s = true.
Proof. destruct s; reflexivity. Qed.

Lemma includes_cons (c : ascii) (s t : string) :
  includes (String c s) t = String.prefix t (String c s) || includes s t.
Proof. reflexivity. Qed.

Lemma includes_unit_cons (sep c : ascii) (s : string) :
  includes (String c s) (String sep EmptyString) = false ->
  Ascii.eqb c sep = false /\ includes s (String sep EmptyString) = false.
Proof.
  rewrite includes_cons. intros H. apply orb_false_elim in H.
  destruct H as [H1 H2]. split; [|exact H2].
  simpl in H1. destruct (ascii_dec sep c) as [E|N];
    [rewrite prefix_empty in H1; discriminate H1|].
  apply Ascii.eqb_neq. intros E. apply N. symmetry. exact E.
Qed.

Lemma split_without_separator (sep : ascii) (s : string) :
  includes s (String sep EmptyString) = false -> split sep s = [s].
Proof.
  induction s as [|c s IH]; intros H; [reflexivity|].
  apply includes_unit_cons in H. destruct H as [Hc Hs].
  simpl. rewrite Hc, (IH Hs). reflexivity.
Qed.

Lemma split_head (sep : ascii) (s : string) :
  exists piece pieces,
    split sep s = piece :: pieces /\
    startsWith s piece = true /\
    includes piece (String sep EmptyString) = false /\
    (pieces = [] -> piece = s) /\
    (pieces <> [] -> startsWith s (piece ++ String sep EmptyString) = true).
Proof.
  unfold startsWith.
  induction s as [|c s IH].
  - exists EmptyString, []. simpl. repeat split; try reflexivity.
    intros N. exfalso. apply N. reflexivity.
  - simpl. destruct (Ascii.eqb c sep) eqn:E.
    + apply Ascii.eqb_eq in E. subst c.
      exists EmptyString, (split sep s).
      split; [reflexivity|]. split; [reflexivity|]. split; [reflexivity|].
      split.
      * intros H. destruct s; simpl in H; [discriminate H|].
        destruct (Ascii.eqb a sep); [discriminate H|].
        destruct (split sep s); discriminate H.
      * intros _. simpl. destruct (ascii_dec sep sep) as [_|N];
          [apply prefix_empty | exfalso; apply N; reflexivity].
    + destruct IH as (piece & pieces & Hsp & Hpre & Hinc & Hone & Hmore).
      rewrite Hsp. exists (String c piece), pieces.
      split; [reflexivity|]. split; [|split; [|split]].
      * simpl. destruct (ascii_dec c c) as [_|N];
          [exact Hpre | exfalso; apply N; reflexivity].
      * simpl. destruct (ascii_dec sep c) as [E'|_].
        -- subst c. rewrite Ascii.eqb_refl in E. discriminate E.
        -- simpl. destruct piece; exact Hinc.
      * intros H. rewrite (Hone H). reflexivity.
      * intros H. simpl. destruct (ascii_dec c c) as [_|N];
          [exact (Hmore H) | exfalso; apply N; reflexivity].
Qed.

Lemma replace_cons (c : ascii) (s pattern replacement : string) :
  replace (String c s) pattern replacement =
  if String.prefix pattern (String c s)
  then (replacement ++ dropUnits (String.length pattern) (String c s))%string
  else String c (replace s pattern replacement).
Proof. reflexivity. Qed.

Lemma replace_absent (s pattern replacement : string) :
  includes s pattern = false -> replace s pattern replacement = s.
Proof.
  induction s as [|c s IH]; intros H.
  - simpl in H. apply orb_false_elim in H. destruct H as [H _].
    simpl. rewrite H. reflexivity.
  - rewrite includes_cons in H. apply orb_false_elim in H.
    destruct H as [H1 H2]. rewrite replace_cons, H1, (IH H2). reflexivity.
Qed.

Lemma prefix_app (a b : string) : String.prefix a (a ++ b) = true.
Proof.
  induction a as [|c a IH]; simpl; [apply prefix_empty|].
  destruct (ascii_dec c c) as [_|N]; [exact IH | exfalso; apply N; reflexivity].
Qed.

Lemma dropUnits_app (a b : string) : dropUnits (String.length a) (a ++ b) = b.
Proof. induction a as [|c a IH]; simpl; [reflexivity | exact IH]. Qed.

Lemma replace_at_start (pattern rest : string) :
  replace (pattern ++ rest) pattern "" = rest.
Proof.
  destruct (pattern ++ rest)%string as [|c s] eqn:E.
  - destruct pattern; [simpl in E; subst rest; reflexivity | discriminate E].
  - rewrite replace_cons. rewrite <- E. rewrite prefix_app, dropUnits_app.
    reflexivity.
Qed.

Lemma trimStart_head (s : string) (c : ascii) (rest : string) :
  trimStart s = String c rest -> isWhiteSpace c = false.
Proof.
  induction s as [|a s IH]; simpl; [discriminate|].
  destruct (isWhiteSpace a) eqn:E; [exact IH|].
  intros H. injection H as -> _. exact E.
Qed.

Lemma trimEnd_head (s : string) (c : ascii) (rest : string) :
  trimEnd s = String c rest -> exists rest', s = String c rest'.
Proof.
  destruct s as [|a s]; simpl; [discriminate|].
  destruct (trimEnd s); [destruct (isWhiteSpace a)|];
    intros H; try discriminate H; injection H as -> _; eexists; reflexivity.
Qed.

Lemma trimEnd_last (s pre : string) (c : ascii) :
  trimEnd s = (pre ++ String c EmptyString)%string -> isWhiteSpace c = false.
Proof.
  revert pre. induction s as [|a s IH]; intros pre; simpl.
  - destruct pre; discriminate.
  - destruct (trimEnd s) as [|k ks] eqn:E.
    + destruct (isWhiteSpace a) eqn:Ea.
      * destruct pre; discriminate.
      * destruct pre as [|b pre]; simpl; intros H.
        -- injection H as ->. exact Ea.
        -- injection H as _ H. destruct pre; discriminate H.
    + destruct pre as [|b pre]; simpl; intros H.
      * discriminate H.
      * injection H as _ H. apply (IH pre). exact H.
Qed.

Lemma trim_ends (s : string) :
  (forall c rest, trim s = String c rest -> isWhiteSpace c = false) /\
  (forall pre c, trim s = (pre ++ String c EmptyString)%string ->
                 isWhiteSpace c = false).
Proof.
  unfold trim. split.
  - intros c rest H. destruct (@trimEnd_head _ _ _ H) as [rest' H'].
    exact (@trimStart_head _ _ _ H').
  - intros pre c H. exact (@trimEnd_last _ _ _ H).
Qed.

(* ================================================================== *)
(** * Beyond the claims: generated images and videos *)

Lemma firstImage_none (parts : list ResponsePart) :
  firstImage parts = None <-> Forall (fun part => rp_inlineData part = None) parts.
Proof.
  induction parts as [|part parts IH]; simpl.
  - split; [constructor | reflexivity].
  - destruct (rp_inlineData part) eqn:E.
    + split; [discriminate|]. intros H. inversion H as [|? ? Hp _]; subst.
      rewrite E in Hp. discriminate Hp.
    + split.
      * intros H. constructor; [exact E | apply IH; exact H].
      * intros H. inversion H; subst. apply IH. assumption.
Qed.

(** The loop of lines 156-161 returns at the first part with inline data. *)
Lemma firstImage_some (parts : list ResponsePart) (url : string) :
  firstImage parts = Some url <->
  exists before part after d,
    parts = before ++ part :: after /\
    Forall (fun part => rp_inlineData part = None) before /\
    rp_inlineData part = Some d /\
    url = ("data:image/png;base64," ++ interpolate d)%string.
Proof.
  induction parts as [|p0 parts IH]; simpl.
  - split; [discriminate|].
    intros (before & part & after & d & H & _). destruct before; discriminate H.
  - destruct (rp_inlineData p0) as [d0|] eqn:E.
    + split.
      * intros H. injection H as <-. exists [], p0, parts, d0.
        split; [reflexivity|]. split; [constructor|]. split; [exact E | reflexivity].
      * intros (before & part & after & d & H & Hb & Hd & Hu).
        destruct before as [|b0 before]; simpl in H; injection H as <- _.
        -- rewrite E in Hd. injection Hd as <-. rewrite Hu. reflexivity.
        -- inversion Hb as [|? ? Hb0 _]; subst. rewrite E in Hb0. discriminate Hb0.
    + rewrite IH. split.
      * intros (before & part & after & d & H & Hb & Hd & Hu).
        exists (p0 :: before), part, after, d.
        split; [simpl; rewrite H; reflexivity|].
        split; [constructor; [exact E | exact Hb]|]. split; [exact Hd | exact Hu].
      * intros (before & part & after & d & H & Hb & Hd & Hu).
        destruct before as [|b0 before]; simpl in H; injection H as <- H.
        -- rewrite E in Hd. discriminate Hd.
        -- exists before, part, after, d.
           inversion Hb; subst.
           split; [reflexivity|]. split; [assumption|]. split; [exact Hd | reflexivity].
Qed.



(** X19.  The request for a video always carries a prompt, the cleaned
    text or, when that is empty, ['Cinematic movement']; its aspect ratio
    is [9:16] when that ratio is chosen and [16:9] in every other case;
    it carries an image exactly when a file is attached. *)
Theorem video_request_has_a_prompt_and_a_ratio
    (number : Type) (text : string) (fileData : option (string * string))
    (config : option GenerationConfig) :
  let r := @videoRequest number text fileData config in
  gv_prompt r <> ""%string /\
  (videoPrompt text <> ""%string -> gv_prompt r = videoPrompt text) /\
  (videoPrompt text = ""%string -> gv_prompt r = "Cinematic movement"%string) /\
  (gv_aspectRatio r = "9:16"%string <->
   exists c, config = Some c /\ aspectRatio c = "9:16"%string) /\
  (gv_aspectRatio r <> "9:16"%string -> gv_aspectRatio r = "16:9"%string) /\
  (gv_image r = None <-> fileData = None).
Proof.
  intros r. unfold r, videoRequest, generateVideo. simpl.
  split; [|split; [|split; [|split; [|split]]]].
  - destruct (videoPrompt text); discriminate.
  - destruct (videoPrompt text); [intros N; exfalso; apply N|]; reflexivity.
  - intros H. rewrite H. reflexivity.
  - destruct config as [c|].
    + destruct (String.eqb (aspectRatio c) "9:16") eqn:E.
      * split; [|reflexivity]. intros _. exists c.
        split; [reflexivity | apply String.eqb_eq; exact E].
      * split; [discriminate|]. intros (c' & Hc & Hr). injection Hc as <-.
        apply String.eqb_neq in E. exfalso. apply E. exact Hr.
    + split; [discriminate|]. intros (c' & Hc & _). discriminate Hc.
  - destruct config as [c|]; [|reflexivity].
    destruct (String.eqb (aspectRatio c) "9:16");
      [intros N; exfalso; apply N|]; reflexivity.
  - destruct fileData as [[m d]|]; split; intros H;
      first [reflexivity | discriminate H].
Qed.

Lemma video_request_has_a_prompt_and_a_ratio_witness :
  let r := @videoRequest Z "/video" None (Some (InputArea.config InputArea.initial)) in
  gv_prompt r = "Cinematic movement"%string /\
  gv_aspectRatio r = "16:9"%string.
Proof.
  intros r.
  destruct (@video_request_has_a_prompt_and_a_ratio
              Z "/video" None (Some (InputArea.config InputArea.initial)))
    as (_ & _ & A & _ & B & _).
  split; [apply A; reflexivity | apply B; discriminate].
Defined.

(** X20.  A part that has a text is shown as that text and sent as that
    text, whatever else it holds.  The message [App] stores for a
    generated video has one part, with a text and the video: it is shown
    as the text alone, and as history it is sent as the text alone, while a
    part holding the video alone would be shown as a video. *)
Theorem generated_video_is_never_shown
    (videoUrl : string) (now : Z) (isPlaying : bool) :
  MessageItem.render isPlaying (videoMessage videoUrl now)
  = [MessageItem.p "Generation complete."] /\
  contentsOf [videoMessage videoUrl now]
  = [ {| rc_role := "model"; rc_parts := [textPart "Generation complete."] |} ] /\
  (forall isUser,
     MessageItem.renderPart isUser isPlaying
       {| mp_text := None; mp_inlineData := Some ("video/mp4"%string, videoUrl) |}
     = MessageItem.video
         (if startsWith videoUrl "blob:" then videoUrl
          else "data:video/mp4;base64," ++ videoUrl)%string) /\
  (forall part t isUser,
     mp_text part = Some t -> t <> ""%string ->
     MessageItem.renderPart isUser isPlaying part = MessageItem.p t /\
     requestPart part = textPart t).
Proof.
  split; [reflexivity|]. split; [reflexivity|]. split; [reflexivity|].
  intros part t isUser Ht Hne.
  unfold MessageItem.renderPart, requestPart. rewrite Ht.
  destruct t; [exfalso; apply Hne; reflexivity|]. split; reflexivity.
Qed.

Lemma generated_video_is_never_shown_witness :
  let part :=
    {| mp_text := Some "Generation complete."%string;
       mp_inlineData := Some ("video/mp4", "blob:https://app/1f")%string |} in
  MessageItem.renderPart false false part = MessageItem.p "Generation complete.".
Proof.
  intros part.
  assert (N : "Generation complete."%string <> ""%string) by discriminate.
  exact (proj1 (proj2 (proj2 (proj2
           (generated_video_is_never_shown "blob:https://app/1f" 0 false)))
           part "Generation complete."%string false eq_refl N)).
Defined.

(* ================================================================== *)
(** * Beyond the claims: what is sent, and as which command *)

(** X21.  [handleSubmit] of the input area calls [onSend] unless the area
    is disabled or there is neither a text, once trimmed, nor a file.  The
    text sent is the trimmed input: it neither starts nor ends with white
    space; the configuration is passed on; afterwards the input and the
    attachment are cleared, and submitting again sends nothing. *)
Theorem handleSubmit_sends_the_trimmed_input
    (disabled : bool) (st : InputArea.State) :
  (fst (InputArea.handleSubmit disabled st) = None <->
   disabled = true \/
   (trim (InputArea.input st) = ""%string /\ InputArea.attachedFile st = None)) /\
  (fst (InputArea.handleSubmit disabled st) = None ->
   snd (InputArea.handleSubmit disabled st) = st) /\
  (forall sent file config,
     fst (InputArea.handleSubmit disabled st) = Some (sent, file, config) ->
     sent = trim (InputArea.input st) /\
     (forall c rest, sent = String c rest -> isWhiteSpace c = false) /\
     (forall pre c, sent = (pre ++ String c EmptyString)%string ->
                    isWhiteSpace c = false) /\
     (sent <> ""%string \/ file <> None) /\
     (file = None <-> InputArea.attachedFile st = None) /\
     config = InputArea.config st /\
     snd (InputArea.handleSubmit disabled st)
     = {| InputArea.input := ""; InputArea.attachedFile := None;
          InputArea.config := config |} /\
     fst (InputArea.handleSubmit disabled
            (snd (InputArea.handleSubmit disabled st))) = None).
Proof.
  unfold InputArea.handleSubmit.
  destruct ((String.eqb (trim (InputArea.input st)) ""
             && match InputArea.attachedFile st with
                | Some _ => false
                | None => true
                end) || disabled) eqn:G.
  - simpl. split; [|split].
    + split; [intros _ | reflexivity].
      apply orb_true_iff in G. destruct G as [G|G]; [right | left; exact G].
      apply andb_true_iff in G. destruct G as [G1 G2].
      split; [apply String.eqb_eq; exact G1|].
      destruct (InputArea.attachedFile st); [discriminate G2 | reflexivity].
    + reflexivity.
    + intros sent file config H. discriminate H.
  - apply orb_false_iff in G. destruct G as [G1 G2]. subst disabled. simpl.
    split; [|split].
    + split; [discriminate|]. intros [H | [H1 H2]]; [discriminate H|].
      rewrite H1, H2 in G1. discriminate G1.
    + intros H. discriminate H.
    + intros sent file config H. injection H as <- <- <-.
      split; [reflexivity|]. split; [apply trim_ends|]. split; [apply trim_ends|].
      split.
      { apply andb_false_iff in G1. destruct G1 as [G1|G1].
        - left. apply String.eqb_neq. exact G1.
        - right. destruct (InputArea.attachedFile st); [discriminate | discriminate G1]. }
      split.
      { destruct (InputArea.attachedFile st); split; intros H;
          first [reflexivity | discriminate H]. }
      split; [reflexivity|]. split; reflexivity.
Qed.

Lemma handleSubmit_sends_the_trimmed_input_witness :
  let st :=
    {| InputArea.input := "  /image a red fox ";
       InputArea.attachedFile := None;
       InputArea.config := InputArea.config InputArea.initial |} in
  fst (InputArea.handleSubmit false st)
  = Some ("/image a red fox"%string, None, InputArea.config InputArea.initial) /\
  fst (InputArea.handleSubmit false (snd (InputArea.handleSubmit false st))) = None.
Proof.
  intros st.
  assert (H : fst (InputArea.handleSubmit false st)
              = Some ("/image a red fox"%string, None,
                      InputArea.config InputArea.initial)) by reflexivity.
  split; [exact H|].
  destruct (proj2 (proj2 (handleSubmit_sends_the_trimmed_input false st)) _ _ _ H)
    as (_ & _ & _ & _ & _ & _ & _ & R).
  exact R.
Defined.

Lemma prefix_cons (a b : ascii) (s1 s2 : string) :
  String.prefix (String a s1) (String b s2)
  = if ascii_dec a b then String.prefix s1 s2 else false.
Proof. reflexivity. Qed.

Lemma video_is_not_image (s : string) :
  String.prefix "/video" s = true -> String.prefix "/image" s = false.
Proof.
  destruct s as [|a [|b r]].
  - discriminate.
  - rewrite !prefix_cons. destruct (ascii_dec "/" a); discriminate.
  - rewrite !prefix_cons. destruct (ascii_dec "/" a); [|discriminate].
    destruct (ascii_dec "v" b) as [<-|]; [|discriminate].
    intros _. reflexivity.
Qed.

Lemma startsWith_iff (s p : string) :
  startsWith s p = true <-> exists rest, s = (p ++ rest)%string.
Proof.
  unfold startsWith. split.
  - revert s. induction p as [|a p IH]; intros s H.
    + exists s. reflexivity.
    + destruct s as [|b s]; [discriminate H|].
      rewrite prefix_cons in H.
      destruct (ascii_dec a b) as [<-|]; [|discriminate H].
      destruct (IH s H) as [rest ->]. exists rest. reflexivity.
  - intros [rest ->]. apply prefix_app.
Qed.

Lemma toLowerCase_app (a b : string) :
  toLowerCase (a ++ b) = (toLowerCase a ++ toLowerCase b)%string.
Proof. induction a as [|c a IH]; simpl; [reflexivity | rewrite IH; reflexivity]. Qed.



(* ================================================================== *)
(** * Beyond the claims: signing in *)

(** X23.  [handleSubmit] of the sign-in form calls [onLogin] unless the
    email or the password is empty or, when signing up, the name is.  The
    user carries the email as typed; when signing up the name is the name
    typed, and when signing in it is the email up to its first [@]: a
    beginning of the email without any [@], the whole email when it has
    none, and empty when the email starts with [@]. *)
Theorem handleSubmit_names_the_user
    (isSignUp : bool) (name email password id : string) (now : Z) :
  (AuthModal.handleSubmit isSignUp name email password id now = None <->
   email = ""%string \/ password = ""%string \/
   (isSignUp = true /\ name = ""%string)) /\
  (forall user,
     AuthModal.handleSubmit isSignUp name email password id now = Some user ->
     AuthModal.u_id user = id /\
     AuthModal.u_email user = email /\
     AuthModal.u_joinedAt user = now /\
     (isSignUp = true -> AuthModal.u_name user = name /\ name <> ""%string) /\
     (isSignUp = false ->
      startsWith email (AuthModal.u_name user) = true /\
      includes (AuthModal.u_name user) "@" = false /\
      (AuthModal.u_name user = email \/
       startsWith email (AuthModal.u_name user ++ "@") = true) /\
      (includes email "@" = false -> AuthModal.u_name user = email) /\
      (startsWith email "@" = true -> AuthModal.u_name user = ""%string))).
Proof.
  unfold AuthModal.handleSubmit.
  destruct (String.eqb email "" || String.eqb password ""
            || (isSignUp && String.eqb name "")) eqn:G.
  - split; [|intros user H; discriminate H].
    split; [intros _ | reflexivity].
    apply orb_true_iff in G. destruct G as [G|G].
    + apply orb_true_iff in G. destruct G as [G|G];
        apply String.eqb_eq in G; auto.
    + apply andb_true_iff in G. destruct G as [G1 G2].
      apply String.eqb_eq in G2. auto.
  - apply orb_false_iff in G. destruct G as [G G3].
    apply orb_false_iff in G. destruct G as [G1 G2].
    apply String.eqb_neq in G1, G2.
    split.
    + split; [discriminate|]. intros [H | [H | [H1 H2]]].
      * exfalso. apply G1. exact H.
      * exfalso. apply G2. exact H.
      * subst isSignUp name. discriminate G3.
    + intros user H. injection H as <-. simpl.
      split; [reflexivity|]. split; [reflexivity|]. split; [reflexivity|].
      split.
      * intros ->. split; [reflexivity|]. simpl in G3.
        apply String.eqb_neq. exact G3.
      * intros ->.
        destruct (split_head "@" email)
          as (piece & pieces & Hsp & Hpre & Hinc & Hone & Hmore).
        split; [|split; [|split; [|split]]].
        -- rewrite Hsp. exact Hpre.
        -- rewrite Hsp. exact Hinc.
        -- rewrite Hsp. destruct pieces as [|q qs].
           ++ left. apply Hone. reflexivity.
           ++ right. apply Hmore. discriminate.
        -- intros Hno. rewrite (@split_without_separator _ _ Hno). reflexivity.
        -- intros Hat. unfold startsWith in Hat.
           destruct email as [|a r]; [exfalso; apply G1; reflexivity|].
           rewrite prefix_cons in Hat.
           destruct (ascii_dec "@" a) as [<-|]; [|discriminate Hat].
           reflexivity.
Qed.

Lemma handleSubmit_names_the_user_witness :
  exists user,
    AuthModal.handleSubmit false "" "ada@example.com" "secret" "k3j9x0q1z" 42
    = Some user /\
    AuthModal.u_name user = "ada"%string /\
    includes (AuthModal.u_name user) "@" = false.
Proof.
  eexists. split; [reflexivity|].
  destruct (proj2 (handleSubmit_names_the_user
                     false "" "ada@example.com" "secret" "k3j9x0q1z" 42)
              _ eq_refl) as (_ & _ & _ & _ & H).
  destruct (H eq_refl) as (_ & A & _).
  split; [reflexivity | exact A].
Defined.
